(** * ESP-Drone autonomous navigation: the engine of [autonav.c] and the
      CRTP command handler, embedded in Rocq.

    The C sources keep the engine in file-level statics and talk to the
    outside through a handful of external calls (the microsecond timer, the
    two time-of-flight drivers, the commander and the CRTP link).  The
    embedding threads one [machine] value through a small state monad: the
    statics, the log of what was handed to the commander and to the link,
    and one counter per external call that says which answer of the
    surrounding [world] comes next. *)

From Stdlib Require Import ZArith List Bool Lia SpecFloat Reals Lra Psatz.
Import ListNotations.
Local Open Scope Z_scope.

(** ** Fixed-width integers *)

Definition u8  (z : Z) : Z := z mod 2 ^ 8.
Definition u16 (z : Z) : Z := z mod 2 ^ 16.
Definition u32 (z : Z) : Z := z mod 2 ^ 32.
Definition u64 (z : Z) : Z := z mod 2 ^ 64.

(** ** IEEE-754 binary32, the C type [float] of the firmware

    Every operation rounds to nearest-even after each step (no fused
    multiply-add, no excess precision), as the Standard Library's
    executable specification of IEEE arithmetic does. *)

Module F32.

Definition prec : Z := 24.
Definition emax : Z := 128.

Definition t := spec_float.

Definition zero : t := S754_zero false.

Definition add : t -> t -> t := SFadd prec emax.
Definition sub : t -> t -> t := SFsub prec emax.
Definition mul : t -> t -> t := SFmul prec emax.
Definition div : t -> t -> t := SFdiv prec emax.
Definition opp : t -> t := SFopp.

(** [a < b] and [a > b] of C: false as soon as one side is a NaN. *)
Definition ltb (a b : t) : bool := SFltb a b.
Definition gtb (a b : t) : bool := SFltb b a.
Definition leb (a b : t) : bool := SFleb a b.

(** [(float)z] for an integer [z]. *)
Definition of_Z (z : Z) : t := binary_normalize prec emax z 0 false.

(** The literal [n/d f] for a decimal fraction: the float nearest to the
    quotient of two exactly representable integers. *)
Definition lit (n d : Z) : t := div (of_Z n) (of_Z d).

(** Integer part, towards zero; nothing for NaN and the infinities. *)
Definition trunc (x : t) : option Z :=
  match x with
  | S754_zero _ => Some 0
  | S754_finite s m e => Some (cond_Zopp s (Z.shiftl (Zpos m) e))
  | S754_infinity _ | S754_nan => None
  end.

(** [(uint16_t)x].  C defines the conversion only when the integer part
    fits; outside of that the embedding wraps (and gives 0 for NaN and
    the infinities), and [hold_thrust_clamped] shows that the controller
    never gets there. *)
Definition to_u16 (x : t) : Z :=
  match trunc x with
  | Some z => u16 z
  | None => 0
  end.

Definition is_nan (x : t) : bool :=
  match x with S754_nan => true | _ => false end.

Definition is_finite (x : t) : bool :=
  match x with S754_zero _ | S754_finite _ _ _ => true | _ => false end.

End F32.

(** ** Configuration of [autonav.c] *)

Definition AUTONAV_DEFAULT_ALT_MM : Z := 1200.
Definition SAFETY_TIMEOUT_MS : Z := 30000.
Definition OBSTACLE_THR_MM : Z := 800.
Definition OBSTACLE_MAX_WAIT_MS : Z := 30000.
Definition LOOP_DT_S : F32.t := F32.lit 1 100.
Definition HOVER_THRUST_BASE : F32.t := F32.of_Z 30000.
Definition Z_KP : F32.t := F32.of_Z 1.
Definition Z_KI : F32.t := F32.lit 4 100.
Definition Z_KD : F32.t := F32.lit 8 100.
Definition SEGMENT_TIME_MS : Z := 3000.
Definition SHAPE_SPEED : F32.t := F32.lit 2 10.

(** ** Data model *)

Inductive autonav_state_t :=
| AUTONAV_IDLE
| AUTONAV_RUNNING
| AUTONAV_HOLD_OBSTACLE
| AUTONAV_LANDING
| AUTONAV_LANDED
| AUTONAV_OVERRIDE.

Definition state_code (s : autonav_state_t) : Z :=
  match s with
  | AUTONAV_IDLE => 0
  | AUTONAV_RUNNING => 1
  | AUTONAV_HOLD_OBSTACLE => 2
  | AUTONAV_LANDING => 3
  | AUTONAV_LANDED => 4
  | AUTONAV_OVERRIDE => 5
  end.

Definition state_eqb (a b : autonav_state_t) : bool :=
  state_code a =? state_code b.

(** [setpoint_t] of the simulator's [stabilizer.h]. *)
Record setpoint_t := {
  velocity_x : F32.t;
  velocity_y : F32.t;
  velocity_z : F32.t;
  velocity_body : bool;
  velocity_valid : bool;
  thrust : Z
}.

(** [memset(&sp, 0, sizeof(sp))]. *)
Definition setpoint_zero : setpoint_t :=
  {| velocity_x := F32.zero; velocity_y := F32.zero; velocity_z := F32.zero;
     velocity_body := false; velocity_valid := false; thrust := 0 |}.

Definition set_thrust (v : Z) (sp : setpoint_t) : setpoint_t :=
  {| velocity_x := velocity_x sp; velocity_y := velocity_y sp;
     velocity_z := velocity_z sp; velocity_body := velocity_body sp;
     velocity_valid := velocity_valid sp; thrust := v |}.

Definition set_velocity_xy (vx vy : F32.t) (sp : setpoint_t) : setpoint_t :=
  {| velocity_x := vx; velocity_y := vy;
     velocity_z := velocity_z sp; velocity_body := velocity_body sp;
     velocity_valid := velocity_valid sp; thrust := thrust sp |}.

(** The file-level statics of [autonav.c]. *)
Record autonav := {
  shapeStartUs : Z;
  s_state : autonav_state_t;
  s_targetAltMm : Z;
  s_shapeId : Z;
  s_lastCmdUs : Z;
  s_obstEnterUs : Z;
  z_i : F32.t;
  z_prevErr : F32.t;
  altFilt : F32.t
}.

(** Their initialisers. *)
Definition autonav_statics : autonav :=
  {| shapeStartUs := 0;
     s_state := AUTONAV_IDLE;
     s_targetAltMm := AUTONAV_DEFAULT_ALT_MM;
     s_shapeId := 0;
     s_lastCmdUs := 0;
     s_obstEnterUs := 0;
     z_i := F32.zero;
     z_prevErr := F32.zero;
     altFilt := F32.of_Z AUTONAV_DEFAULT_ALT_MM |}.

Definition set_shapeStartUs (v : Z) (a : autonav) : autonav :=
  {| shapeStartUs := v; s_state := s_state a; s_targetAltMm := s_targetAltMm a;
     s_shapeId := s_shapeId a; s_lastCmdUs := s_lastCmdUs a;
     s_obstEnterUs := s_obstEnterUs a; z_i := z_i a; z_prevErr := z_prevErr a;
     altFilt := altFilt a |}.

Definition set_s_state (v : autonav_state_t) (a : autonav) : autonav :=
  {| shapeStartUs := shapeStartUs a; s_state := v; s_targetAltMm := s_targetAltMm a;
     s_shapeId := s_shapeId a; s_lastCmdUs := s_lastCmdUs a;
     s_obstEnterUs := s_obstEnterUs a; z_i := z_i a; z_prevErr := z_prevErr a;
     altFilt := altFilt a |}.

Definition set_s_targetAltMm (v : Z) (a : autonav) : autonav :=
  {| shapeStartUs := shapeStartUs a; s_state := s_state a; s_targetAltMm := v;
     s_shapeId := s_shapeId a; s_lastCmdUs := s_lastCmdUs a;
     s_obstEnterUs := s_obstEnterUs a; z_i := z_i a; z_prevErr := z_prevErr a;
     altFilt := altFilt a |}.

Definition set_s_shapeId (v : Z) (a : autonav) : autonav :=
  {| shapeStartUs := shapeStartUs a; s_state := s_state a;
     s_targetAltMm := s_targetAltMm a; s_shapeId := v;
     s_lastCmdUs := s_lastCmdUs a; s_obstEnterUs := s_obstEnterUs a;
     z_i := z_i a; z_prevErr := z_prevErr a; altFilt := altFilt a |}.

Definition set_s_lastCmdUs (v : Z) (a : autonav) : autonav :=
  {| shapeStartUs := shapeStartUs a; s_state := s_state a;
     s_targetAltMm := s_targetAltMm a; s_shapeId := s_shapeId a;
     s_lastCmdUs := v; s_obstEnterUs := s_obstEnterUs a;
     z_i := z_i a; z_prevErr := z_prevErr a; altFilt := altFilt a |}.

Definition set_s_obstEnterUs (v : Z) (a : autonav) : autonav :=
  {| shapeStartUs := shapeStartUs a; s_state := s_state a;
     s_targetAltMm := s_targetAltMm a; s_shapeId := s_shapeId a;
     s_lastCmdUs := s_lastCmdUs a; s_obstEnterUs := v;
     z_i := z_i a; z_prevErr := z_prevErr a; altFilt := altFilt a |}.

Definition set_z_i (v : F32.t) (a : autonav) : autonav :=
  {| shapeStartUs := shapeStartUs a; s_state := s_state a;
     s_targetAltMm := s_targetAltMm a; s_shapeId := s_shapeId a;
     s_lastCmdUs := s_lastCmdUs a; s_obstEnterUs := s_obstEnterUs a;
     z_i := v; z_prevErr := z_prevErr a; altFilt := altFilt a |}.

Definition set_z_prevErr (v : F32.t) (a : autonav) : autonav :=
  {| shapeStartUs := shapeStartUs a; s_state := s_state a;
     s_targetAltMm := s_targetAltMm a; s_shapeId := s_shapeId a;
     s_lastCmdUs := s_lastCmdUs a; s_obstEnterUs := s_obstEnterUs a;
     z_i := z_i a; z_prevErr := v; altFilt := altFilt a |}.

Definition set_altFilt (v : F32.t) (a : autonav) : autonav :=
  {| shapeStartUs := shapeStartUs a; s_state := s_state a;
     s_targetAltMm := s_targetAltMm a; s_shapeId := s_shapeId a;
     s_lastCmdUs := s_lastCmdUs a; s_obstEnterUs := s_obstEnterUs a;
     z_i := z_i a; z_prevErr := z_prevErr a; altFilt := v |}.

(** *** The outside world *)

(** What one call of a time-of-flight driver does: it returns [true] after
    storing a reading in its out-parameter, or it returns [false], having
    stored something or having left the out-parameter alone. *)
Inductive tof_sample :=
| TofValid (mm : Z)
| TofInvalid (stored : option Z).

(** Modelled from the spec: the [CRTPPacket] of [crtp.h], which is not among
    the sources at hand; the handler reads its [port], [channel], [size]
    and [data] and builds its reply from the same fields.  [data] lists the
    bytes that were received; the rest of the buffer reads as 0, as the
    receive loop clears the packet before every receive. *)
Record CRTPPacket := {
  port : Z;
  channel : Z;
  size : Z;
  data : list Z
}.

(** The answers of the external functions: the [k]-th call of each gets
    the [k]-th answer.  [cosf] and [sinf] are the C library's. *)
Record world := {
  esp_timer_get_time : nat -> Z;
  down_tof : nat -> tof_sample;
  front_tof : nat -> tof_sample;
  cosf : F32.t -> F32.t;
  sinf : F32.t -> F32.t
}.

Record machine := {
  eng : autonav;
  n_clock : nat;
  n_down : nat;
  n_front : nat;
  commanded : list (setpoint_t * Z);
  crtp_sent : list CRTPPacket;
  crtp_started : bool;
  crtp_tasks : nat
}.

(** The machine before [main]: statics at their initialisers, nothing
    called yet. *)
Definition boot : machine :=
  {| eng := autonav_statics; n_clock := 0; n_down := 0; n_front := 0;
     commanded := []; crtp_sent := []; crtp_started := false; crtp_tasks := 0 |}.

(** ** The monad *)

Definition M (A : Type) : Type := machine -> A * machine.

Definition ret {A} (a : A) : M A := fun m => (a, m).

Definition bind {A B} (c : M A) (k : A -> M B) : M B :=
  fun m => let (a, m') := c m in k a m'.

Declare Scope autonav_scope.
Delimit Scope autonav_scope with autonav.
Notation "x <- c ;; k" := (bind c (fun x => k))
  (at level 61, c at next level, right associativity) : autonav_scope.
Notation "c ;; k" := (bind c (fun _ => k))
  (at level 61, right associativity) : autonav_scope.
Local Open Scope autonav_scope.

Definition exec {A} (c : M A) (m : machine) : machine := snd (c m).
Definition eval {A} (c : M A) (m : machine) : A := fst (c m).

Definition gets {A} (f : autonav -> A) : M A := fun m => (f (eng m), m).

Definition modify (f : autonav -> autonav) : M unit :=
  fun m => (tt, {| eng := f (eng m); n_clock := n_clock m; n_down := n_down m;
                   n_front := n_front m; commanded := commanded m;
                   crtp_sent := crtp_sent m; crtp_started := crtp_started m;
                   crtp_tasks := crtp_tasks m |}).

(** ** The Navigation Engine ([autonav.c]) *)

Section Engine.

Variable W : world.

(** *** External calls *)

(** [nowUs]: [(uint64_t)esp_timer_get_time()]. *)
Definition nowUs : M Z :=
  fun m => (u64 (esp_timer_get_time W (n_clock m)),
            {| eng := eng m; n_clock := S (n_clock m); n_down := n_down m;
               n_front := n_front m; commanded := commanded m;
               crtp_sent := crtp_sent m; crtp_started := crtp_started m;
               crtp_tasks := crtp_tasks m |}).

(** The verdict of a driver call and the content of its [uint16_t]
    out-parameter afterwards, [init] being the content before. *)
Definition tof_result (init : Z) (r : tof_sample) : bool * Z :=
  match r with
  | TofValid mm => (true, u16 mm)
  | TofInvalid (Some mm) => (false, u16 mm)
  | TofInvalid None => (false, init)
  end.

Definition sensorsGetDownTofMm (init : Z) : M (bool * Z) :=
  fun m => (tof_result init (down_tof W (n_down m)),
            {| eng := eng m; n_clock := n_clock m; n_down := S (n_down m);
               n_front := n_front m; commanded := commanded m;
               crtp_sent := crtp_sent m; crtp_started := crtp_started m;
               crtp_tasks := crtp_tasks m |}).

Definition sensorsGetFrontTofMm (init : Z) : M (bool * Z) :=
  fun m => (tof_result init (front_tof W (n_front m)),
            {| eng := eng m; n_clock := n_clock m; n_down := n_down m;
               n_front := S (n_front m); commanded := commanded m;
               crtp_sent := crtp_sent m; crtp_started := crtp_started m;
               crtp_tasks := crtp_tasks m |}).

(** The setpoint sink: the log keeps the most recent call first. *)
Definition commanderSetSetpoint (sp : setpoint_t) (tickMs : Z) : M unit :=
  fun m => (tt, {| eng := eng m; n_clock := n_clock m; n_down := n_down m;
                   n_front := n_front m;
                   commanded := (sp, tickMs) :: commanded m;
                   crtp_sent := crtp_sent m; crtp_started := crtp_started m;
                   crtp_tasks := crtp_tasks m |}).

Definition crtpSendPacketBlock (pk : CRTPPacket) : M unit :=
  fun m => (tt, {| eng := eng m; n_clock := n_clock m; n_down := n_down m;
                   n_front := n_front m; commanded := commanded m;
                   crtp_sent := pk :: crtp_sent m;
                   crtp_started := crtp_started m;
                   crtp_tasks := crtp_tasks m |}).

(** [autonav_crtp_start]: creates the listener task unless the static
    [started] flag says it exists. *)
Definition autonav_crtp_start : M unit :=
  fun m => if crtp_started m then (tt, m)
           else (tt, {| eng := eng m; n_clock := n_clock m;
                        n_down := n_down m; n_front := n_front m;
                        commanded := commanded m; crtp_sent := crtp_sent m;
                        crtp_started := true;
                        crtp_tasks := S (crtp_tasks m) |}).

(** *** Utilities *)

(** [(a - b) / 1000ULL] on [uint64_t]. *)
Definition ms_between (now t0 : Z) : Z := u64 (now - t0) / 1000.

Definition msSince (t0 : Z) : M Z :=
  now <- nowUs ;; ret (ms_between now t0).

(** *** Entry points *)

Definition autonavSetTargetAltMm (mm : Z) : M unit :=
  modify (set_s_targetAltMm (u16 mm)).

Definition autonavGetState : M autonav_state_t := gets s_state.

Definition autonavKickSafety : M unit :=
  now <- nowUs ;; modify (set_s_lastCmdUs now).

Definition autonavEnterOverride : M unit :=
  modify (set_s_state AUTONAV_OVERRIDE).

Definition autonavExitOverride : M unit :=
  now <- nowUs ;;
  modify (set_s_lastCmdUs now) ;;
  modify (set_s_state AUTONAV_RUNNING).

Definition autonavIsOverride : M bool :=
  st <- gets s_state ;; ret (state_eqb st AUTONAV_OVERRIDE).

Definition autonavInit : M unit :=
  autonav_crtp_start ;;
  modify (set_s_state AUTONAV_IDLE) ;;
  modify (set_s_targetAltMm AUTONAV_DEFAULT_ALT_MM) ;;
  modify (set_s_shapeId 0) ;;
  now <- nowUs ;;
  modify (set_s_lastCmdUs now) ;;
  modify (set_s_obstEnterUs 0) ;;
  modify (set_z_i F32.zero) ;;
  modify (set_z_prevErr F32.zero) ;;
  tgt <- gets s_targetAltMm ;;
  modify (set_altFilt (F32.of_Z tgt)).

Definition autonavStartShape (shapeId : Z) : M unit :=
  modify (set_s_shapeId (u8 shapeId)) ;;
  modify (set_s_state AUTONAV_RUNNING) ;;
  now <- nowUs ;;
  modify (set_shapeStartUs now) ;;
  autonavKickSafety.

Definition autonavStop : M unit :=
  modify (set_s_shapeId 0) ;;
  modify (set_s_state AUTONAV_IDLE).

(** *** Altitude hold *)

(** [(uint16_t)(HOVER_THRUST_BASE * 0.93f)]. *)
Definition fallback_thrust : Z :=
  F32.to_u16 (F32.mul HOVER_THRUST_BASE (F32.lit 93 100)).

Definition clamp_integral (zi : F32.t) : F32.t :=
  let zi := if F32.gtb zi (F32.of_Z 400) then F32.of_Z 400 else zi in
  if F32.ltb zi (F32.opp (F32.of_Z 400)) then F32.opp (F32.of_Z 400) else zi.

Definition clamp_thrust (th : F32.t) : F32.t :=
  let th := if F32.ltb th (F32.of_Z 20000) then F32.of_Z 20000 else th in
  if F32.gtb th (F32.of_Z 65000) then F32.of_Z 65000 else th.

(** The filter and PID step on a valid reading [altMm]: the new statics
    and the thrust as a float, before the conversion to [uint16_t]. *)
Definition z_hold_step (altMm : Z) (a : autonav) : autonav * F32.t :=
  let altFilt' :=
    F32.add (F32.mul (F32.lit 9 10) (altFilt a))
            (F32.mul (F32.lit 1 10) (F32.of_Z altMm)) in
  let err := F32.sub (F32.of_Z (s_targetAltMm a)) altFilt' in
  let zi := clamp_integral (F32.add (z_i a) (F32.mul err LOOP_DT_S)) in
  let z_d := F32.div (F32.sub err (z_prevErr a)) LOOP_DT_S in
  let th := F32.add HOVER_THRUST_BASE
              (F32.add (F32.add (F32.mul Z_KP err) (F32.mul Z_KI zi))
                       (F32.mul Z_KD z_d)) in
  (set_z_prevErr err (set_z_i zi (set_altFilt altFilt' a)), clamp_thrust th).

(** [zHoldThrustCmd]: the thrust, and the flag stored through
    [tofOkOut].  [altMm] is an uninitialised local; it is read only on a
    valid reading, which has overwritten it. *)
Definition zHoldThrustCmd : M (Z * bool) :=
  r <- sensorsGetDownTofMm 0 ;;
  let (ok, altMm) := r in
  if negb ok then ret (fallback_thrust, ok)
  else
    a <- gets (fun a => a) ;;
    let (a', th) := z_hold_step altMm a in
    modify (fun _ => a') ;;
    ret (F32.to_u16 th, ok).

(** [commandLand]. *)
Definition commandLand : M setpoint_t :=
  modify (set_s_state AUTONAV_LANDING) ;;
  ret (set_thrust 0 setpoint_zero).

(** *** Trajectories *)

(** The [switch (s_shapeId)] of the RUNNING case, on [tMs], the elapsed
    shape time as the [uint32_t] it is stored in. *)
Definition shape_velocity (shapeId tMs : Z) (sp : setpoint_t) : setpoint_t :=
  let seg := u32 (tMs / SEGMENT_TIME_MS) in
  let half := F32.div SHAPE_SPEED (F32.of_Z 2) in
  let nhalf := F32.div (F32.opp SHAPE_SPEED) (F32.of_Z 2) in
  let c87 := F32.lit 87 100 in
  match shapeId with
  | 1 =>
      let seg := seg mod 4 in
      let sp := if seg =? 0 then set_velocity_xy SHAPE_SPEED F32.zero sp else sp in
      let sp := if seg =? 1 then set_velocity_xy F32.zero SHAPE_SPEED sp else sp in
      let sp := if seg =? 2 then set_velocity_xy (F32.opp SHAPE_SPEED) F32.zero sp else sp in
      let sp := if seg =? 3 then set_velocity_xy F32.zero (F32.opp SHAPE_SPEED) sp else sp in
      sp
  | 2 =>
      let seg := seg mod 4 in
      let sp := if seg =? 0 then set_velocity_xy SHAPE_SPEED F32.zero sp else sp in
      let sp := if seg =? 1 then set_velocity_xy F32.zero half sp else sp in
      let sp := if seg =? 2 then set_velocity_xy (F32.opp SHAPE_SPEED) F32.zero sp else sp in
      let sp := if seg =? 3 then set_velocity_xy F32.zero nhalf sp else sp in
      sp
  | 3 =>
      let seg := seg mod 3 in
      let sp := if seg =? 0 then set_velocity_xy SHAPE_SPEED F32.zero sp else sp in
      let sp := if seg =? 1 then set_velocity_xy nhalf (F32.mul SHAPE_SPEED c87) sp else sp in
      let sp := if seg =? 2 then set_velocity_xy nhalf (F32.mul (F32.opp SHAPE_SPEED) c87) sp else sp in
      sp
  | 4 =>
      let ts := F32.div (F32.of_Z tMs) (F32.of_Z 1000) in
      set_velocity_xy (F32.mul SHAPE_SPEED (cosf W ts))
                      (F32.mul half (sinf W ts)) sp
  | _ => sp
  end.

(** *** The control step *)

(** Step 1 of [autonavUpdate]: the safety timeout. *)
Definition safety_expired (elapsedMs : Z) (st : autonav_state_t) : bool :=
  (SAFETY_TIMEOUT_MS <? elapsedMs)
  && negb (state_eqb st AUTONAV_LANDING)
  && negb (state_eqb st AUTONAV_LANDED).

Definition safety_check : M unit :=
  last <- gets s_lastCmdUs ;;
  el <- msSince last ;;
  st <- gets s_state ;;
  if safety_expired el st then modify (set_s_state AUTONAV_LANDING)
  else ret tt.

(** The [switch (s_state)]: what one case does to the statics and to the
    setpoint [sp], which comes in zeroed. *)
Definition state_case (st : autonav_state_t) (blocked : bool) (hold : Z)
    (sp : setpoint_t) : M setpoint_t :=
  match st with
  | AUTONAV_IDLE => ret (set_thrust 0 sp)
  | AUTONAV_RUNNING =>
      if blocked then
        modify (set_s_state AUTONAV_HOLD_OBSTACLE) ;;
        now <- nowUs ;;
        modify (set_s_obstEnterUs now) ;;
        ret sp
      else
        let sp := set_thrust hold sp in
        start <- gets shapeStartUs ;;
        el <- msSince start ;;
        let tMs := u32 el in
        shapeId <- gets s_shapeId ;;
        ret (shape_velocity shapeId tMs sp)
  | AUTONAV_HOLD_OBSTACLE =>
      let sp := set_thrust hold sp in
      if negb blocked then
        modify (set_s_state AUTONAV_RUNNING) ;; ret sp
      else
        enter <- gets s_obstEnterUs ;;
        el <- msSince enter ;;
        if OBSTACLE_MAX_WAIT_MS <? el then
          modify (set_s_state AUTONAV_LANDING) ;; ret sp
        else ret sp
  | AUTONAV_LANDING =>
      sp <- commandLand ;;
      modify (set_s_state AUTONAV_LANDED) ;;
      ret sp
  | AUTONAV_LANDED => ret (set_thrust 0 sp)
  | AUTONAV_OVERRIDE => ret sp
  end.

Definition autonavUpdate (tickMs : Z) : M unit :=
  safety_check ;;
  let sp := setpoint_zero in
  zh <- zHoldThrustCmd ;;
  let hold := fst zh in
  fr <- sensorsGetFrontTofMm 65535 ;;
  let (frontOk, frontMm) := fr in
  let blocked := frontOk && (frontMm <? OBSTACLE_THR_MM) in
  st <- gets s_state ;;
  if state_eqb st AUTONAV_OVERRIDE then
    autonavKickSafety
  else
    sp <- state_case st blocked hold sp ;;
    commanderSetSetpoint sp (u32 tickMs).

(** ** The Wire-Command Handler *)

Definition AUTONAV_CRTP_PORT : Z := 13.
Definition AUTONAV_CRTP_CH : Z := 0.

Definition AUTONAV_CMD_STOP : Z := 0.
Definition AUTONAV_CMD_SQUARE : Z := 1.
Definition AUTONAV_CMD_RECT : Z := 2.
Definition AUTONAV_CMD_OVAL : Z := 3.
Definition AUTONAV_CMD_TRI : Z := 4.
Definition AUTONAV_CMD_SET_ALT_MM : Z := 5.
Definition AUTONAV_CMD_OVERRIDE_ON : Z := 10.
Definition AUTONAV_CMD_OVERRIDE_OFF : Z := 11.

(** [pk->data[i]]. *)
Definition data_at (pk : CRTPPacket) (i : nat) : Z := u8 (nth i (data pk) 0).

(** [u16le(p)] on the two bytes [b0], [b1] at [p]. *)
Definition u16le (b0 b1 : Z) : Z := u16 (Z.lor b0 (Z.shiftl b1 8)).

(** [autonav_status_t], packed, as the bytes [memcpy] moves into the
    reply on the little-endian target. *)
Definition status_bytes (st : autonav_state_t) (altMm : Z) : list Z :=
  [u8 (state_code st); u8 altMm; u8 (Z.shiftr altMm 8)].

Definition dispatch (pk : CRTPPacket) (cmd : Z) : M unit :=
  if cmd =? AUTONAV_CMD_STOP then autonavStop ;; autonavKickSafety
  else if cmd =? AUTONAV_CMD_SQUARE then autonavStartShape 1 ;; autonavKickSafety
  else if cmd =? AUTONAV_CMD_RECT then autonavStartShape 2 ;; autonavKickSafety
  else if cmd =? AUTONAV_CMD_OVAL then autonavStartShape 3 ;; autonavKickSafety
  else if cmd =? AUTONAV_CMD_TRI then autonavStartShape 4 ;; autonavKickSafety
  else if cmd =? AUTONAV_CMD_SET_ALT_MM then
    if 3 <=? size pk then
      let mm := u16le (data_at pk 1) (data_at pk 2) in
      autonavSetTargetAltMm mm ;; autonavKickSafety
    else ret tt
  else if cmd =? AUTONAV_CMD_OVERRIDE_ON then autonavEnterOverride ;; autonavKickSafety
  else if cmd =? AUTONAV_CMD_OVERRIDE_OFF then autonavKickSafety
  else ret tt.

(** [autonav_handle_packet], in a build that has the CRTP link. *)
Definition autonav_handle_packet (pk : option CRTPPacket) : M unit :=
  match pk with
  | None => ret tt
  | Some pk =>
      if negb (port pk =? AUTONAV_CRTP_PORT) || negb (channel pk =? AUTONAV_CRTP_CH)
      then ret tt
      else if size pk <? 1 then ret tt
      else
        let cmd := data_at pk 0 in
        dispatch pk cmd ;;
        st <- autonavGetState ;;
        r <- sensorsGetDownTofMm 0 ;;
        let alt := snd r in
        crtpSendPacketBlock
          {| port := AUTONAV_CRTP_PORT; channel := AUTONAV_CRTP_CH;
             size := 3; data := status_bytes st alt |}
  end.

End Engine.

Arguments F32.add : simpl never.
Arguments F32.sub : simpl never.
Arguments F32.mul : simpl never.
Arguments F32.div : simpl never.
Arguments F32.of_Z : simpl never.
Arguments F32.lit : simpl never.
Arguments F32.to_u16 : simpl never.
Arguments F32.ltb : simpl never.
Arguments F32.gtb : simpl never.
Arguments clamp_integral : simpl never.
Arguments clamp_thrust : simpl never.
Arguments ms_between : simpl never.
Arguments u8 : simpl never.
Arguments u16 : simpl never.
Arguments u32 : simpl never.
Arguments u64 : simpl never.
Arguments fallback_thrust : simpl never.
Arguments shape_velocity : simpl never.

(** ** Running several control steps *)

Fixpoint autonavUpdates (W : world) (ticks : list Z) : M unit :=
  match ticks with
  | [] => ret tt
  | t :: ticks => autonavUpdate W t ;; autonavUpdates W ticks
  end.

(** The reading of the clock that call number [k] gets. *)
Definition clock_at (W : world) (k : nat) : Z := u64 (esp_timer_get_time W k).

(** The elapsed milliseconds that the safety check of an [autonavUpdate]
    entered in [m] computes. *)
Definition elapsed_at_entry (W : world) (m : machine) : Z :=
  ms_between (clock_at W (n_clock m)) (s_lastCmdUs (eng m)).

(** What the forward sensor's next answer means for the obstacle logic. *)
Definition front_blocked (W : world) (m : machine) : bool :=
  let (ok, mm) := tof_result 65535 (front_tof W (n_front m)) in
  ok && (mm <? OBSTACLE_THR_MM).

(** The thrust that [zHoldThrustCmd] hands to an [autonavUpdate] entered
    in [m]. *)
Definition hold_thrust (W : world) (m : machine) : Z :=
  fst (eval (zHoldThrustCmd W) (exec (safety_check W) m)).

(** ** Basic facts *)


Lemma state_eqb_eq a b : state_eqb a b = true <-> a = b.
Proof. destruct a, b; cbv; split; congruence. Qed.

Lemma fallback_thrust_value : fallback_thrust = 27900.
Proof. vm_compute. reflexivity. Qed.

Lemma u8_range z : 0 <= u8 z < 256.
Proof. unfold u8. apply Z.mod_pos_bound. reflexivity. Qed.

Lemma u16_range z : 0 <= u16 z < 65536.
Proof. unfold u16. apply Z.mod_pos_bound. reflexivity. Qed.

Lemma u8_small z : 0 <= z < 256 -> u8 z = z.
Proof. intros H. unfold u8. apply Z.mod_small. exact H. Qed.

Lemma u16_small z : 0 <= z < 65536 -> u16 z = z.
Proof. intros H. unfold u16. apply Z.mod_small. exact H. Qed.

(** [b0 | (b1 << 8)] adds up, the two bytes having no bit in common. *)
Lemma u16le_value b0 b1 :
  0 <= b0 < 256 -> 0 <= b1 < 256 -> u16le b0 b1 = b0 + 256 * b1.
Proof.
  intros H0 H1. unfold u16le.
  assert (E : Z.lor b0 (Z.shiftl b1 8) = b0 + 256 * b1).
  { rewrite Z.shiftl_mul_pow2 by lia.
    change (2 ^ 8) with 256.
    rewrite <- Z.lxor_lor, <- Z.add_nocarry_lxor; try lia.
    all: apply Z.bits_inj'; intros n Hn; rewrite Z.land_spec, Z.bits_0.
    all: destruct (Z.lt_ge_cases n 8) as [Hlt | Hge].
    all: try (replace (b1 * 256) with (b1 * 2 ^ 8) by reflexivity;
              rewrite (Z.mul_pow2_bits_low b1 8 n) by lia;
              apply andb_false_r).
    all: replace (Z.testbit b0 n) with false; [reflexivity|].
    all: symmetry; apply Z.bits_above_log2; try lia.
    all: destruct (Z.eq_dec b0 0) as [-> | Hnz]; [simpl; lia|].
    all: apply Z.log2_lt_pow2; try lia.
    all: apply Z.lt_le_trans with (2 ^ 8); [change (2 ^ 8) with 256; lia|].
    all: apply Z.pow_le_mono_r; lia. }
  rewrite E. apply u16_small. lia.
Qed.

(** ** Binary floating point: how far rounding can go

    The Standard Library gives the operations of IEEE arithmetic as
    programs on mantissas and exponents.  What the altitude controller
    needs of them is proved here from those programs: a result is never
    further from the exact value than one unit in the last place, it is
    written canonically, and it overflows only when the exact value is
    large. *)

Lemma digits2_size m : digits2_pos m = Pos.size m.
Proof. induction m; cbn; congruence. Qed.

Lemma digits2_bounds m :
  2 ^ (Zpos (digits2_pos m) - 1) <= Zpos m < 2 ^ Zpos (digits2_pos m).
Proof.
  rewrite digits2_size. split.
  - assert (H : Zpos (2 ^ Pos.size m) <= Zpos m~0) by exact (Pos.size_le m).
    rewrite Pos2Z.inj_pow in H. rewrite (Pos2Z.inj_xO m) in H.
    assert (E : 2 ^ Zpos (Pos.size m) = 2 * 2 ^ (Zpos (Pos.size m) - 1)).
    { rewrite <- Z.pow_succ_r by lia. f_equal. lia. }
    rewrite E in H. lia.
  - assert (H : Zpos m < Zpos (2 ^ Pos.size m)) by exact (Pos.size_gt m).
    rewrite Pos2Z.inj_pow in H. exact H.
Qed.

Lemma Zdigits2_unique m k :
  0 < m -> 2 ^ (k - 1) <= m < 2 ^ k -> Zdigits2 m = k.
Proof.
  intros Hm [H1 H2]. destruct m as [| p | p]; try lia. cbn [Zdigits2].
  pose proof (digits2_bounds p) as [B1 B2].
  set (d := Zpos (digits2_pos p)) in *.
  assert (Hd : 0 < d) by (subst d; lia).
  assert (Hk : 0 < k).
  { destruct (Z.lt_ge_cases 0 k) as [H | H]; [exact H|].
    exfalso. destruct (Z.eq_dec k 0) as [-> | Hne].
    - cbn in H2. lia.
    - rewrite Z.pow_neg_r in H2 by lia. lia. }
  destruct (Z.lt_trichotomy d k) as [Hlt | [Heq | Hgt]]; [| exact Heq |]; exfalso.
  - assert (2 ^ d <= 2 ^ (k - 1)) by (apply Z.pow_le_mono_r; lia). lia.
  - assert (2 ^ k <= 2 ^ (d - 1)) by (apply Z.pow_le_mono_r; lia). lia.
Qed.

Lemma shr_1_m mrs : 0 <= shr_m mrs -> shr_m (shr_1 mrs) = shr_m mrs / 2.
Proof.
  destruct mrs as [m r s]. cbn [shr_m]. intros H.
  destruct m as [| [p | p |] | p]; cbn [shr_1 shr_m]; try lia.
  all: first [ reflexivity
             | rewrite Pos2Z.inj_xI; apply (Z.div_unique _ 2 _ 1); lia
             | rewrite Pos2Z.inj_xO; apply (Z.div_unique _ 2 _ 0); lia ].
Qed.

Lemma iter_shr_m (p : positive) : forall mrs : shr_record, 0 <= shr_m mrs ->
  shr_m (SpecFloat.iter_pos shr_1 p mrs) = shr_m mrs / 2 ^ Zpos p.
Proof.
  induction p as [p IH | p IH |]; intros mrs H; cbn [SpecFloat.iter_pos].
  - assert (H1 : 0 <= shr_m (shr_1 mrs)).
    { rewrite shr_1_m by exact H. apply Z.div_pos; lia. }
    assert (H2 : 0 <= shr_m (SpecFloat.iter_pos shr_1 p (shr_1 mrs))).
    { rewrite IH by exact H1. apply Z.div_pos; lia. }
    rewrite IH by exact H2. rewrite IH by exact H1. rewrite shr_1_m by exact H.
    rewrite !Z.div_div by lia. f_equal.
    rewrite Pos2Z.inj_xI. rewrite Z.pow_add_r, Z.pow_mul_r by lia.
    change (2 ^ 2) with 4. change (2 ^ 1) with 2.
    replace (4 ^ Zpos p) with (2 ^ Zpos p * 2 ^ Zpos p).
    + ring.
    + rewrite <- Z.pow_add_r by lia. replace (Zpos p + Zpos p) with (2 * Zpos p) by lia.
      rewrite Z.pow_mul_r by lia. reflexivity.
  - assert (H2 : 0 <= shr_m (SpecFloat.iter_pos shr_1 p mrs)).
    { rewrite IH by exact H. apply Z.div_pos; lia. }
    rewrite IH by exact H2. rewrite IH by exact H.
    rewrite Z.div_div by lia. f_equal.
    rewrite Pos2Z.inj_xO.
    rewrite <- Z.pow_add_r by lia. f_equal. lia.
  - rewrite shr_1_m by exact H. reflexivity.
Qed.

Lemma round_nearest_even_bounds m l :
  m <= round_nearest_even m l <= m + 1.
Proof.
  destruct l as [| []]; cbn [round_nearest_even]; try lia.
  destruct (Z.even m); lia.
Qed.

Lemma shr_m_of_loc m l : shr_m (shr_record_of_loc m l) = m.
Proof. destruct l as [| []]; reflexivity. Qed.

Lemma loc_of_shr_of_loc m l : loc_of_shr_record (shr_record_of_loc m l) = l.
Proof. destruct l as [| []]; reflexivity. Qed.

Lemma shr_nonpos mrs e n : n <= 0 -> shr mrs e n = (mrs, e).
Proof. destruct n; intros H; try reflexivity. lia. Qed.

Lemma shr_pos mrs e n :
  0 <= shr_m mrs -> 0 < n ->
  shr_m (fst (shr mrs e n)) = shr_m mrs / 2 ^ n /\ snd (shr mrs e n) = e + n.
Proof.
  intros Hm Hn. destruct n as [| p | p]; try lia.
  cbn [shr fst snd]. split; [apply iter_shr_m; exact Hm | reflexivity].
Qed.

Section Rounding.

Variables prec emax : Z.
Hypothesis Hprec : 0 < prec.

Let emin := SpecFloat.emin prec emax.
Let fexp := SpecFloat.fexp prec emax.

Lemma fexp_ge_emin e : emin <= fexp e.
Proof. unfold fexp, SpecFloat.fexp. fold emin. lia. Qed.

(** The mantissa stays non-negative all the way through: rounding never
    yields a NaN. *)
Lemma binary_round_aux_not_nan s mx ex lx :
  0 <= mx -> binary_round_aux prec emax s mx ex lx <> S754_nan.
Proof.
  intros Hm. unfold binary_round_aux, shr_fexp.
  set (n1 := SpecFloat.fexp prec emax (Zdigits2 mx + ex) - ex).
  assert (H1 : 0 <= shr_m (fst (shr (shr_record_of_loc mx lx) ex n1))).
  { destruct (Z_lt_le_dec 0 n1) as [Hn | Hn].
    - destruct (shr_pos (shr_record_of_loc mx lx) ex n1) as [E _];
        [rewrite shr_m_of_loc; exact Hm | exact Hn |].
      rewrite E, shr_m_of_loc. apply Z.div_pos; lia.
    - rewrite shr_nonpos by exact Hn. cbn [fst]. rewrite shr_m_of_loc. exact Hm. }
  destruct (shr (shr_record_of_loc mx lx) ex n1) as [mrs' e']. cbn [fst] in H1.
  set (m2 := round_nearest_even (shr_m mrs') (loc_of_shr_record mrs')).
  assert (H2 : 0 <= m2).
  { pose proof (round_nearest_even_bounds (shr_m mrs') (loc_of_shr_record mrs')).
    subst m2. lia. }
  set (n2 := SpecFloat.fexp prec emax (Zdigits2 m2 + e') - e').
  assert (H3 : 0 <= shr_m (fst (shr (shr_record_of_loc m2 loc_Exact) e' n2))).
  { destruct (Z_lt_le_dec 0 n2) as [Hn | Hn].
    - destruct (shr_pos (shr_record_of_loc m2 loc_Exact) e' n2) as [E _];
        [rewrite shr_m_of_loc; exact H2 | exact Hn |].
      rewrite E, shr_m_of_loc. apply Z.div_pos; lia.
    - rewrite shr_nonpos by exact Hn. cbn [fst]. exact H2. }
  destruct (shr (shr_record_of_loc m2 loc_Exact) e' n2) as [mrs'' e''].
  cbn [fst] in H3.
  destruct (shr_m mrs'') as [| p | p]; try discriminate; try lia.
  destruct (e'' <=? emax - prec); discriminate.
Qed.

(** What [binary_round_aux] returns for a positive mantissa that needs no
    shift to the left: with [e1] the exponent the format gives to the
    number and [m1] the mantissa cut down to it, the result is the float
    of some [m2] in [m1 .. m1+1] at exponent [e1], written canonically. *)
Lemma binary_round_aux_spec s mx ex lx :
  0 < mx ->
  ex <= fexp (Zdigits2 mx + ex) ->
  let e1 := fexp (Zdigits2 mx + ex) in
  let m1 := mx / 2 ^ (e1 - ex) in
  exists m2, m1 <= m2 <= m1 + 1
    /\ (lx = loc_Exact -> e1 = ex -> m2 = mx)
    /\ ((m2 = 0 /\ binary_round_aux prec emax s mx ex lx = S754_zero s)
        \/ exists m e,
             Zpos m * 2 ^ (e - e1) = m2 /\ e1 <= e
             /\ canonical_mantissa prec emax m e = true
             /\ binary_round_aux prec emax s mx ex lx =
                if e <=? emax - prec then S754_finite s m e
                else S754_infinity s).
Proof.
  intros Hm Hex e1 m1.
  set (d := Zdigits2 mx) in *.
  assert (Hd : 2 ^ (d - 1) <= mx < 2 ^ d /\ 0 < d).
  { destruct mx as [| p | p]; try lia. subst d. cbn [Zdigits2].
    split; [apply digits2_bounds | lia]. }
  destruct Hd as (Hd & Hd0).
  assert (He1 : emin <= e1) by apply fexp_ge_emin.
  assert (He1' : d + ex - prec <= e1)
    by (subst e1; unfold fexp, SpecFloat.fexp; lia).
  assert (He1c : e1 = emin \/ (emin < e1 /\ e1 = d + ex - prec))
    by (subst e1; unfold fexp, SpecFloat.fexp; fold emin; lia).
  set (n := e1 - ex) in *.
  assert (Hn : 0 <= n) by (subst n; lia).
  (* the cut mantissa *)
  assert (Hm1 : 0 <= m1 < 2 ^ prec).
  { subst m1. split; [apply Z.div_pos; lia|].
    apply Z.div_lt_upper_bound; [lia|].
    rewrite <- Z.pow_add_r by lia.
    apply Z.lt_le_trans with (2 ^ d); [lia|].
    apply Z.pow_le_mono_r; lia. }
  assert (Hm1n : emin < e1 -> 2 ^ (prec - 1) <= m1).
  { intros H. subst m1. apply Z.div_le_lower_bound; [lia|].
    rewrite <- Z.pow_add_r by lia.
    replace (n + (prec - 1)) with (d - 1) by lia. lia. }
  (* first shift *)
  unfold binary_round_aux, shr_fexp. fold d. fold fexp. fold e1. fold n.
  assert (S1 : shr_m (fst (shr (shr_record_of_loc mx lx) ex n)) = m1
               /\ snd (shr (shr_record_of_loc mx lx) ex n) = e1
               /\ (n = 0 -> loc_of_shr_record
                             (fst (shr (shr_record_of_loc mx lx) ex n)) = lx)).
  { destruct (Z.eq_dec n 0) as [E | E].
    - rewrite shr_nonpos by lia. cbn [fst snd].
      rewrite shr_m_of_loc, loc_of_shr_of_loc. subst m1. rewrite E.
      change (2 ^ 0) with 1. rewrite Z.div_1_r. repeat split. lia.
    - destruct (shr_pos (shr_record_of_loc mx lx) ex n) as [E1 E2];
        [rewrite shr_m_of_loc; lia | lia |].
      rewrite E1, E2, shr_m_of_loc. repeat split; try lia. }
  destruct (shr (shr_record_of_loc mx lx) ex n) as [mrs' e'].
  cbn [fst snd] in S1. destruct S1 as (S1 & -> & S1l).
  set (m2 := round_nearest_even (shr_m mrs') (loc_of_shr_record mrs')).
  assert (Hm2 : m1 <= m2 <= m1 + 1).
  { subst m2. rewrite <- S1. apply round_nearest_even_bounds. }
  exists m2. split; [exact Hm2|]. split.
  { intros -> E. subst m2. rewrite S1l by lia. cbn [round_nearest_even].
    rewrite S1. subst m1. replace n with 0 by lia.
    change (2 ^ 0) with 1. apply Z.div_1_r. }
  (* second shift *)
  set (n2 := fexp (Zdigits2 m2 + e1) - e1).
  destruct (Z.eq_dec m2 0) as [Z2 | NZ2].
  - left. split; [exact Z2|].
    assert (Hn2 : n2 <= 0).
    { subst n2. rewrite Z2. cbn [Zdigits2]. unfold fexp, SpecFloat.fexp.
      fold emin. lia. }
    rewrite shr_nonpos by exact Hn2. cbn [shr_m shr_record_of_loc].
    rewrite Z2. reflexivity.
  - right.
    destruct (Z_lt_le_dec m2 (2 ^ prec)) as [Hlt | Hge].
    + (* no carry *)
      destruct m2 as [| p2 | p2] eqn:Em2; try lia.
      pose proof (digits2_bounds p2) as Hd2.
      set (d2 := Zpos (digits2_pos p2)) in *.
      assert (Hd2p : d2 <= prec).
      { destruct (Z_lt_le_dec prec d2) as [H | H]; [|exact H].
        exfalso. assert (2 ^ prec <= 2 ^ (d2 - 1))
          by (apply Z.pow_le_mono_r; lia). lia. }
      assert (Hn2 : n2 <= 0).
      { subst n2. cbn [Zdigits2]. fold d2. unfold fexp, SpecFloat.fexp.
        fold emin. lia. }
      rewrite shr_nonpos by exact Hn2. cbn [shr_m shr_record_of_loc].
      exists p2, e1. rewrite Z.sub_diag. change (2 ^ 0) with 1.
      split; [lia|]. split; [lia|]. split; [|reflexivity].
      unfold canonical_mantissa. fold d2. apply Z.eqb_eq.
      destruct He1c as [E | [E1 E2]].
      * unfold SpecFloat.fexp. fold emin. lia.
      * assert (d2 = prec).
        { specialize (Hm1n E1).
          destruct (Z_lt_le_dec d2 prec) as [H | H]; [|lia].
          exfalso. assert (2 ^ d2 <= 2 ^ (prec - 1))
            by (apply Z.pow_le_mono_r; lia). lia. }
        unfold SpecFloat.fexp. fold emin. lia.
    + (* the mantissa reached 2^prec: one more shift *)
      assert (E2 : m2 = 2 ^ prec) by lia.
      assert (Hd2 : Zdigits2 m2 = prec + 1).
      { apply Zdigits2_unique; [lia|]. rewrite E2.
        replace (prec + 1 - 1) with prec by lia.
        split; [lia|]. apply Z.pow_lt_mono_r; lia. }
      assert (Hn2 : n2 = 1).
      { subst n2. rewrite Hd2. unfold fexp, SpecFloat.fexp. fold emin. lia. }
      destruct (shr_pos (shr_record_of_loc m2 loc_Exact) e1 n2) as [T1 T2];
        [cbn; lia | lia |].
      destruct (shr (shr_record_of_loc m2 loc_Exact) e1 n2) as [mrs'' e''].
      cbn [fst snd] in T1, T2. subst e''. rewrite T1. cbn [shr_m shr_record_of_loc].
      rewrite Hn2, E2. change (2 ^ 1) with 2.
      assert (E3 : 2 ^ prec / 2 = 2 ^ (prec - 1)).
      { replace prec with ((prec - 1) + 1) at 1 by lia.
        rewrite Z.pow_add_r by lia. change (2 ^ 1) with 2.
        apply Z.div_mul. lia. }
      rewrite E3.
      destruct (2 ^ (prec - 1)) as [| q | q] eqn:Eq;
        try (assert (0 < 2 ^ (prec - 1)) by (apply Z.pow_pos_nonneg; lia); lia).
      exists q, (e1 + 1).
      replace (e1 + 1 - e1) with 1 by lia. change (2 ^ 1) with 2.
      split.
      { rewrite <- Eq. replace prec with ((prec - 1) + 1) at 2 by lia.
        rewrite Z.pow_add_r by lia. reflexivity. }
      split; [lia|]. split; [|reflexivity].
      unfold canonical_mantissa. apply Z.eqb_eq.
      assert (Hdq : Zdigits2 (Zpos q) = prec).
      { apply Zdigits2_unique; [lia|]. rewrite <- Eq.
        split; [lia|]. apply Z.pow_lt_mono_r; lia. }
      cbn [Zdigits2] in Hdq. rewrite Hdq.
      unfold SpecFloat.fexp. fold emin. lia.
Qed.

End Rounding.

(** ** Values as real numbers *)

Local Open Scope R_scope.

Definition pow2 (e : Z) : R := powerRZ 2 e.

Lemma pow2_pos e : 0 < pow2 e.
Proof. apply powerRZ_lt. lra. Qed.

Lemma pow2_add a b : pow2 (a + b) = pow2 a * pow2 b.
Proof. apply powerRZ_add. lra. Qed.

Lemma pow2_IZR n : (0 <= n)%Z -> pow2 n = IZR (2 ^ n).
Proof.
  intros H. unfold pow2.
  rewrite <- (Z2Nat.id n H) at 1. rewrite <- pow_powerRZ.
  rewrite pow_IZR. rewrite Z2Nat.id by exact H. reflexivity.
Qed.

Lemma pow2_le a b : (a <= b)%Z -> pow2 a <= pow2 b.
Proof.
  intros H. replace b with (a + (b - a))%Z by lia.
  rewrite pow2_add, (pow2_IZR (b - a)) by lia.
  assert (H1 : (0 < 2 ^ (b - a))%Z) by (apply Z.pow_pos_nonneg; lia).
  assert (H2 : (1 <= 2 ^ (b - a))%Z) by lia.
  apply IZR_le in H2. pose proof (pow2_pos a). nra.
Qed.

Lemma pow2_lt a b : (a < b)%Z -> pow2 a < pow2 b.
Proof.
  intros H. replace b with (a + (b - a))%Z by lia.
  rewrite pow2_add.
  assert (H1 : 2 <= pow2 (b - a)).
  { assert (E : pow2 1 = 2) by (rewrite pow2_IZR by lia; reflexivity).
    rewrite <- E. apply pow2_le. lia. }
  pose proof (pow2_pos a). nra.
Qed.

Lemma pow2_le_inv a b : pow2 a <= pow2 b -> (a <= b)%Z.
Proof.
  intros H. destruct (Z_lt_le_dec b a) as [Hlt | Hle]; [|exact Hle].
  apply pow2_lt in Hlt. lra.
Qed.

Lemma Rabs_le_between a b : Rabs a <= b -> - b <= a <= b.
Proof. unfold Rabs. destruct (Rcase_abs a); lra. Qed.

Definition sgn (s : bool) : R := if s then -1 else 1.

Definition F2R (s : bool) (m : positive) (e : Z) : R :=
  sgn s * IZR (Zpos m) * pow2 e.

(** The real number a float stands for; 0 for what stands for none. *)
Definition V (x : spec_float) : R :=
  match x with
  | S754_finite s m e => F2R s m e
  | _ => 0
  end.

Definition is_fin (x : spec_float) : bool :=
  match x with S754_zero _ | S754_finite _ _ _ => true | _ => false end.

Definition not_nan (x : spec_float) : bool :=
  match x with S754_nan => false | _ => true end.

Section RoundingR.

Variables prec emax : Z.
Hypothesis Hprec : (0 < prec)%Z.

Let emin := SpecFloat.emin prec emax.
Let fexp := SpecFloat.fexp prec emax.

(** The rounding error allowed on a number of magnitude [x]. *)
Definition round_err (x : R) : R := x * pow2 (1 - prec) + pow2 emin.

(** A float of the format, or a signed zero. *)
Definition fin (x : spec_float) : Prop :=
  is_fin x = true /\ valid_binary prec emax x = true.

Lemma round_aux_R s mx ex :
  (0 < mx)%Z ->
  (ex <= fexp (Zdigits2 mx + ex))%Z ->
  let x := IZR mx * pow2 ex in
  let r := binary_round_aux prec emax s mx ex loc_Exact in
  not_nan r = true
  /\ valid_binary prec emax r = true
  /\ (x + round_err x < pow2 (emax - prec + 1) -> is_fin r = true)
  /\ (is_fin r = true -> Rabs (V r - sgn s * x) <= round_err x).
Proof.
  intros Hm Hex x r.
  destruct (binary_round_aux_spec prec emax Hprec s mx ex loc_Exact Hm Hex)
    as (m2 & Hm2 & Hexact & Hres).
  fold fexp in Hm2, Hexact, Hres.
  set (d := Zdigits2 mx) in *.
  set (e1 := fexp (d + ex)) in *.
  set (n := (e1 - ex)%Z) in *.
  set (m1 := (mx / 2 ^ n)%Z) in *.
  assert (Hn : (0 <= n)%Z) by (subst n; lia).
  assert (Hd : (2 ^ (d - 1) <= mx < 2 ^ d)%Z /\ (0 < d)%Z).
  { destruct mx as [| p | p]; try lia. subst d. cbn [Zdigits2].
    split; [apply digits2_bounds | lia]. }
  destruct Hd as (Hd & Hd0).
  assert (Hx : 0 < x).
  { subst x. apply Rmult_lt_0_compat; [apply IZR_lt; lia | apply pow2_pos]. }
  (* x lies between m1 and m1 + 1 at exponent e1 *)
  assert (Hfloor : IZR m1 * pow2 e1 <= x < (IZR m1 + 1) * pow2 e1).
  { assert (E : pow2 e1 = IZR (2 ^ n) * pow2 ex).
    { rewrite <- pow2_IZR by exact Hn. rewrite <- pow2_add. f_equal. subst n. lia. }
    pose proof (Z.div_mod mx (2 ^ n) ltac:(lia)) as Hdm.
    pose proof (Z.mod_pos_bound mx (2 ^ n) ltac:(lia)) as Hmod.
    fold m1 in Hdm.
    assert (H1 : (2 ^ n * m1 <= mx)%Z) by lia.
    assert (H2 : (mx < 2 ^ n * (m1 + 1))%Z) by lia.
    apply IZR_le in H1. apply IZR_lt in H2.
    rewrite mult_IZR in H1. rewrite mult_IZR, plus_IZR in H2.
    pose proof (pow2_pos ex). subst x. rewrite E. split; nra. }
  (* the error is below one unit at exponent e1, unless nothing was cut *)
  assert (Herr : e1 = ex \/ pow2 e1 <= round_err x).
  { destruct (Z.eq_dec e1 ex) as [E | NE]; [left; exact E | right].
    unfold round_err.
    assert (He1c : e1 = emin \/ e1 = (d + ex - prec)%Z)
      by (subst e1; unfold fexp, SpecFloat.fexp; fold emin; lia).
    pose proof (pow2_pos emin). pose proof (pow2_pos (1 - prec)).
    destruct He1c as [E | E].
    - rewrite E. nra.
    - assert (pow2 e1 <= x * pow2 (1 - prec)); [|lra].
      rewrite E. replace (d + ex - prec)%Z with ((d - 1) + (ex + (1 - prec)))%Z by lia.
      rewrite !pow2_add. rewrite pow2_IZR by lia.
      subst x. destruct Hd as [Hd _]. apply IZR_le in Hd.
      rewrite (Rmult_assoc (IZR mx)).
      apply Rmult_le_compat_r; [|exact Hd].
      apply Rlt_le, Rmult_lt_0_compat; apply pow2_pos. }
  assert (Herr0 : 0 < round_err x).
  { unfold round_err. pose proof (pow2_pos emin). pose proof (pow2_pos (1 - prec)). nra. }
  destruct Hres as [(Z2 & Hr) | (m & e & Hv & He & Hc & Hr)].
  - (* rounded to zero *)
    fold r in Hr. rewrite Hr. cbn [not_nan valid_binary is_fin V].
    repeat split; try reflexivity.
    intros _.
    assert (P1 : (0 <= m1)%Z) by (subst m1; apply Z.div_pos; lia).
    assert (E0 : m1 = 0%Z) by lia. rewrite E0 in Hfloor.
    destruct Herr as [E | Hle].
    + exfalso. specialize (Hexact eq_refl E). lia.
    + destruct s; cbn [sgn]; apply Rabs_le; lra.
  - fold r in Hr.
    assert (Hval : IZR (Zpos m) * pow2 e = IZR m2 * pow2 e1).
    { rewrite <- Hv. rewrite mult_IZR. rewrite <- pow2_IZR by lia.
      rewrite Rmult_assoc. rewrite <- pow2_add. do 2 f_equal. lia. }
    assert (Hb : Rabs (IZR m2 * pow2 e1 - x) <= round_err x).
    { destruct Herr as [E | Hle].
      - specialize (Hexact eq_refl E). rewrite Hexact, E. subst x.
        rewrite Rminus_diag. rewrite Rabs_R0. lra.
      - destruct Hm2 as [L U]. apply IZR_le in L, U. rewrite plus_IZR in U.
        pose proof (pow2_pos e1). apply Rabs_le. split; nra. }
    destruct (e <=? emax - prec)%Z eqn:Ee; rewrite ?Ee in Hr.
    + rewrite Hr. cbn [not_nan valid_binary is_fin V]. unfold SpecFloat.bounded.
      rewrite Hc, Ee. repeat split; try reflexivity.
      intros _. unfold F2R. rewrite Rmult_assoc, Hval.
      destruct s; cbn [sgn].
      * replace (-1 * (IZR m2 * pow2 e1) - -1 * x) with (- (IZR m2 * pow2 e1 - x)) by ring.
        rewrite Rabs_Ropp. exact Hb.
      * replace (1 * (IZR m2 * pow2 e1) - 1 * x) with (IZR m2 * pow2 e1 - x) by ring.
        exact Hb.
    + rewrite Hr. cbn [not_nan valid_binary is_fin V].
      repeat split; try reflexivity; try discriminate.
      intros Hsmall. exfalso.
      apply Z.leb_gt in Ee.
      assert (H1 : pow2 (emax - prec + 1) <= pow2 e) by (apply pow2_le; lia).
      assert (H2 : pow2 e <= IZR (Zpos m) * pow2 e).
      { pose proof (pow2_pos e). assert (1 <= IZR (Zpos m)) by (apply IZR_le; lia). nra. }
      apply Rabs_le_between in Hb. lra.
Qed.

End RoundingR.

Local Close Scope R_scope.

Lemma shl_align_spec mx ex ex' :
  let mz := fst (shl_align mx ex ex') in
  let ez := snd (shl_align mx ex ex') in
  Zpos mz = Zpos mx * 2 ^ (ex - ez)
  /\ ez <= ex
  /\ (ex' <= ex -> ez = ex')
  /\ (ex <= ex' -> ez = ex).
Proof.
  unfold shl_align. destruct (ex' - ex) as [| d | d] eqn:E; cbn [fst snd].
  - rewrite Z.sub_diag. change (2 ^ 0) with 1. lia.
  - rewrite Z.sub_diag. change (2 ^ 0) with 1. lia.
  - assert (Ed : ex - ex' = Zpos d) by lia.
    rewrite Ed. split; [|lia].
    change (Pos.iter xO mx d) with (shift_pos d mx).
    rewrite shift_pos_correct. change (Z.pow_pos 2 d) with (2 ^ Zpos d). lia.
Qed.

Lemma Zdigits2_shift m k :
  0 < m -> 0 <= k -> Zdigits2 (m * 2 ^ k) = Zdigits2 m + k.
Proof.
  intros Hm Hk.
  assert (H : 2 ^ (Zdigits2 m - 1) <= m < 2 ^ Zdigits2 m /\ 0 < Zdigits2 m).
  { destruct m as [| p | p]; try lia. cbn [Zdigits2].
    split; [apply digits2_bounds | lia]. }
  destruct H as ([H1 H2] & H3).
  assert (P : 0 < 2 ^ k) by (apply Z.pow_pos_nonneg; lia).
  apply Zdigits2_unique; [nia|].
  replace (Zdigits2 m + k - 1) with ((Zdigits2 m - 1) + k) by lia.
  rewrite !Z.pow_add_r by lia. split; nia.
Qed.

Local Open Scope R_scope.

Section OpsR.

Variables prec emax : Z.
Hypothesis Hprec : (0 < prec)%Z.
Hypothesis Hemax : (3 <= prec + emax)%Z.

Let emin := SpecFloat.emin prec emax.
Let fexp := SpecFloat.fexp prec emax.

(** [r] is what rounding the real number [x] may give: never a NaN,
    always well-formed, finite when [x] is not too large, and then close
    to [x]. *)
Definition rounds_to (x : R) (r : spec_float) : Prop :=
  not_nan r = true
  /\ valid_binary prec emax r = true
  /\ (Rabs x + round_err prec emax (Rabs x) < pow2 (emax - prec + 1) -> is_fin r = true)
  /\ (is_fin r = true -> Rabs (V r - x) <= round_err prec emax (Rabs x)).

Lemma err_nonneg a : 0 <= a -> 0 <= round_err prec emax a.
Proof.
  intros H. unfold round_err.
  pose proof (pow2_pos (SpecFloat.emin prec emax)).
  pose proof (pow2_pos (1 - prec)). nra.
Qed.

Lemma err_mono a b : a <= b -> round_err prec emax a <= round_err prec emax b.
Proof.
  intros H. unfold round_err. pose proof (pow2_pos (1 - prec)). nra.
Qed.

Lemma rounds_exact x r :
  is_fin r = true -> valid_binary prec emax r = true -> V r = x ->
  rounds_to x r.
Proof.
  intros Hf Hv E. unfold rounds_to.
  assert (not_nan r = true) by (destruct r; try discriminate; reflexivity).
  repeat split; auto.
  intros _. rewrite E, Rminus_diag, Rabs_R0. apply err_nonneg, Rabs_pos.
Qed.

Lemma Rabs_sgn s x : 0 <= x -> Rabs (sgn s * x) = x.
Proof.
  intros H. destruct s; cbn [sgn].
  - replace (-1 * x) with (- x) by ring. rewrite Rabs_Ropp. apply Rabs_pos_eq, H.
  - rewrite Rmult_1_l. apply Rabs_pos_eq, H.
Qed.

Lemma binary_round_R s p ez :
  rounds_to (sgn s * (IZR (Zpos p) * pow2 ez)) (binary_round prec emax s p ez).
Proof.
  unfold binary_round.
  pose proof (shl_align_spec p ez (SpecFloat.fexp prec emax (Zpos (digits2_pos p) + ez)))
    as (E1 & E2 & E3 & E4).
  destruct (shl_align p ez (SpecFloat.fexp prec emax (Zpos (digits2_pos p) + ez)))
    as [mz ez'] eqn:Es.
  cbn [fst snd] in E1, E2, E3, E4.
  assert (Hd : Zdigits2 (Zpos mz) = (Zdigits2 (Zpos p) + (ez - ez'))%Z).
  { rewrite E1. apply Zdigits2_shift; lia. }
  assert (Hpre : (ez' <= SpecFloat.fexp prec emax (Zdigits2 (Zpos mz) + ez'))%Z).
  { rewrite Hd. replace (Zdigits2 (Zpos p) + (ez - ez') + ez')%Z
      with (Zpos (digits2_pos p) + ez)%Z by (cbn [Zdigits2]; lia).
    destruct (Z_le_gt_dec (SpecFloat.fexp prec emax (Zpos (digits2_pos p) + ez)) ez)
      as [H | H].
    - rewrite (E3 H). lia.
    - rewrite (E4 ltac:(lia)). lia. }
  pose proof (round_aux_R prec emax Hprec s (Zpos mz) ez' ltac:(lia) Hpre)
    as (R1 & R2 & R3 & R4).
  assert (Ev : IZR (Zpos mz) * pow2 ez' = IZR (Zpos p) * pow2 ez).
  { rewrite E1, mult_IZR. rewrite <- pow2_IZR by lia.
    rewrite Rmult_assoc, <- pow2_add. do 2 f_equal. lia. }
  rewrite Ev in R3, R4.
  assert (Hx : 0 <= IZR (Zpos p) * pow2 ez).
  { apply Rmult_le_pos; [apply IZR_le; lia | apply Rlt_le, pow2_pos]. }
  unfold rounds_to. rewrite Rabs_sgn by exact Hx.
  repeat split; assumption.
Qed.

Lemma binary_normalize_R z e sz :
  rounds_to (IZR z * pow2 e) (binary_normalize prec emax z e sz).
Proof.
  destruct z as [| p | p]; cbn [binary_normalize].
  - apply rounds_exact; try reflexivity. cbn [V]. lra.
  - pose proof (binary_round_R false p e) as H. cbn [sgn] in H.
    rewrite Rmult_1_l in H. exact H.
  - pose proof (binary_round_R true p e) as H. cbn [sgn] in H.
    replace (IZR (Z.neg p) * pow2 e) with (-1 * (IZR (Zpos p) * pow2 e)).
    + exact H.
    + change (Z.neg p) with (- Zpos p)%Z. rewrite opp_IZR. ring.
Qed.

Lemma canonical_facts m e :
  canonical_mantissa prec emax m e = true ->
  (emin <= e)%Z /\ (Zpos (digits2_pos m) <= prec)%Z
  /\ (e = emin \/ Zpos (digits2_pos m) = prec).
Proof.
  unfold canonical_mantissa, SpecFloat.fexp. fold emin.
  intros H. apply Z.eqb_eq in H. lia.
Qed.

Lemma aligned_value s m e ez :
  (ez <= e)%Z ->
  IZR (cond_Zopp s (Zpos (fst (shl_align m e ez)))) * pow2 ez = F2R s m e.
Proof.
  intros H. pose proof (shl_align_spec m e ez) as (E1 & _ & E3 & _).
  cbn zeta in E1, E3. rewrite E1, (E3 H). unfold F2R.
  assert (E : IZR (Zpos m * 2 ^ (e - ez)) * pow2 ez = IZR (Zpos m) * pow2 e).
  { rewrite mult_IZR, <- pow2_IZR by lia.
    rewrite Rmult_assoc, <- pow2_add. do 2 f_equal. lia. }
  destruct s; cbn [cond_Zopp sgn].
  - rewrite opp_IZR. rewrite Ropp_mult_distr_l_reverse, E. ring.
  - rewrite E. ring.
Qed.

Lemma SFadd_R x y :
  fin prec emax x -> fin prec emax y ->
  rounds_to (V x + V y) (SFadd prec emax x y).
Proof.
  intros (Fx & Vx) (Fy & Vy).
  destruct x as [sx | sx | | sx mx ex]; try discriminate;
    destruct y as [sy | sy | | sy my ey]; try discriminate.
  - cbn [SFadd V]. rewrite Rplus_0_l.
    destruct sx, sy; apply rounds_exact; reflexivity.
  - cbn [SFadd V]. rewrite Rplus_0_l. apply rounds_exact; auto.
  - cbn [SFadd V]. rewrite Rplus_0_r. apply rounds_exact; auto.
  - cbn [SFadd V].
    replace (F2R sx mx ex + F2R sy my ey) with
      (IZR (cond_Zopp sx (Zpos (fst (shl_align mx ex (Z.min ex ey))))
            + cond_Zopp sy (Zpos (fst (shl_align my ey (Z.min ex ey)))))
       * pow2 (Z.min ex ey)).
    + apply binary_normalize_R.
    + rewrite plus_IZR, Rmult_plus_distr_r.
      rewrite !aligned_value by lia. reflexivity.
Qed.

Lemma SFsub_R x y :
  fin prec emax x -> fin prec emax y ->
  rounds_to (V x - V y) (SFsub prec emax x y).
Proof.
  intros (Fx & Vx) (Fy & Vy).
  destruct x as [sx | sx | | sx mx ex]; try discriminate;
    destruct y as [sy | sy | | sy my ey]; try discriminate.
  - cbn [SFsub V]. rewrite Rminus_diag.
    destruct sx, sy; apply rounds_exact; reflexivity.
  - cbn [SFsub V]. apply rounds_exact; auto.
    cbn [V]. unfold F2R. destruct sy; cbn [negb sgn]; ring.
  - cbn [SFsub V]. rewrite Rminus_0_r. apply rounds_exact; auto.
  - cbn [SFsub V].
    replace (F2R sx mx ex - F2R sy my ey) with
      (IZR (cond_Zopp sx (Zpos (fst (shl_align mx ex (Z.min ex ey))))
            - cond_Zopp sy (Zpos (fst (shl_align my ey (Z.min ex ey)))))
       * pow2 (Z.min ex ey)).
    + apply binary_normalize_R.
    + rewrite minus_IZR, Rmult_minus_distr_r.
      rewrite !aligned_value by lia. reflexivity.
Qed.

Lemma sgn_xorb a b : sgn (xorb a b) = sgn a * sgn b.
Proof. destruct a, b; cbn; ring. Qed.

Lemma SFmul_R x y :
  fin prec emax x -> fin prec emax y ->
  rounds_to (V x * V y) (SFmul prec emax x y).
Proof.
  intros (Fx & Vx) (Fy & Vy).
  destruct x as [sx | sx | | sx mx ex]; try discriminate;
    destruct y as [sy | sy | | sy my ey]; try discriminate.
  - cbn [SFmul V]. rewrite Rmult_0_l. apply rounds_exact; reflexivity.
  - cbn [SFmul V]. rewrite Rmult_0_l. apply rounds_exact; reflexivity.
  - cbn [SFmul V]. rewrite Rmult_0_r. apply rounds_exact; reflexivity.
  - cbn [SFmul V]. cbn [valid_binary] in Vx, Vy. unfold SpecFloat.bounded in Vx, Vy.
    apply andb_prop in Vx, Vy. destruct Vx as (Cx & _), Vy as (Cy & _).
    apply canonical_facts in Cx, Cy.
    destruct Cx as (Cx1 & Cx2 & Cx3), Cy as (Cy1 & Cy2 & Cy3).
    pose proof (digits2_bounds mx) as [Bx1 Bx2].
    pose proof (digits2_bounds my) as [By1 By2].
    pose proof (digits2_bounds (mx * my)) as [Bp1 Bp2].
    set (dx := Zpos (digits2_pos mx)) in *.
    set (dy := Zpos (digits2_pos my)) in *.
    set (D := Zpos (digits2_pos (mx * my))) in *.
    assert (Hdx : (0 < dx)%Z) by (subst dx; lia).
    assert (Hdy : (0 < dy)%Z) by (subst dy; lia).
    assert (HD : (dx + dy - 1 <= D)%Z).
    { destruct (Z_lt_le_dec D (dx + dy - 1)) as [H | H]; [|exact H]. exfalso.
      assert (H1 : (2 ^ D <= 2 ^ (dx + dy - 2))%Z) by (apply Z.pow_le_mono_r; lia).
      replace (dx + dy - 2)%Z with ((dx - 1) + (dy - 1))%Z in H1 by lia.
      rewrite Z.pow_add_r in H1 by lia.
      rewrite Pos2Z.inj_mul in Bp2.
      assert (0 < 2 ^ (dx - 1))%Z by (apply Z.pow_pos_nonneg; lia).
      assert (0 < 2 ^ (dy - 1))%Z by (apply Z.pow_pos_nonneg; lia).
      nia. }
    assert (Hpre : (ex + ey <= SpecFloat.fexp prec emax
                                 (Zdigits2 (Zpos (mx * my)) + (ex + ey)))%Z).
    { cbn [Zdigits2]. fold D. unfold SpecFloat.fexp. fold emin.
      unfold emin, SpecFloat.emin in *. lia. }
    pose proof (round_aux_R prec emax Hprec (xorb sx sy) (Zpos (mx * my)) (ex + ey)
                  ltac:(lia) Hpre) as (R1 & R2 & R3 & R4).
    assert (Hx : 0 <= IZR (Zpos (mx * my)) * pow2 (ex + ey)).
    { apply Rmult_le_pos; [apply IZR_le; lia | apply Rlt_le, pow2_pos]. }
    assert (Ev : F2R sx mx ex * F2R sy my ey
                 = sgn (xorb sx sy) * (IZR (Zpos (mx * my)) * pow2 (ex + ey))).
    { unfold F2R. rewrite sgn_xorb, Pos2Z.inj_mul, mult_IZR, pow2_add. ring. }
    unfold rounds_to. rewrite Ev, Rabs_sgn by exact Hx.
    repeat split; assumption.
Qed.

End OpsR.

Local Close Scope R_scope.

(** ** The Wire-Command Handler *)

Section Handler.

Variable W : world.

(** A packet that the handler accepts: right port, right channel, at
    least the command byte. *)
Definition addressed (pk : CRTPPacket) : Prop :=
  port pk = AUTONAV_CRTP_PORT /\ channel pk = AUTONAV_CRTP_CH /\ 1 <= size pk.

(** The reply that follows the dispatch of an accepted packet. *)
Definition status_reply (m : machine) : CRTPPacket :=
  {| port := AUTONAV_CRTP_PORT; channel := AUTONAV_CRTP_CH; size := 3;
     data := status_bytes (s_state (eng m))
               (snd (tof_result 0 (down_tof W (n_down m)))) |}.

Lemma handle_addressed pk m :
  addressed pk ->
  autonav_handle_packet W (Some pk) m =
  (dispatch W pk (data_at pk 0) ;;
   st <- autonavGetState ;;
   r <- sensorsGetDownTofMm W 0 ;;
   crtpSendPacketBlock
     {| port := AUTONAV_CRTP_PORT; channel := AUTONAV_CRTP_CH;
        size := 3; data := status_bytes st (snd r) |}) m.
Proof.
  intros (Hp & Hc & Hs). unfold autonav_handle_packet.
  rewrite Hp, Hc. rewrite !Z.eqb_refl. cbn [negb orb].
  destruct (size pk <? 1) eqn:E; [apply Z.ltb_lt in E; lia | reflexivity].
Qed.


End Handler.

(** C2.  An OVERRIDE_OFF packet (command code 11) does nothing to the
    engine but refresh the safety timer: the statics after the handler are
    the statics before with [s_lastCmdUs] set to the clock reading, so the
    navigation state, the shape selector and the target altitude are what
    they were, and an engine in OVERRIDE stays in OVERRIDE; the clock is
    read once, where [autonavExitOverride] would have set RUNNING. *)
Theorem override_off_only_kicks (W : world) (pk : CRTPPacket) (m : machine) :
  addressed pk ->
  data_at pk 0 = AUTONAV_CMD_OVERRIDE_OFF ->
  let m' := exec (autonav_handle_packet W (Some pk)) m in
  eng m' = set_s_lastCmdUs (clock_at W (n_clock m)) (eng m)
  /\ s_state (eng m') = s_state (eng m)
  /\ s_shapeId (eng m') = s_shapeId (eng m)
  /\ s_targetAltMm (eng m') = s_targetAltMm (eng m)
  /\ s_lastCmdUs (eng m') = clock_at W (n_clock m)
  /\ n_clock m' = S (n_clock m)
  /\ (s_state (eng m) = AUTONAV_OVERRIDE -> s_state (eng m') = AUTONAV_OVERRIDE).
Proof.
  intros Ha Hc m'. subst m'. unfold exec.
  rewrite (handle_addressed W pk m Ha), Hc.
  cbn. repeat split. intros H. exact H.
Qed.

Definition override_off_packet : CRTPPacket :=
  {| port := 13; channel := 0; size := 1; data := [11] |}.

Definition constant_world (now : Z) (down front : tof_sample) : world :=
  {| esp_timer_get_time := fun _ => now;
     down_tof := fun _ => down;
     front_tof := fun _ => front;
     cosf := fun x => x;
     sinf := fun x => x |}.

Definition with_state (st : autonav_state_t) (m : machine) : machine :=
  exec (modify (set_s_state st)) m.

Lemma override_off_only_kicks_witness :
  let W := constant_world 5000000 (TofValid 1200) (TofValid 2000) in
  let m := with_state AUTONAV_OVERRIDE boot in
  let m' := exec (autonav_handle_packet W (Some override_off_packet)) m in
  s_state (eng m') = AUTONAV_OVERRIDE /\ s_lastCmdUs (eng m') = 5000000.
Proof.
  intros W m m'.
  assert (Ha : addressed override_off_packet) by (cbv; repeat split; discriminate).
  destruct (override_off_only_kicks W override_off_packet m Ha eq_refl)
    as (_ & _ & _ & _ & Hk & _ & Ho).
  split; [exact (Ho eq_refl) | exact Hk].
Defined.

(** C6.  A SET_ALTITUDE_MM packet (command code 5) with at least two
    payload bytes sets the target altitude to the little-endian value of
    the two bytes, whatever that value is: bytes [b0], [b1] give
    [b0 + 256 * b1], and every [v] from 0 to 65535 is stored as it is when
    its two bytes are sent. *)
Theorem set_altitude_roundtrip (W : world) (m : machine) :
  (forall pk b0 b1 rest,
      addressed pk -> 3 <= size pk ->
      data pk = AUTONAV_CMD_SET_ALT_MM :: b0 :: b1 :: rest ->
      0 <= b0 < 256 -> 0 <= b1 < 256 ->
      s_targetAltMm (eng (exec (autonav_handle_packet W (Some pk)) m))
      = b0 + 256 * b1)
  /\ (forall v, 0 <= v <= 65535 ->
      s_targetAltMm
        (eng (exec (autonav_handle_packet W
                      (Some {| port := 13; channel := 0; size := 3;
                               data := [5; v mod 256; v / 256] |})) m))
      = v).
Proof.
  assert (G : forall pk b0 b1 rest,
      addressed pk -> 3 <= size pk ->
      data pk = AUTONAV_CMD_SET_ALT_MM :: b0 :: b1 :: rest ->
      0 <= b0 < 256 -> 0 <= b1 < 256 ->
      s_targetAltMm (eng (exec (autonav_handle_packet W (Some pk)) m))
      = b0 + 256 * b1).
  { intros pk b0 b1 rest Ha Hs Hd H0 H1. unfold exec.
    rewrite (handle_addressed W pk m Ha).
    unfold dispatch, data_at. rewrite Hd. cbn [nth].
    rewrite (u8_small AUTONAV_CMD_SET_ALT_MM) by (cbv; split; congruence).
    cbn [AUTONAV_CMD_SET_ALT_MM Z.eqb AUTONAV_CMD_STOP
      AUTONAV_CMD_SQUARE AUTONAV_CMD_RECT AUTONAV_CMD_OVAL AUTONAV_CMD_TRI
      Pos.eqb].
    destruct (3 <=? size pk) eqn:E; [|apply Z.leb_gt in E; lia].
    cbn -[Z.mul Z.add]. rewrite !u8_small by assumption.
    rewrite u16le_value by assumption.
    apply u16_small. lia. }
  split; [exact G|].
  intros v Hv.
  rewrite (G _ (v mod 256) (v / 256) []).
  - symmetry. rewrite Z.add_comm. apply Z.div_mod. lia.
  - cbv. repeat split; discriminate.
  - cbn. lia.
  - reflexivity.
  - apply Z.mod_pos_bound. lia.
  - split; [apply Z.div_pos; lia | apply Z.div_lt_upper_bound; lia].
Qed.

Lemma set_altitude_roundtrip_witness :
  s_targetAltMm
    (eng (exec (autonav_handle_packet
                  (constant_world 0 (TofValid 1200) (TofValid 2000))
                  (Some {| port := 13; channel := 0; size := 3;
                           data := [5; 176; 4] |})) boot))
  = 1200.
Proof.
  refine (proj1 (set_altitude_roundtrip _ boot)
            {| port := 13; channel := 0; size := 3; data := [5; 176; 4] |}
            176 4 [] _ _ eq_refl _ _).
  - cbv. repeat split; discriminate.
  - cbn. lia.
  - lia.
  - lia.
Defined.



(** C8.  When the down-facing driver reports an invalid reading,
    [zHoldThrustCmd] returns 27900, the integer part of
    [HOVER_THRUST_BASE * 0.93f], with the validity flag false, and leaves
    every static untouched (filtered altitude, integral and previous error
    among them); it returns a thrust all the same, which the control step
    goes on to use. *)
Theorem invalid_down_sensor_fallback (W : world) (m : machine) (stored : option Z) :
  down_tof W (n_down m) = TofInvalid stored ->
  eval (zHoldThrustCmd W) m = (27900, false)
  /\ eng (exec (zHoldThrustCmd W) m) = eng m
  /\ altFilt (eng (exec (zHoldThrustCmd W) m)) = altFilt (eng m)
  /\ z_i (eng (exec (zHoldThrustCmd W) m)) = z_i (eng m)
  /\ z_prevErr (eng (exec (zHoldThrustCmd W) m)) = z_prevErr (eng m)
  /\ hold_thrust W m = 27900.
Proof.
  intros H.
  assert (R : forall m0, down_tof W (n_down m0) = TofInvalid stored ->
            eval (zHoldThrustCmd W) m0 = (27900, false)
            /\ eng (exec (zHoldThrustCmd W) m0) = eng m0).
  { intros m0 H0. unfold eval, exec, zHoldThrustCmd, bind, sensorsGetDownTofMm.
    rewrite H0. destruct stored; cbn; rewrite fallback_thrust_value; auto. }
  destruct (R m H) as (Hv & He).
  rewrite He. repeat split; try assumption.
  unfold hold_thrust.
  assert (Hn : n_down (exec (safety_check W) m) = n_down m).
  { unfold exec, safety_check, msSince, bind, nowUs, gets, ret, modify. cbn.
    destruct (safety_expired _ _); reflexivity. }
  destruct (R (exec (safety_check W) m)) as (Hv' & _).
  - rewrite Hn. exact H.
  - rewrite Hv'. reflexivity.
Qed.

Lemma invalid_down_sensor_fallback_witness :
  eval (zHoldThrustCmd (constant_world 0 (TofInvalid None) (TofValid 2000))) boot
  = (27900, false).
Proof.
  exact (proj1 (invalid_down_sensor_fallback
                  (constant_world 0 (TofInvalid None) (TofValid 2000))
                  boot None eq_refl)).
Defined.

(** ** The control step *)

Ltac run_update :=
  unfold exec, eval, autonavUpdate, safety_check, zHoldThrustCmd, state_case,
    commandLand, autonavKickSafety, msSince, commanderSetSetpoint,
    sensorsGetDownTofMm, sensorsGetFrontTofMm, nowUs, bind, gets, modify, ret,
    z_hold_step.

Lemma elapsed_at_entry_eq W m :
  ms_between (u64 (esp_timer_get_time W (n_clock m))) (s_lastCmdUs (eng m))
  = elapsed_at_entry W m.
Proof. reflexivity. Qed.

(** The state after step 1 of [autonavUpdate]. *)
Lemma safety_check_state W m :
  s_state (eng (exec (safety_check W) m)) =
  if safety_expired (elapsed_at_entry W m) (s_state (eng m))
  then AUTONAV_LANDING else s_state (eng m).
Proof.
  run_update. cbn. rewrite elapsed_at_entry_eq.
  destruct (safety_expired _ _); reflexivity.
Qed.

Lemma safety_expired_true el st :
  SAFETY_TIMEOUT_MS < el -> st <> AUTONAV_LANDING -> st <> AUTONAV_LANDED ->
  safety_expired el st = true.
Proof.
  intros H1 H2 H3. unfold safety_expired.
  apply Z.ltb_lt in H1. rewrite H1.
  destruct st; try reflexivity; congruence.
Qed.

Lemma safety_expired_false el st :
  el <= SAFETY_TIMEOUT_MS -> safety_expired el st = false.
Proof.
  intros H. unfold safety_expired. apply Z.ltb_ge in H. rewrite H. reflexivity.
Qed.

(** Symbolic execution of a monadic run: reduce, then split on the
    innermost scrutinee that blocks the reduction. *)
Ltac crunch :=
  repeat first
    [ progress cbn
    | match goal with
      | H : s_state (eng ?m) = _ |- _ => rewrite H
      end
    | match goal with
      | |- context [match ?x with _ => _ end] =>
          lazymatch x with
          | context [match _ with _ => _ end] => fail
          | _ => destruct x eqn:?
          end
      end ].

(** Once the timeout has struck, the call ends in LANDED with a zero
    setpoint handed to the commander, whatever the state was. *)
Lemma update_expired W tick m :
  SAFETY_TIMEOUT_MS < elapsed_at_entry W m ->
  let m' := exec (autonavUpdate W tick) m in
  s_state (eng m') = AUTONAV_LANDED
  /\ commanded m' = (setpoint_zero, u32 tick) :: commanded m
  /\ s_lastCmdUs (eng m') = s_lastCmdUs (eng m).
Proof.
  intros H m'. subst m'. run_update. cbn. rewrite elapsed_at_entry_eq.
  unfold safety_expired. apply Z.ltb_lt in H. rewrite H. cbn [andb].
  destruct (s_state (eng m)) eqn:Est; crunch;
    try (rewrite Est in *; discriminate); repeat split; congruence.
Qed.

(** In OVERRIDE with the timer still alive, the call hands nothing to the
    commander and stores the second clock reading as the last kick. *)
Lemma update_override_alive W tick m :
  s_state (eng m) = AUTONAV_OVERRIDE ->
  elapsed_at_entry W m <= SAFETY_TIMEOUT_MS ->
  let m' := exec (autonavUpdate W tick) m in
  s_state (eng m') = AUTONAV_OVERRIDE
  /\ commanded m' = commanded m
  /\ s_lastCmdUs (eng m') = clock_at W (S (n_clock m))
  /\ n_clock m' = S (S (n_clock m)).
Proof.
  intros Est H m'. subst m'. run_update. cbn. rewrite elapsed_at_entry_eq.
  rewrite (safety_expired_false _ _ H).
  crunch; repeat split; congruence.
Qed.

(** LANDED is where the engine stays. *)
Lemma update_landed W tick m :
  s_state (eng m) = AUTONAV_LANDED ->
  s_state (eng (exec (autonavUpdate W tick) m)) = AUTONAV_LANDED.
Proof.
  intros Est. run_update. cbn. unfold safety_expired. rewrite Est.
  rewrite andb_false_r.
  crunch; congruence.
Qed.

(** C10.  The safety check comes before the override short-circuit: a
    control step entered in OVERRIDE more than 30000 ms after the last kick
    has its state forced to LANDING by step 1 and ends in LANDED, a zero
    setpoint having gone to the commander; entered within 30000 ms of the
    last kick it stays in OVERRIDE, sends nothing and refreshes the
    timer.  Override therefore lasts only as long as the control step is
    called at intervals no longer than the safety timeout. *)
Theorem override_expired_lands (W : world) (tick : Z) (m : machine) :
  s_state (eng m) = AUTONAV_OVERRIDE ->
  let m' := exec (autonavUpdate W tick) m in
  (SAFETY_TIMEOUT_MS < elapsed_at_entry W m ->
     s_state (eng (exec (safety_check W) m)) = AUTONAV_LANDING
     /\ s_state (eng m') = AUTONAV_LANDED
     /\ commanded m' = (setpoint_zero, u32 tick) :: commanded m)
  /\ (elapsed_at_entry W m <= SAFETY_TIMEOUT_MS ->
     s_state (eng m') = AUTONAV_OVERRIDE
     /\ commanded m' = commanded m
     /\ s_lastCmdUs (eng m') = clock_at W (S (n_clock m))).
Proof.
  intros Est m'. split; intros H.
  - destruct (update_expired W tick m H) as (H1 & H2 & _).
    split; [|split; assumption].
    rewrite safety_check_state, safety_expired_true;
      [reflexivity | assumption | rewrite Est; discriminate ..].
  - destruct (update_override_alive W tick m Est H) as (H1 & H2 & H3 & _).
    repeat split; assumption.
Qed.

Lemma override_expired_lands_witness :
  let W := constant_world 30001000 (TofValid 1200) (TofValid 2000) in
  let m := with_state AUTONAV_OVERRIDE boot in
  s_state (eng (exec (autonavUpdate W 0) m)) = AUTONAV_LANDED.
Proof.
  intros W m.
  destruct (override_expired_lands W 0 m eq_refl) as (H & _).
  destruct H as (_ & H & _); [vm_compute; reflexivity | exact H].
Defined.

(** C1, as the code has it.  At a control step whose safety check finds
    more than 30000 ms elapsed since the last kick, step 1 forces LANDING
    (unless the engine is already landing or landed) and the state switch
    of the same call completes the landing: when the call returns,
    [autonavGetState] reports LANDED, a zero setpoint has gone to the
    commander, and the following call reports LANDED again.  LANDING is
    not what an observer sees after the call.  A call within the 30000 ms
    leaves the state to the state switch. *)
Theorem safety_timeout_lands_within_call (W : world) (tick tick' : Z) (m : machine) :
  SAFETY_TIMEOUT_MS < elapsed_at_entry W m ->
  let m1 := exec (autonavUpdate W tick) m in
  let m2 := exec (autonavUpdate W tick') m1 in
  (s_state (eng m) <> AUTONAV_LANDING -> s_state (eng m) <> AUTONAV_LANDED ->
   s_state (eng (exec (safety_check W) m)) = AUTONAV_LANDING)
  /\ eval autonavGetState m1 = AUTONAV_LANDED
  /\ commanded m1 = (setpoint_zero, u32 tick) :: commanded m
  /\ eval autonavGetState m2 = AUTONAV_LANDED
  /\ (forall m0, elapsed_at_entry W m0 <= SAFETY_TIMEOUT_MS ->
      s_state (eng (exec (safety_check W) m0)) = s_state (eng m0)).
Proof.
  intros H m1 m2.
  destruct (update_expired W tick m H) as (H1 & H2 & _).
  split; [|split; [|split; [|split]]].
  - intros Ha Hb. rewrite safety_check_state, safety_expired_true; auto.
  - exact H1.
  - exact H2.
  - apply (update_landed W tick' m1 H1).
  - intros m0 H0. rewrite safety_check_state, safety_expired_false; auto.
Qed.

(** A flight for the safety timeout: shape 1 is started at time 0, the
    sensors stay valid and clear, nothing kicks the timer afterwards; the
    first control step runs at 30000 ms, the second at 30010 ms. *)
Definition timeout_world : world :=
  {| esp_timer_get_time := fun k =>
       if (k <? 2)%nat then 0 else if (k <? 4)%nat then 30000000 else 30010000;
     down_tof := fun _ => TofValid 1200;
     front_tof := fun _ => TofValid 2000;
     cosf := fun x => x;
     sinf := fun x => x |}.

Definition timeout_start : machine := exec (autonavStartShape timeout_world 1) boot.

Lemma safety_timeout_lands_within_call_witness :
  let m := exec (autonavUpdate timeout_world 30000) timeout_start in
  eval autonavGetState (exec (autonavUpdate timeout_world 30010) m) = AUTONAV_LANDED.
Proof.
  intros m.
  refine (proj1 (proj2 (safety_timeout_lands_within_call timeout_world 30010 0 m _))).
  vm_compute. reflexivity.
Defined.

(** C1 as stated fails: in that flight the step at 30000 ms is still
    within the timeout and leaves the engine RUNNING; the step at 30010 ms
    is the first one past it, and the state reported after it is LANDED,
    not LANDING. *)
Lemma safety_timeout_reports_landed_not_landing :
  let m1 := exec (autonavUpdate timeout_world 30000) timeout_start in
  let m2 := exec (autonavUpdate timeout_world 30010) m1 in
  elapsed_at_entry timeout_world timeout_start = 30000
  /\ eval autonavGetState m1 = AUTONAV_RUNNING
  /\ elapsed_at_entry timeout_world m1 = 30010
  /\ eval autonavGetState m2 = AUTONAV_LANDED
  /\ eval autonavGetState m2 <> AUTONAV_LANDING.
Proof.
  vm_compute. repeat split; try reflexivity; discriminate.
Qed.

(** ** Override *)

Lemma updates_cons W t ticks m :
  exec (autonavUpdates W (t :: ticks)) m
  = exec (autonavUpdates W ticks) (exec (autonavUpdate W t) m).
Proof.
  unfold exec. cbn [autonavUpdates]. unfold bind.
  destruct (autonavUpdate W t m). reflexivity.
Qed.

(** A run of [n] control steps in OVERRIDE, the first of which reads the
    clock for the [k]-th time, is kept alive when every step starts within
    the safety timeout of the kick before it: the last kick before the run
    is [last], and each step kicks with its second clock reading. *)
Fixpoint kept_alive (W : world) (k : nat) (last : Z) (n : nat) : Prop :=
  match n with
  | O => True
  | S n' =>
      ms_between (clock_at W k) last <= SAFETY_TIMEOUT_MS
      /\ kept_alive W (S (S k)) (clock_at W (S k)) n'
  end.

(** C5, as the code has it.  While the state is OVERRIDE and every
    control step starts within 30000 ms of the kick before it (the last
    external kick, then the kick of the step before), the steps hand
    nothing to the commander, each refreshes the safety timer with its own
    clock reading, and the state stays OVERRIDE, however long the run
    lasts in total and without any external kick. *)
Theorem override_suppresses_autonomy (W : world) (ticks : list Z) (m : machine) :
  s_state (eng m) = AUTONAV_OVERRIDE ->
  kept_alive W (n_clock m) (s_lastCmdUs (eng m)) (length ticks) ->
  let m' := exec (autonavUpdates W ticks) m in
  s_state (eng m') = AUTONAV_OVERRIDE
  /\ commanded m' = commanded m
  /\ n_clock m' = (n_clock m + 2 * length ticks)%nat
  /\ (ticks <> [] -> s_lastCmdUs (eng m') = clock_at W (pred (n_clock m'))).
Proof.
  revert m. induction ticks as [| t ticks IH]; intros m Est Hk m'; subst m'.
  - cbn. repeat split; try assumption; try lia. congruence.
  - rewrite updates_cons. cbn [length kept_alive] in Hk. destruct Hk as (H0 & Hk).
    destruct (update_override_alive W t m Est H0) as (E1 & E2 & E3 & E4).
    specialize (IH (exec (autonavUpdate W t) m) E1).
    assert (Hk' : kept_alive W (n_clock (exec (autonavUpdate W t) m))
                    (s_lastCmdUs (eng (exec (autonavUpdate W t) m)))
                    (length ticks)) by (rewrite E3, E4; exact Hk).
    destruct (IH Hk') as (I1 & I2 & I3 & I4).
    split; [exact I1|]. split; [congruence|].
    split; [rewrite I3, E4; cbn [length]; lia|].
    intros _. destruct ticks as [| t' ticks'].
    + cbn. rewrite E3, E4. reflexivity.
    + apply I4. discriminate.
Qed.

(** Ten seconds between any two clock readings: a step every twenty
    seconds, seventy seconds from the first reading to the last. *)
Definition slow_world : world :=
  {| esp_timer_get_time := fun k => 10000000 * Z.of_nat k;
     down_tof := fun _ => TofValid 1200;
     front_tof := fun _ => TofValid 2000;
     cosf := fun x => x;
     sinf := fun x => x |}.

Lemma override_suppresses_autonomy_witness :
  let m' := exec (autonavUpdates slow_world [0; 20000; 40000; 60000])
                 (with_state AUTONAV_OVERRIDE boot) in
  s_state (eng m') = AUTONAV_OVERRIDE
  /\ commanded m' = []
  /\ s_lastCmdUs (eng m') = 70000000.
Proof.
  cbv zeta.
  destruct (override_suppresses_autonomy slow_world [0; 20000; 40000; 60000]
              (with_state AUTONAV_OVERRIDE boot) eq_refl) as (H1 & H2 & H3 & H4).
  - cbn [length kept_alive]. repeat split; apply Z.leb_le; vm_compute; reflexivity.
  - split; [exact H1|]. split; [exact H2|].
    rewrite (H4 ltac:(discriminate)), H3. vm_compute. reflexivity.
Defined.

(** C5 as stated fails: an engine in OVERRIDE whose control step comes
    30001 ms after the last kick does hand a setpoint to the commander,
    does not refresh the timer, and lands. *)
Lemma override_step_can_emit_and_land :
  let W := constant_world 30001000 (TofValid 1200) (TofValid 2000) in
  let m := with_state AUTONAV_OVERRIDE boot in
  let m' := exec (autonavUpdate W 0) m in
  s_state (eng m) = AUTONAV_OVERRIDE
  /\ commanded m = []
  /\ commanded m' = [(setpoint_zero, 0)]
  /\ s_lastCmdUs (eng m') = s_lastCmdUs (eng m)
  /\ s_state (eng m') = AUTONAV_LANDED.
Proof.
  vm_compute. repeat split; reflexivity.
Qed.

(** ** Obstacles *)

Ltac close_cmp :=
  unfold OBSTACLE_THR_MM, OBSTACLE_MAX_WAIT_MS, SAFETY_TIMEOUT_MS in *;
  repeat match goal with
         | E : negb _ = false |- _ => apply negb_false_iff in E
         | E : negb _ = true |- _ => apply negb_true_iff in E
         | E : (_ <? _) = false |- _ => apply Z.ltb_ge in E
         | E : (_ <? _) = true |- _ => apply Z.ltb_lt in E
         end.

Ltac crunch_front Hf :=
  repeat first
    [ progress cbn
    | rewrite Hf
    | match goal with
      | H : s_state (eng ?m) = _ |- _ => rewrite H
      end
    | match goal with
      | |- context [match ?x with _ => _ end] =>
          lazymatch x with
          | context [match _ with _ => _ end] => fail
          | _ => destruct x eqn:?
          end
      end ].

(** C3, as the code has it.  With the safety timer alive at entry: a
    control step in RUNNING that gets a valid forward reading below 800 mm
    moves to HOLD_OBSTACLE and records the clock reading it takes then as
    the obstacle-entry timestamp.  A step in HOLD_OBSTACLE hands the
    commander one setpoint whose thrust is the hold thrust of the step and
    whose three velocities are zero; on a valid reading of 800 mm or more
    it returns to RUNNING; on a reading below 800 mm it moves to LANDING
    once more than 30000 ms have passed since the entry, and stays in
    HOLD_OBSTACLE until then. *)
Theorem obstacle_hold_and_resume (W : world) (tick : Z) (m : machine) :
  elapsed_at_entry W m <= SAFETY_TIMEOUT_MS ->
  let m' := exec (autonavUpdate W tick) m in
  let waited := ms_between (clock_at W (S (n_clock m))) (s_obstEnterUs (eng m)) in
  (s_state (eng m) = AUTONAV_RUNNING ->
   forall mm, front_tof W (n_front m) = TofValid mm ->
              0 <= mm < OBSTACLE_THR_MM ->
     s_state (eng m') = AUTONAV_HOLD_OBSTACLE
     /\ s_obstEnterUs (eng m') = clock_at W (S (n_clock m)))
  /\ (s_state (eng m) = AUTONAV_HOLD_OBSTACLE ->
      (exists sp,
          commanded m' = (sp, u32 tick) :: commanded m
          /\ thrust sp = hold_thrust W m
          /\ velocity_x sp = F32.zero
          /\ velocity_y sp = F32.zero
          /\ velocity_z sp = F32.zero)
      /\ (forall mm, front_tof W (n_front m) = TofValid mm ->
                     OBSTACLE_THR_MM <= mm <= 65535 ->
            s_state (eng m') = AUTONAV_RUNNING)
      /\ (forall mm, front_tof W (n_front m) = TofValid mm ->
                     0 <= mm < OBSTACLE_THR_MM ->
            (OBSTACLE_MAX_WAIT_MS < waited -> s_state (eng m') = AUTONAV_LANDING)
            /\ (waited <= OBSTACLE_MAX_WAIT_MS ->
                s_state (eng m') = AUTONAV_HOLD_OBSTACLE))).
Proof.
  intros H m' waited. subst m' waited. unfold hold_thrust, clock_at.
  assert (U : forall mm, 0 <= mm <= 65535 -> u16 mm = mm)
    by (intros; apply u16_small; lia).
  unfold OBSTACLE_THR_MM, OBSTACLE_MAX_WAIT_MS.
  split; [intros Est mm Hf Hmm | intros Est; split; [|split]; [|intros mm Hf Hmm ..]].
  all: run_update; cbn; rewrite elapsed_at_entry_eq;
       rewrite (safety_expired_false _ _ H).
  - crunch_front Hf; try (split; reflexivity).
    all: exfalso; rewrite U in * by lia; close_cmp; lia.
  - crunch; eexists; (split; [reflexivity|]); repeat split; reflexivity.
  - crunch_front Hf; try reflexivity.
    all: exfalso; rewrite U in * by lia; close_cmp; lia.
  - crunch_front Hf.
    all: rewrite ?U in * by lia; close_cmp.
    all: split; intros Hw; try reflexivity; exfalso; lia.
Qed.

Lemma obstacle_hold_and_resume_witness :
  let blocked := constant_world 1000000 (TofValid 1200) (TofValid 500) in
  let clear := constant_world 1000000 (TofValid 1200) (TofValid 2000) in
  s_state (eng (exec (autonavUpdate blocked 10) (with_state AUTONAV_RUNNING boot)))
  = AUTONAV_HOLD_OBSTACLE
  /\ s_state (eng (exec (autonavUpdate clear 10)
                     (with_state AUTONAV_HOLD_OBSTACLE boot)))
     = AUTONAV_RUNNING
  /\ exists sp,
       commanded (exec (autonavUpdate blocked 10)
                    (with_state AUTONAV_HOLD_OBSTACLE boot)) = [(sp, 10)]
       /\ thrust sp = 30000
       /\ velocity_x sp = F32.zero
       /\ velocity_y sp = F32.zero.
Proof.
  intros blocked clear. split; [|split].
  - refine (proj1 (proj1 (obstacle_hold_and_resume blocked 10
                            (with_state AUTONAV_RUNNING boot) _)
                     eq_refl 500 eq_refl _)).
    + vm_compute. discriminate.
    + unfold OBSTACLE_THR_MM. lia.
  - refine (proj1 (proj2 (proj2 (obstacle_hold_and_resume clear 10
                                   (with_state AUTONAV_HOLD_OBSTACLE boot) _)
                            eq_refl))
              2000 eq_refl _).
    + vm_compute. discriminate.
    + unfold OBSTACLE_THR_MM. lia.
  - destruct (proj1 (proj2 (obstacle_hold_and_resume blocked 10
                              (with_state AUTONAV_HOLD_OBSTACLE boot)
                              ltac:(vm_compute; discriminate))
                       eq_refl))
      as (sp & Hc & Ht & Hx & Hy & _).
    exists sp. split; [exact Hc|]. split; [|split; assumption].
    rewrite Ht. vm_compute. reflexivity.
Defined.

(** C3 as stated fails when the safety timer has run out: an engine in
    RUNNING whose control step comes 30001 ms after the last kick, with a
    valid forward reading of 500 mm, does not move to HOLD_OBSTACLE and
    records no obstacle-entry timestamp; step 1 has forced LANDING and the
    call ends in LANDED. *)
Lemma running_blocked_with_expired_timer_lands :
  let W := constant_world 30001000 (TofValid 1200) (TofValid 500) in
  let m := with_state AUTONAV_RUNNING boot in
  let m' := exec (autonavUpdate W 0) m in
  s_state (eng m) = AUTONAV_RUNNING
  /\ front_tof W (n_front m) = TofValid 500
  /\ elapsed_at_entry W m = 30001
  /\ s_state (eng m') = AUTONAV_LANDED
  /\ s_state (eng m') <> AUTONAV_HOLD_OBSTACLE
  /\ s_obstEnterUs (eng m') = s_obstEnterUs (eng m)
  /\ s_obstEnterUs (eng m') <> clock_at W (S (n_clock m)).
Proof.
  vm_compute. repeat split; try reflexivity; discriminate.
Qed.

(** ** Trajectories *)

(** The horizontal velocity that the RUNNING case emits for shape
    [shapeId] when [msSince(shapeStartUs)] is [elapsedMs]: the elapsed
    time goes through the [uint32_t] local [tMs]. *)
Definition emitted_velocity (W : world) (shapeId elapsedMs : Z) : F32.t * F32.t :=
  let sp := shape_velocity W shapeId (u32 elapsedMs) setpoint_zero in
  (velocity_x sp, velocity_y sp).

Lemma shape_velocity_thrust W shapeId tMs sp :
  thrust (shape_velocity W shapeId tMs sp) = thrust sp.
Proof.
  unfold shape_velocity.
  repeat match goal with
         | |- context [match ?x with _ => _ end] =>
             lazymatch x with
             | context [match _ with _ => _ end] => fail
             | _ => destruct x
             end
         end; reflexivity.
Qed.

Lemma shape_velocity_xy W shapeId tMs sp :
  (velocity_x (shape_velocity W shapeId tMs (set_thrust (thrust sp) setpoint_zero)),
   velocity_y (shape_velocity W shapeId tMs (set_thrust (thrust sp) setpoint_zero)))
  = (velocity_x (shape_velocity W shapeId tMs setpoint_zero),
     velocity_y (shape_velocity W shapeId tMs setpoint_zero)).
Proof.
  unfold shape_velocity.
  repeat match goal with
         | |- context [match ?x with _ => _ end] =>
             lazymatch x with
             | context [match _ with _ => _ end] => fail
             | _ => destruct x
             end
         end; reflexivity.
Qed.

Lemma square_segment W t :
  0 <= t < 2 ^ 32 ->
  emitted_velocity W 1 t =
  let seg := (t / 3000) mod 4 in
  if seg =? 0 then (SHAPE_SPEED, F32.zero)
  else if seg =? 1 then (F32.zero, SHAPE_SPEED)
  else if seg =? 2 then (F32.opp SHAPE_SPEED, F32.zero)
  else (F32.zero, F32.opp SHAPE_SPEED).
Proof.
  intros Ht. unfold emitted_velocity, shape_velocity, SEGMENT_TIME_MS.
  assert (E1 : u32 t = t) by (unfold u32; apply Z.mod_small; lia).
  rewrite E1.
  assert (E2 : u32 (t / 3000) = t / 3000).
  { unfold u32. apply Z.mod_small. split.
    - apply Z.div_pos; lia.
    - apply Z.div_lt_upper_bound; lia. }
  rewrite E2. cbv zeta.
  assert (Hs : 0 <= (t / 3000) mod 4 < 4) by (apply Z.mod_pos_bound; lia).
  assert (Hc : (t / 3000) mod 4 = 0 \/ (t / 3000) mod 4 = 1
               \/ (t / 3000) mod 4 = 2 \/ (t / 3000) mod 4 = 3) by lia.
  destruct Hc as [E | [E | [E | E]]]; rewrite E; reflexivity.
Qed.

Ltac crunch_by rw :=
  repeat first
    [ progress cbn
    | rw
    | match goal with
      | H : s_state (eng ?m) = _ |- _ => rewrite H
      end
    | match goal with
      | |- context [match ?x with _ => _ end] =>
          lazymatch x with
          | context [match _ with _ => _ end] => fail
          | _ => destruct x eqn:?
          end
      end ].

(** What a RUNNING step with a free path hands to the commander. *)
Lemma update_running_clear W tick m :
  elapsed_at_entry W m <= SAFETY_TIMEOUT_MS ->
  s_state (eng m) = AUTONAV_RUNNING ->
  front_blocked W m = false ->
  let m' := exec (autonavUpdate W tick) m in
  let t := ms_between (clock_at W (S (n_clock m))) (shapeStartUs (eng m)) in
  s_state (eng m') = AUTONAV_RUNNING
  /\ exists sp,
       commanded m' = (sp, u32 tick) :: commanded m
       /\ thrust sp = hold_thrust W m
       /\ (velocity_x sp, velocity_y sp) = emitted_velocity W (s_shapeId (eng m)) t.
Proof.
  intros H Est Hb m' t. subst m' t.
  unfold front_blocked in Hb.
  destruct (tof_result 65535 (front_tof W (n_front m))) as [ok fm] eqn:Ef.
  unfold hold_thrust, clock_at, emitted_velocity.
  run_update. cbn. rewrite elapsed_at_entry_eq.
  rewrite (safety_expired_false _ _ H).
  crunch_by ltac:(first [rewrite Ef | rewrite Hb]).
  all: split; [reflexivity|]; eexists; split; [reflexivity|]; split;
       [ rewrite shape_velocity_thrust; reflexivity | ].
  all: match goal with
       | |- context [set_thrust ?h setpoint_zero] =>
           apply (shape_velocity_xy W _ _ (set_thrust h setpoint_zero))
       end.
Qed.

(** C7, as the code has it.  A RUNNING step with shape SQUARE, the
    safety timer alive and a free path emits the hold thrust and the
    square's velocity at the elapsed shape time.  That velocity is
    (+0.2, 0), (0, +0.2), (-0.2, 0), (0, -0.2) and again (+0.2, 0) at 0,
    3000, 6000, 9000 and 12000 ms, 0.2 being the [float] nearest to it,
    and it repeats with period 12000 ms as long as the elapsed time fits
    the 32-bit [tMs]: for every [t] with [t + 12000 < 2^32]. *)
Theorem square_trajectory_periodic (W : world) (tick : Z) (m : machine) :
  elapsed_at_entry W m <= SAFETY_TIMEOUT_MS ->
  s_state (eng m) = AUTONAV_RUNNING ->
  s_shapeId (eng m) = 1 ->
  front_blocked W m = false ->
  let m' := exec (autonavUpdate W tick) m in
  let t := ms_between (clock_at W (S (n_clock m))) (shapeStartUs (eng m)) in
  (exists sp,
      commanded m' = (sp, u32 tick) :: commanded m
      /\ thrust sp = hold_thrust W m
      /\ (velocity_x sp, velocity_y sp) = emitted_velocity W 1 t)
  /\ SHAPE_SPEED = S754_finite false 13421773 (-26)
  /\ emitted_velocity W 1 0 = (SHAPE_SPEED, F32.zero)
  /\ emitted_velocity W 1 3000 = (F32.zero, SHAPE_SPEED)
  /\ emitted_velocity W 1 6000 = (F32.opp SHAPE_SPEED, F32.zero)
  /\ emitted_velocity W 1 9000 = (F32.zero, F32.opp SHAPE_SPEED)
  /\ emitted_velocity W 1 12000 = (SHAPE_SPEED, F32.zero)
  /\ (forall x, 0 <= x -> x + 12000 < 2 ^ 32 ->
      emitted_velocity W 1 (x + 12000) = emitted_velocity W 1 x).
Proof.
  intros H Est Hs Hb m' t.
  destruct (update_running_clear W tick m H Est Hb) as (_ & sp & H1 & H2 & H3).
  split; [exists sp; rewrite <- Hs; auto|].
  split; [vm_compute; reflexivity|].
  do 5 (split; [rewrite square_segment by lia; reflexivity|]).
  intros x Hx Hx'.
  rewrite !square_segment by lia. cbv zeta.
  replace ((x + 12000) / 3000) with (x / 3000 + 1 * 4).
  - rewrite Z.mod_add by lia. reflexivity.
  - replace (x + 12000) with (x + 4 * 3000) by lia.
    rewrite Z.div_add by lia. lia.
Qed.

Definition square_start (kick : Z) : machine :=
  exec (modify (fun a => set_s_lastCmdUs kick
                           (set_s_shapeId 1 (set_s_state AUTONAV_RUNNING a))))
       boot.

Definition sent_velocities (m : machine) : list (F32.t * F32.t) :=
  map (fun c => (velocity_x (fst c), velocity_y (fst c))) (commanded m).

Lemma square_trajectory_periodic_witness :
  let W := constant_world 3000000 (TofValid 1200) (TofValid 2000) in
  emitted_velocity W 1 (3000 + 12000) = emitted_velocity W 1 3000.
Proof.
  intros W.
  refine (proj2 (proj2 (proj2 (proj2 (proj2 (proj2 (proj2
            (square_trajectory_periodic W 0 (square_start 0) _ eq_refl eq_refl eq_refl)))))))
          3000 _ _).
  - vm_compute. discriminate.
  - lia.
  - lia.
Defined.

(** C7 as stated fails where the elapsed time leaves 32 bits: the shape
    having started at time 0 and the timer having just been kicked, a
    step at 4294964999 ms emits (-0.2, 0) and a step 12000 ms later emits
    (0, -0.2). *)
Lemma square_period_breaks_at_wrap :
  let t := 4294964999 in
  let W1 := constant_world (1000 * t) (TofValid 1200) (TofValid 2000) in
  let W2 := constant_world (1000 * (t + 12000)) (TofValid 1200) (TofValid 2000) in
  let m1 := exec (autonavUpdate W1 0) (square_start (1000 * t)) in
  let m2 := exec (autonavUpdate W2 0) (square_start (1000 * (t + 12000))) in
  s_state (eng m1) = AUTONAV_RUNNING
  /\ s_state (eng m2) = AUTONAV_RUNNING
  /\ sent_velocities m1 = [(F32.opp SHAPE_SPEED, F32.zero)]
  /\ sent_velocities m2 = [(F32.zero, F32.opp SHAPE_SPEED)]
  /\ emitted_velocity W1 1 (t + 12000) <> emitted_velocity W1 1 t.
Proof.
  vm_compute. repeat split; try reflexivity; discriminate.
Qed.

(** ** The altitude controller stays within its clamps *)

Local Open Scope R_scope.

(** The relative and the absolute part of binary32's rounding error. *)
Definition delta : R := pow2 (-23).
Definition eta : R := pow2 (-149).

Lemma delta_eta :
  0 < delta <= 1 / 8000000 /\ 0 < eta <= 1 / 1000000.
Proof.
  unfold delta, eta. split; (split; [apply pow2_pos|]).
  - replace (1 / 8000000) with (/ 8000000) by lra.
    assert (E : pow2 (-23) = / IZR (2 ^ 23)).
    { unfold pow2. change (-23)%Z with (- (23))%Z.
      rewrite powerRZ_neg'. f_equal. apply (pow2_IZR 23). lia. }
    rewrite E. change (2 ^ 23)%Z with 8388608%Z. lra.
  - apply Rle_trans with (pow2 (-20)); [apply pow2_le; lia|].
    assert (E : pow2 (-20) = / IZR (2 ^ 20)).
    { unfold pow2. change (-20)%Z with (- (20))%Z.
      rewrite powerRZ_neg'. f_equal. apply (pow2_IZR 20). lia. }
    rewrite E. change (2 ^ 20)%Z with 1048576%Z. lra.
Qed.

Lemma round_err_f32 a : round_err F32.prec F32.emax a = a * delta + eta.
Proof. reflexivity. Qed.

Lemma pow2_105_large : 1000000 < pow2 (F32.emax - F32.prec + 1).
Proof.
  apply Rlt_le_trans with (pow2 20).
  - rewrite pow2_IZR by lia. change (2 ^ 20)%Z with 1048576%Z. lra.
  - apply pow2_le. unfold F32.emax, F32.prec. lia.
Qed.

(** A binary32 number, finite, of magnitude [b] at most. *)
Definition bnd (x : F32.t) (b : R) : Prop :=
  fin F32.prec F32.emax x /\ Rabs (V x) <= b.

Lemma bnd_of_rounds x r a c :
  rounds_to F32.prec F32.emax x r ->
  Rabs x <= a -> a * (1 + delta) + eta <= c -> c <= 1000000 ->
  bnd r c.
Proof.
  intros (R1 & R2 & R3 & R4) Ha Hc Hbig.
  rewrite round_err_f32 in R3, R4.
  pose proof delta_eta as ((D1 & D2) & (E1 & E2)).
  pose proof pow2_105_large as Hl.
  pose proof (Rabs_pos x) as Hx.
  assert (Hf : is_fin r = true) by (apply R3; nra).
  split; [split; assumption|].
  specialize (R4 Hf). apply Rabs_le_between in R4.
  apply Rabs_le. unfold Rabs in *. destruct (Rcase_abs x); split; nra.
Qed.

Lemma bnd_mul x y a b c :
  bnd x a -> bnd y b -> a * b * (1 + delta) + eta <= c -> c <= 1000000 ->
  bnd (F32.mul x y) c.
Proof.
  intros (Fx & Bx) (Fy & By) Hc Hbig.
  apply (bnd_of_rounds (V x * V y) _ (a * b)); try assumption.
  - apply SFmul_R; try assumption; unfold F32.prec, F32.emax; lia.
  - rewrite Rabs_mult. pose proof (Rabs_pos (V x)). pose proof (Rabs_pos (V y)). nra.
Qed.

Lemma bnd_add x y a b c :
  bnd x a -> bnd y b -> (a + b) * (1 + delta) + eta <= c -> c <= 1000000 ->
  bnd (F32.add x y) c.
Proof.
  intros (Fx & Bx) (Fy & By) Hc Hbig.
  apply (bnd_of_rounds (V x + V y) _ (a + b)); try assumption.
  - apply SFadd_R; try assumption; unfold F32.prec; lia.
  - pose proof (Rabs_triang (V x) (V y)). lra.
Qed.

Lemma bnd_sub x y a b c :
  bnd x a -> bnd y b -> (a + b) * (1 + delta) + eta <= c -> c <= 1000000 ->
  bnd (F32.sub x y) c.
Proof.
  intros (Fx & Bx) (Fy & By) Hc Hbig.
  apply (bnd_of_rounds (V x - V y) _ (a + b)); try assumption.
  - apply SFsub_R; try assumption; unfold F32.prec; lia.
  - pose proof (Rabs_triang (V x) (- V y)). rewrite Rabs_Ropp in H.
    unfold Rminus. lra.
Qed.

Lemma bnd_of_Z z a c :
  (Z.abs z <= a)%Z -> IZR a * (1 + delta) + eta <= c -> c <= 1000000 ->
  bnd (F32.of_Z z) c.
Proof.
  intros Hz Hc Hbig.
  apply (bnd_of_rounds (IZR z * pow2 0) _ (IZR a)); try assumption.
  - apply binary_normalize_R. unfold F32.prec; lia.
  - replace (pow2 0) with 1 by reflexivity. rewrite Rmult_1_r.
    rewrite Rabs_Zabs. apply IZR_le. exact Hz.
Qed.

Lemma bnd_weaken x a b : bnd x a -> a <= b -> bnd x b.
Proof. intros (F & B) H. split; [exact F | lra]. Qed.

Lemma Rabs_F2R s m e : Rabs (F2R s m e) = IZR (Zpos m) * pow2 e.
Proof.
  unfold F2R. rewrite Rmult_assoc. apply Rabs_sgn.
  apply Rmult_le_pos; [apply IZR_le; lia | apply Rlt_le, pow2_pos].
Qed.

Lemma pow2_neg k : (0 <= k)%Z -> pow2 (- k) = / IZR (2 ^ k).
Proof.
  intros H. unfold pow2. rewrite powerRZ_neg'. f_equal. apply (pow2_IZR k H).
Qed.

Lemma pow2_negpos k : pow2 (Zneg k) = / IZR (2 ^ Zpos k).
Proof. apply (pow2_neg (Zpos k)). lia. Qed.

(** The constants of the controller. *)
Lemma bnd_c09 : bnd (F32.lit 9 10) (9 / 10).
Proof.
  split; [split; vm_compute; reflexivity|].
  change (F32.lit 9 10) with (S754_finite false 15099494 (-24)).
  cbn [V]. rewrite Rabs_F2R. rewrite (pow2_negpos 24). change (2 ^ 24)%Z with 16777216%Z. lra.
Qed.

Lemma bnd_c01 : bnd (F32.lit 1 10) (1000001 / 10000000).
Proof.
  split; [split; vm_compute; reflexivity|].
  change (F32.lit 1 10) with (S754_finite false 13421773 (-27)).
  cbn [V]. rewrite Rabs_F2R. rewrite (pow2_negpos 27). change (2 ^ 27)%Z with 134217728%Z. lra.
Qed.

Lemma bnd_dt : bnd LOOP_DT_S (1 / 100).
Proof.
  split; [split; vm_compute; reflexivity|].
  change LOOP_DT_S with (S754_finite false 10737418 (-30)).
  cbn [V]. rewrite Rabs_F2R. rewrite (pow2_negpos 30). change (2 ^ 30)%Z with 1073741824%Z. lra.
Qed.

Lemma bnd_kp : bnd Z_KP 1.
Proof.
  split; [split; vm_compute; reflexivity|].
  change Z_KP with (S754_finite false 8388608 (-23)).
  cbn [V]. rewrite Rabs_F2R. rewrite (pow2_negpos 23). change (2 ^ 23)%Z with 8388608%Z. lra.
Qed.

Lemma bnd_ki : bnd Z_KI (1 / 10).
Proof.
  split; [split; vm_compute; reflexivity|].
  change Z_KI with (S754_finite false 10737418 (-28)).
  cbn [V]. rewrite Rabs_F2R. rewrite (pow2_negpos 28). change (2 ^ 28)%Z with 268435456%Z. lra.
Qed.

(** *** Where no NaN can come from *)

Lemma SFdiv_not_nan x sy my ey :
  is_fin x = true ->
  not_nan (SFdiv F32.prec F32.emax x (S754_finite sy my ey)) = true.
Proof.
  intros Hx. destruct x as [sx | sx | | sx mx ex]; try discriminate; [reflexivity|].
  cbn [SFdiv]. unfold SFdiv_core_binary.
  set (e' := Z.min _ _). set (m' := match (ex - ey - e')%Z with
                                    | Z0 => Zpos mx
                                    | Zpos _ => Z.shiftl (Zpos mx) (ex - ey - e')
                                    | Zneg _ => 0%Z end).
  assert (Hm' : (0 <= m')%Z).
  { subst m'. destruct (ex - ey - e')%Z; try lia. apply Z.shiftl_nonneg. lia. }
  pose proof (Z.div_eucl_eq m' (Zpos my) ltac:(lia)) as Hq.
  pose proof (Z.mod_pos_bound m' (Zpos my) ltac:(lia)) as Hr.
  unfold Z.modulo in Hr.
  destruct (Z.div_eucl m' (Zpos my)) as [q r].
  assert (Hq0 : (0 <= q)%Z) by nia.
  pose proof (binary_round_aux_not_nan F32.prec F32.emax (xorb sx sy) q e'
                (new_location (Zpos my) r) Hq0) as H.
  destruct (binary_round_aux _ _ _ _ _ _); try reflexivity. congruence.
Qed.

Lemma SFmul_not_nan sx mx ex y :
  not_nan y = true ->
  not_nan (SFmul F32.prec F32.emax (S754_finite sx mx ex) y) = true.
Proof.
  intros Hy. destruct y as [sy | sy | | sy my ey]; try discriminate; try reflexivity.
  cbn [SFmul].
  pose proof (binary_round_aux_not_nan F32.prec F32.emax (xorb sx sy)
                (Zpos (mx * my)) (ex + ey) loc_Exact ltac:(lia)) as H.
  destruct (binary_round_aux _ _ _ _ _ _); try reflexivity. congruence.
Qed.

Lemma binary_normalize_ok z e sz :
  not_nan (binary_normalize F32.prec F32.emax z e sz) = true
  /\ valid_binary F32.prec F32.emax (binary_normalize F32.prec F32.emax z e sz) = true.
Proof.
  destruct (binary_normalize_R F32.prec F32.emax ltac:(unfold F32.prec; lia) z e sz)
    as (H1 & H2 & _).
  split; assumption.
Qed.

(** A finite number plus anything but a NaN is no NaN. *)
Lemma SFadd_not_nan x y :
  is_fin x = true -> not_nan y = true ->
  not_nan (SFadd F32.prec F32.emax x y) = true.
Proof.
  intros Hx Hy.
  destruct x as [sx | sx | | sx mx ex]; try discriminate;
    destruct y as [sy | sy | | sy my ey]; try discriminate;
    cbn [SFadd]; try reflexivity.
  - destruct sx, sy; reflexivity.
  - apply binary_normalize_ok.
Qed.

(** A non-zero finite number plus anything is well-formed. *)
Lemma SFadd_valid sx mx ex y :
  valid_binary F32.prec F32.emax (S754_finite sx mx ex) = true ->
  valid_binary F32.prec F32.emax (SFadd F32.prec F32.emax (S754_finite sx mx ex) y)
  = true.
Proof.
  intros Vx.
  destruct y as [sy | sy | | sy my ey]; cbn [SFadd]; try reflexivity.
  - exact Vx.
  - apply binary_normalize_ok.
Qed.

(** *** The two clamps *)

Lemma compare_cont_Eq p q : Pos.compare_cont Eq p q = (p ?= q)%positive.
Proof. reflexivity. Qed.

(** [<] and [<=] on two finite numbers, by sign, exponent and mantissa. *)
Lemma SFltb_finite s1 m1 e1 s2 m2 e2 :
  SFltb (S754_finite s1 m1 e1) (S754_finite s2 m2 e2) =
  match s1, s2 with
  | true, false => true
  | false, true => false
  | false, false => (e1 <? e2)%Z || ((e1 =? e2)%Z && (Zpos m1 <? Zpos m2)%Z)
  | true, true => (e2 <? e1)%Z || ((e1 =? e2)%Z && (Zpos m2 <? Zpos m1)%Z)
  end.
Proof.
  unfold SFltb. cbn [SFcompare]. destruct s1, s2; try reflexivity.
  all: rewrite compare_cont_Eq.
  all: destruct (Z.compare_spec e1 e2) as [E | E | E];
       destruct (Pos.compare_spec m1 m2) as [P | P | P];
       try (assert (P' : (Zpos m1 < Zpos m2)%Z) by exact P);
       try (assert (P' : (Zpos m2 < Zpos m1)%Z) by exact P);
       try (assert (P' : Zpos m1 = Zpos m2) by (f_equal; exact P));
       clear P; cbn [CompOpp].
  all: destruct (Z.ltb_spec e1 e2); destruct (Z.ltb_spec e2 e1);
       destruct (Z.eqb_spec e1 e2); try lia; cbn [orb andb].
  all: first [ reflexivity
             | destruct (Z.ltb_spec (Zpos m1) (Zpos m2)); first [reflexivity | lia]
             | destruct (Z.ltb_spec (Zpos m2) (Zpos m1)); first [reflexivity | lia] ].
Qed.

Lemma SFleb_finite s1 m1 e1 s2 m2 e2 :
  SFleb (S754_finite s1 m1 e1) (S754_finite s2 m2 e2) =
  match s1, s2 with
  | true, false => true
  | false, true => false
  | false, false => (e1 <? e2)%Z || ((e1 =? e2)%Z && (Zpos m1 <=? Zpos m2)%Z)
  | true, true => (e2 <? e1)%Z || ((e1 =? e2)%Z && (Zpos m2 <=? Zpos m1)%Z)
  end.
Proof.
  unfold SFleb. cbn [SFcompare]. destruct s1, s2; try reflexivity.
  all: rewrite compare_cont_Eq.
  all: destruct (Z.compare_spec e1 e2) as [E | E | E];
       destruct (Pos.compare_spec m1 m2) as [P | P | P];
       try (assert (P' : (Zpos m1 < Zpos m2)%Z) by exact P);
       try (assert (P' : (Zpos m2 < Zpos m1)%Z) by exact P);
       try (assert (P' : Zpos m1 = Zpos m2) by (f_equal; exact P));
       clear P; cbn [CompOpp].
  all: destruct (Z.ltb_spec e1 e2); destruct (Z.ltb_spec e2 e1);
       destruct (Z.eqb_spec e1 e2); try lia; cbn [orb andb].
  all: first [ reflexivity
             | destruct (Z.leb_spec (Zpos m1) (Zpos m2)); first [reflexivity | lia]
             | destruct (Z.leb_spec (Zpos m2) (Zpos m1)); first [reflexivity | lia] ].
Qed.

Lemma valid_mantissa s m e :
  valid_binary F32.prec F32.emax (S754_finite s m e) = true ->
  (Zpos m < 16777216)%Z /\ ((-149 < e)%Z -> (8388608 <= Zpos m)%Z).
Proof.
  cbn [valid_binary]. unfold SpecFloat.bounded. intros H.
  apply andb_prop in H. destruct H as (C & _).
  apply canonical_facts in C. destruct C as (C1 & C2 & C3).
  unfold SpecFloat.emin, F32.prec, F32.emax in *.
  pose proof (digits2_bounds m) as [B1 B2].
  set (d := Zpos (digits2_pos m)) in *.
  change 16777216%Z with (2 ^ 24)%Z. change 8388608%Z with (2 ^ 23)%Z.
  split.
  - apply Z.lt_le_trans with (2 ^ d)%Z; [exact B2|].
    apply Z.pow_le_mono_r; lia.
  - intros He. assert (d = 24%Z) by lia.
    replace 23%Z with (d - 1)%Z by lia. exact B1.
Qed.

(** [(uint16_t)x] for a positive [x] with a negative exponent. *)
Lemma to_u16_shift m k :
  (Zpos m / 2 ^ Zpos k < 65536)%Z ->
  F32.to_u16 (S754_finite false m (Zneg k)) = (Zpos m / 2 ^ Zpos k)%Z.
Proof.
  intros H. unfold F32.to_u16, F32.trunc. cbn [cond_Zopp].
  rewrite (Z.shiftl_div_pow2 (Zpos m) (Zneg k)) by lia.
  cbn [Z.opp]. apply u16_small. split; [apply Z.div_pos; lia | exact H].
Qed.

Lemma clamp_thrust_range th :
  not_nan th = true ->
  valid_binary F32.prec F32.emax th = true ->
  (20000 <= F32.to_u16 (clamp_thrust th) <= 65000)%Z.
Proof.
  intros Hn Hv.
  destruct th as [s | s | | s m e]; try discriminate.
  - destruct s; vm_compute; split; discriminate.
  - destruct s; vm_compute; split; discriminate.
  - assert (Lo : F32.to_u16 (S754_finite false 10240000 (-9)) = 20000%Z)
      by (vm_compute; reflexivity).
    assert (Hi : F32.to_u16 (S754_finite false 16640000 (-8)) = 65000%Z)
      by (vm_compute; reflexivity).
    assert (Snd : SFltb (S754_finite false 16640000 (-8))
                        (S754_finite false 10240000 (-9)) = false)
      by (vm_compute; reflexivity).
    unfold clamp_thrust, F32.ltb, F32.gtb.
    replace (F32.of_Z 20000) with (S754_finite false 10240000 (-9))
      by (vm_compute; reflexivity).
    replace (F32.of_Z 65000) with (S754_finite false 16640000 (-8))
      by (vm_compute; reflexivity).
    destruct (valid_mantissa s m e Hv) as (M1 & M2). clear Hv Hn.
    rewrite SFltb_finite.
    destruct s; [cbv beta iota zeta; rewrite Snd, Lo; lia|].
    destruct ((e <? -9)%Z || (e =? -9)%Z && (Zpos m <? 10240000)%Z) eqn:C1;
      cbv beta iota zeta.
    + rewrite Snd, Lo. lia.
    + rewrite SFltb_finite.
      destruct ((-8 <? e)%Z || (-8 =? e)%Z && (16640000 <? Zpos m)%Z) eqn:C2.
      * rewrite Hi. lia.
      * apply orb_false_elim in C1, C2.
        destruct C1 as (C1a & C1b), C2 as (C2a & C2b).
        apply Z.ltb_ge in C1a, C2a.
        assert (He : e = (-9)%Z \/ e = (-8)%Z) by lia.
        destruct He as [-> | ->].
        -- rewrite Z.eqb_refl, andb_true_l in C1b. apply Z.ltb_ge in C1b.
           assert (Q : (20000 <= Zpos m / 2 ^ 9 < 32768)%Z).
           { split; [apply Z.div_le_lower_bound; lia
                    | apply Z.div_lt_upper_bound; lia]. }
           rewrite (to_u16_shift m 9) by lia. lia.
        -- rewrite Z.eqb_refl, andb_true_l in C2b. apply Z.ltb_ge in C2b.
           specialize (M2 ltac:(lia)).
           assert (Q : (32768 <= Zpos m / 2 ^ 8 <= 65000)%Z).
           { split; [apply Z.div_le_lower_bound; lia|].
             apply Z.lt_succ_r. apply Z.div_lt_upper_bound; lia. }
           rewrite (to_u16_shift m 8) by lia. lia.
Qed.

Lemma bnd_small_exponent s m e :
  valid_binary F32.prec F32.emax (S754_finite s m e) = true ->
  (e <= -16)%Z -> bnd (S754_finite s m e) 400.
Proof.
  intros Hv He. split; [split; [reflexivity | exact Hv]|].
  destruct (valid_mantissa s m e Hv) as (M1 & _).
  cbn [V]. rewrite Rabs_F2R.
  apply Rle_trans with (IZR 16777216 * pow2 (-16)).
  - apply Rmult_le_compat.
    + apply IZR_le. lia.
    + apply Rlt_le, pow2_pos.
    + apply IZR_le. lia.
    + apply pow2_le. exact He.
  - rewrite (pow2_negpos 16).
    replace (2 ^ 16)%Z with 65536%Z by reflexivity. lra.
Qed.

Lemma bnd_exponent_15 s m :
  valid_binary F32.prec F32.emax (S754_finite s m (-15)) = true ->
  (Zpos m <= 13107200)%Z -> bnd (S754_finite s m (-15)) 400.
Proof.
  intros Hv Hm. split; [split; [reflexivity | exact Hv]|].
  cbn [V]. rewrite Rabs_F2R.
  rewrite (pow2_negpos 15).
  replace (2 ^ 15)%Z with 32768%Z by reflexivity. apply IZR_le in Hm. lra.
Qed.

Lemma bnd_400 s : bnd (S754_finite s 13107200 (-15)) 400.
Proof. apply bnd_exponent_15; [reflexivity | lia]. Qed.

(** What the anti-windup clamp returns lies between -400 and 400, as
    the comparison of C sees it and as a real number. *)
Lemma clamp_integral_ok x :
  not_nan x = true ->
  valid_binary F32.prec F32.emax x = true ->
  F32.leb (F32.opp (F32.of_Z 400)) (clamp_integral x) = true
  /\ F32.leb (clamp_integral x) (F32.of_Z 400) = true
  /\ bnd (clamp_integral x) 400.
Proof.
  intros Hn Hv.
  assert (K : forall s,
    SFleb (S754_finite true 13107200 (-15)) (S754_finite s 13107200 (-15)) = true
    /\ SFleb (S754_finite s 13107200 (-15)) (S754_finite false 13107200 (-15)) = true
    /\ bnd (S754_finite s 13107200 (-15)) 400).
  { intros s. split; [|split]; [destruct s; vm_compute; reflexivity .. | apply bnd_400]. }
  assert (C400 : F32.of_Z 400 = S754_finite false 13107200 (-15))
    by (vm_compute; reflexivity).
  destruct x as [s | s | | s m e]; try discriminate.
  - assert (E : clamp_integral (S754_zero s) = S754_zero s)
      by (destruct s; vm_compute; reflexivity).
    rewrite E. split; [destruct s; vm_compute; reflexivity|].
    split; [destruct s; vm_compute; reflexivity|].
    split; [split; reflexivity|]. cbn [V]. rewrite Rabs_R0. lra.
  - assert (E : clamp_integral (S754_infinity s) = S754_finite s 13107200 (-15))
      by (destruct s; vm_compute; reflexivity).
    rewrite E. unfold F32.leb, F32.opp. rewrite C400. apply K.
  - unfold clamp_integral, F32.ltb, F32.gtb, F32.leb, F32.opp. rewrite C400.
    cbv beta iota zeta delta [SFopp negb].
    assert (Sn : SFltb (S754_finite false 13107200 (-15))
                       (S754_finite true 13107200 (-15)) = false)
      by (vm_compute; reflexivity).
    rewrite SFltb_finite. destruct s.
    + (* negative: only the lower clamp can strike *)
      cbv beta iota zeta. rewrite SFltb_finite.
      destruct ((-15 <? e)%Z || (e =? -15)%Z && (13107200 <? Zpos m)%Z) eqn:C.
      * apply K.
      * apply orb_false_elim in C. destruct C as (Ca & Cb). apply Z.ltb_ge in Ca.
        rewrite !SFleb_finite.
        destruct (Z.eq_dec e (-15)) as [-> | Ne].
        -- rewrite Z.eqb_refl, andb_true_l in Cb. apply Z.ltb_ge in Cb.
           split; [|split; [reflexivity|]].
           ++ rewrite Z.eqb_refl, andb_true_l. apply orb_true_iff. right.
              apply Z.leb_le. exact Cb.
           ++ apply bnd_exponent_15; assumption.
        -- split; [|split; [reflexivity|]].
           ++ apply orb_true_iff. left. apply Z.ltb_lt. lia.
           ++ apply bnd_small_exponent; [exact Hv | lia].
    + (* positive: only the upper clamp can strike *)
      destruct ((-15 <? e)%Z || (-15 =? e)%Z && (13107200 <? Zpos m)%Z) eqn:C;
        cbv beta iota zeta.
      * rewrite Sn. apply K.
      * rewrite SFltb_finite.
        apply orb_false_elim in C. destruct C as (Ca & Cb). apply Z.ltb_ge in Ca.
        rewrite !SFleb_finite.
        destruct (Z.eq_dec e (-15)) as [-> | Ne].
        -- rewrite Z.eqb_refl, andb_true_l in Cb. apply Z.ltb_ge in Cb.
           split; [reflexivity|]. split.
           ++ rewrite Z.eqb_refl, andb_true_l. apply orb_true_iff. right.
              apply Z.leb_le. exact Cb.
           ++ apply bnd_exponent_15; assumption.
        -- split; [reflexivity|]. split.
           ++ apply orb_true_iff. left. apply Z.ltb_lt. lia.
           ++ apply bnd_small_exponent; [exact Hv | lia].
Qed.

(** *** The controller's invariant *)

(** The filtered altitude, the previous error and the integral are finite
    binary32 numbers of bounded magnitude, and the target is a
    [uint16_t]. *)
Definition ctrl_ok (a : autonav) : Prop :=
  bnd (altFilt a) 65600
  /\ bnd (z_prevErr a) 131137
  /\ bnd (z_i a) 400
  /\ F32.leb (F32.opp (F32.of_Z 400)) (z_i a) = true
  /\ F32.leb (z_i a) (F32.of_Z 400) = true
  /\ (0 <= s_targetAltMm a <= 65535)%Z.

Lemma bnd_fin x b : bnd x b -> is_fin x = true.
Proof. intros ((F & _) & _). exact F. Qed.

Lemma bnd_not_nan x b : bnd x b -> not_nan x = true.
Proof. intros ((F & _) & _). destruct x; try discriminate; reflexivity. Qed.

Lemma bnd_valid x b : bnd x b -> valid_binary F32.prec F32.emax x = true.
Proof. intros ((_ & H) & _). exact H. Qed.

Lemma z_hold_step_ok altMm a :
  (0 <= altMm <= 65535)%Z ->
  ctrl_ok a ->
  ctrl_ok (fst (z_hold_step altMm a))
  /\ (20000 <= F32.to_u16 (snd (z_hold_step altMm a)) <= 65000)%Z.
Proof.
  intros Hmm (Ha & Hp & Hi & _ & _ & Ht).
  pose proof delta_eta as ((D1 & D2) & (E1 & E2)).
  unfold z_hold_step. cbn [fst snd].
  set (altFilt' := F32.add (F32.mul (F32.lit 9 10) (altFilt a))
                           (F32.mul (F32.lit 1 10) (F32.of_Z altMm))).
  set (err := F32.sub (F32.of_Z (s_targetAltMm a)) altFilt').
  set (zs := F32.add (z_i a) (F32.mul err LOOP_DT_S)).
  set (z_d := F32.div (F32.sub err (z_prevErr a)) LOOP_DT_S).
  assert (B1 : bnd (F32.mul (F32.lit 9 10) (altFilt a)) 59041).
  { apply (bnd_mul _ _ _ _ _ bnd_c09 Ha); nra. }
  assert (B2 : bnd (F32.of_Z altMm) 65536).
  { apply (bnd_of_Z _ 65535); [lia | nra | lra]. }
  assert (B3 : bnd (F32.mul (F32.lit 1 10) (F32.of_Z altMm)) 6554).
  { apply (bnd_mul _ _ _ _ _ bnd_c01 B2); nra. }
  assert (B4 : bnd altFilt' 65600).
  { apply (bnd_add _ _ _ _ _ B1 B3); nra. }
  assert (B5 : bnd (F32.of_Z (s_targetAltMm a)) 65536).
  { apply (bnd_of_Z _ 65535); [lia | nra | lra]. }
  assert (B6 : bnd err 131137).
  { apply (bnd_sub _ _ _ _ _ B5 B4); nra. }
  assert (B7 : bnd (F32.mul err LOOP_DT_S) 1312).
  { apply (bnd_mul _ _ _ _ _ B6 bnd_dt); nra. }
  assert (B8 : bnd zs 1713).
  { apply (bnd_add _ _ _ _ _ Hi B7); nra. }
  destruct (clamp_integral_ok zs (bnd_not_nan _ _ B8) (bnd_valid _ _ B8))
    as (C1 & C2 & C3).
  assert (B9 : bnd (F32.sub err (z_prevErr a)) 262275).
  { apply (bnd_sub _ _ _ _ _ B6 Hp); nra. }
  assert (N1 : not_nan z_d = true).
  { subst z_d. change LOOP_DT_S with (S754_finite false 10737418 (-30)).
    apply SFdiv_not_nan. exact (bnd_fin _ _ B9). }
  assert (B10 : bnd (F32.mul Z_KP err) 131138).
  { apply (bnd_mul _ _ _ _ _ bnd_kp B6); nra. }
  assert (B11 : bnd (F32.mul Z_KI (clamp_integral zs)) 41).
  { apply (bnd_mul _ _ _ _ _ bnd_ki C3); nra. }
  assert (B12 : bnd (F32.add (F32.mul Z_KP err) (F32.mul Z_KI (clamp_integral zs)))
                    131180).
  { apply (bnd_add _ _ _ _ _ B10 B11); nra. }
  assert (N2 : not_nan (F32.mul Z_KD z_d) = true).
  { change Z_KD with (S754_finite false 10737418 (-27)).
    apply SFmul_not_nan. exact N1. }
  assert (N3 : not_nan (F32.add (F32.add (F32.mul Z_KP err)
                                         (F32.mul Z_KI (clamp_integral zs)))
                                (F32.mul Z_KD z_d)) = true).
  { apply SFadd_not_nan; [exact (bnd_fin _ _ B12) | exact N2]. }
  split.
  - unfold ctrl_ok. cbn [altFilt z_prevErr z_i s_targetAltMm
                         set_z_prevErr set_z_i set_altFilt].
    exact (conj B4 (conj B6 (conj C3 (conj C1 (conj C2 Ht))))).
  - apply clamp_thrust_range.
    + change HOVER_THRUST_BASE with (S754_finite false 15360000 (-9)).
      apply SFadd_not_nan; [reflexivity | exact N3].
    + change HOVER_THRUST_BASE with (S754_finite false 15360000 (-9)).
      apply SFadd_valid. reflexivity.
Qed.

Local Close Scope R_scope.

Arguments z_hold_step : simpl never.

Lemma ctrl_ok_statics : ctrl_ok autonav_statics.
Proof.
  pose proof delta_eta as ((D1 & D2) & (E1 & E2)).
  unfold ctrl_ok, autonav_statics, AUTONAV_DEFAULT_ALT_MM.
  cbn [altFilt z_prevErr z_i s_targetAltMm].
  assert (Z0 : forall b, (0 <= b)%R -> bnd F32.zero b).
  { intros b Hb. split; [split; reflexivity|]. cbn [V F32.zero].
    rewrite Rabs_R0. exact Hb. }
  split; [apply (bnd_of_Z _ 1200); [lia | nra | lra]|].
  split; [apply Z0; lra|]. split; [apply Z0; lra|].
  split; [reflexivity|]. split; [reflexivity|]. lia.
Qed.

(** [zHoldThrustCmd] keeps the invariant and returns a thrust within the
    clamp, whatever the down-facing driver answers. *)
Lemma zHoldThrustCmd_ok W m :
  ctrl_ok (eng m) ->
  ctrl_ok (eng (exec (zHoldThrustCmd W) m))
  /\ 20000 <= fst (eval (zHoldThrustCmd W) m) <= 65000.
Proof.
  intros H. unfold exec, eval, zHoldThrustCmd, bind, sensorsGetDownTofMm,
    gets, modify, ret.
  destruct (down_tof W (n_down m)) as [mm | [mm |]]; cbn [tof_result negb].
  - pose proof (z_hold_step_ok (u16 mm) (eng m)
                  ltac:(pose proof (u16_range mm); lia) H) as (K1 & K2).
    cbn [eng]. destruct (z_hold_step (u16 mm) (eng m)) as [a' th].
    cbn [fst snd eng] in *. split; assumption.
  - cbn [fst snd eng]. rewrite fallback_thrust_value. split; [exact H | lia].
  - cbn [fst snd eng]. rewrite fallback_thrust_value. split; [exact H | lia].
Qed.

(** *** Every way of driving the engine *)

(** The entry points of the engine and of the handler, as a caller may
    invoke them one after the other. *)
Inductive call :=
| CallInit
| CallUpdate (tickMs : Z)
| CallStartShape (shapeId : Z)
| CallStop
| CallKickSafety
| CallSetTargetAltMm (mm : Z)
| CallEnterOverride
| CallExitOverride
| CallPacket (pk : option CRTPPacket).

Definition do_call (W : world) (c : call) : M unit :=
  match c with
  | CallInit => autonavInit W
  | CallUpdate tickMs => autonavUpdate W tickMs
  | CallStartShape shapeId => autonavStartShape W shapeId
  | CallStop => autonavStop
  | CallKickSafety => autonavKickSafety W
  | CallSetTargetAltMm mm => autonavSetTargetAltMm mm
  | CallEnterOverride => autonavEnterOverride
  | CallExitOverride => autonavExitOverride W
  | CallPacket pk => autonav_handle_packet W pk
  end.

Fixpoint do_calls (W : world) (cs : list call) : M unit :=
  match cs with
  | [] => ret tt
  | c :: cs => bind (do_call W c) (fun _ => do_calls W cs)
  end.

(** [c] keeps the property [P] of the statics, whatever it returns. *)
Definition preserves (P : autonav -> Prop) {A} (c : M A) : Prop :=
  forall m, P (eng m) -> P (eng (exec c m)).

Lemma exec_bind {A B} (c : M A) (k : A -> M B) m :
  exec (bind c k) m = exec (k (eval c m)) (exec c m).
Proof. unfold exec, eval, bind. destruct (c m). reflexivity. Qed.

Section Preserves.

Variable P : autonav -> Prop.
Variable W : world.

Lemma preserves_ret {A} (a : A) : preserves P (ret a).
Proof. intros m H. exact H. Qed.

Lemma preserves_bind {A B} (c : M A) (k : A -> M B) :
  preserves P c -> (forall a, preserves P (k a)) -> preserves P (bind c k).
Proof. intros Hc Hk m H. rewrite exec_bind. apply Hk, Hc, H. Qed.

Lemma preserves_modify f : (forall a, P a -> P (f a)) -> preserves P (modify f).
Proof. intros Hf m H. apply Hf, H. Qed.

Lemma preserves_gets {A} (f : autonav -> A) : preserves P (gets f).
Proof. intros m H. exact H. Qed.

Lemma preserves_nowUs : preserves P (nowUs W).
Proof. intros m H. exact H. Qed.

Lemma preserves_msSince t0 : preserves P (msSince W t0).
Proof. intros m H. exact H. Qed.

Lemma preserves_down init : preserves P (sensorsGetDownTofMm W init).
Proof. intros m H. exact H. Qed.

Lemma preserves_front init : preserves P (sensorsGetFrontTofMm W init).
Proof. intros m H. exact H. Qed.

Lemma preserves_commander sp t : preserves P (commanderSetSetpoint sp t).
Proof. intros m H. exact H. Qed.

Lemma preserves_send pk : preserves P (crtpSendPacketBlock pk).
Proof. intros m H. exact H. Qed.

Lemma preserves_crtp_start : preserves P autonav_crtp_start.
Proof.
  intros m H. unfold exec, autonav_crtp_start.
  destruct (crtp_started m); exact H.
Qed.

End Preserves.

(** Setting one of the statics that the controller does not use. *)
Lemma ctrl_ok_state v a : ctrl_ok a -> ctrl_ok (set_s_state v a).
Proof. intros H. exact H. Qed.

Lemma ctrl_ok_shape v a : ctrl_ok a -> ctrl_ok (set_s_shapeId v a).
Proof. intros H. exact H. Qed.

Lemma ctrl_ok_lastCmd v a : ctrl_ok a -> ctrl_ok (set_s_lastCmdUs v a).
Proof. intros H. exact H. Qed.

Lemma ctrl_ok_obstEnter v a : ctrl_ok a -> ctrl_ok (set_s_obstEnterUs v a).
Proof. intros H. exact H. Qed.

Lemma ctrl_ok_shapeStart v a : ctrl_ok a -> ctrl_ok (set_shapeStartUs v a).
Proof. intros H. exact H. Qed.

Lemma ctrl_ok_set_target a mm : ctrl_ok a -> ctrl_ok (set_s_targetAltMm (u16 mm) a).
Proof.
  unfold ctrl_ok. cbn [altFilt z_prevErr z_i s_targetAltMm set_s_targetAltMm].
  intros (H1 & H2 & H3 & H4 & H5 & _). pose proof (u16_range mm) as R.
  assert (R' : 0 <= u16 mm <= 65535) by lia.
  exact (conj H1 (conj H2 (conj H3 (conj H4 (conj H5 R'))))).
Qed.

Ltac keep_modify :=
  apply preserves_modify; intros ? ?;
  first [ apply ctrl_ok_state | apply ctrl_ok_shape | apply ctrl_ok_lastCmd
        | apply ctrl_ok_obstEnter | apply ctrl_ok_shapeStart
        | apply ctrl_ok_set_target ]; assumption.

Ltac keep :=
  repeat lazymatch goal with
    | |- preserves _ (bind _ _) => apply preserves_bind; [| intros ?]
    | |- preserves _ (ret _) => apply preserves_ret
    | |- preserves _ (gets _) => apply preserves_gets
    | |- preserves _ (modify _) => keep_modify
    | |- preserves _ (nowUs _) => apply preserves_nowUs
    | |- preserves _ (msSince _ _) => apply preserves_msSince
    | |- preserves _ (sensorsGetFrontTofMm _ _) => apply preserves_front
    | |- preserves _ (sensorsGetDownTofMm _ _) => apply preserves_down
    | |- preserves _ (commanderSetSetpoint _ _) => apply preserves_commander
    | |- preserves _ (crtpSendPacketBlock _) => apply preserves_send
    | |- preserves _ autonav_crtp_start => apply preserves_crtp_start
    | |- preserves _ (if ?b then _ else _) => destruct b
    | |- preserves _ (let (_, _) := ?p in _) => destruct p
    end.

Lemma keep_kick W : preserves ctrl_ok (autonavKickSafety W).
Proof. unfold autonavKickSafety. keep. Qed.

Lemma keep_start W shapeId : preserves ctrl_ok (autonavStartShape W shapeId).
Proof. unfold autonavStartShape. keep. apply keep_kick. Qed.

Lemma keep_stop : preserves ctrl_ok autonavStop.
Proof. unfold autonavStop. keep. Qed.

Lemma keep_set_target mm : preserves ctrl_ok (autonavSetTargetAltMm mm).
Proof. unfold autonavSetTargetAltMm. keep. Qed.

Lemma keep_enter : preserves ctrl_ok autonavEnterOverride.
Proof. unfold autonavEnterOverride. keep. Qed.

Lemma keep_exit W : preserves ctrl_ok (autonavExitOverride W).
Proof. unfold autonavExitOverride. keep. Qed.

Lemma keep_safety_check W : preserves ctrl_ok (safety_check W).
Proof. unfold safety_check. keep. Qed.

Lemma keep_zHold W : preserves ctrl_ok (zHoldThrustCmd W).
Proof. intros m H. apply zHoldThrustCmd_ok, H. Qed.

Lemma keep_state_case W st blocked hold sp :
  preserves ctrl_ok (state_case W st blocked hold sp).
Proof. unfold state_case, commandLand. destruct st; keep. Qed.

Lemma keep_update W tick : preserves ctrl_ok (autonavUpdate W tick).
Proof.
  unfold autonavUpdate.
  apply preserves_bind; [apply keep_safety_check | intros _].
  apply preserves_bind; [apply keep_zHold | intros zh].
  apply preserves_bind; [apply preserves_front | intros fr]. destruct fr as [ok mm].
  apply preserves_bind; [apply preserves_gets | intros st].
  destruct (state_eqb st AUTONAV_OVERRIDE); [apply keep_kick|].
  apply preserves_bind; [apply keep_state_case | intros sp].
  apply preserves_commander.
Qed.

(** [autonavInit] puts the controller back to its initial values. *)
Lemma keep_init W m : ctrl_ok (eng (exec (autonavInit W) m)).
Proof.
  assert (E : altFilt (eng (exec (autonavInit W) m)) = F32.of_Z 1200
              /\ z_prevErr (eng (exec (autonavInit W) m)) = F32.zero
              /\ z_i (eng (exec (autonavInit W) m)) = F32.zero
              /\ s_targetAltMm (eng (exec (autonavInit W) m)) = 1200).
  { unfold autonavInit. rewrite !exec_bind.
    unfold exec at 1 2 3 4. unfold eval at 1 2 3 4.
    unfold gets at 1 2 3 4. cbn [fst snd].
    unfold modify at 1 2 3 4. cbn [snd eng altFilt z_prevErr z_i s_targetAltMm set_altFilt].
    repeat split;
      repeat (unfold exec at 1; unfold modify at 1;
              cbn [snd eng set_z_prevErr set_z_i set_s_obstEnterUs set_s_lastCmdUs
                   set_s_shapeId set_s_targetAltMm set_s_state
                   altFilt z_prevErr z_i s_targetAltMm]);
      reflexivity. }
  destruct E as (E1 & E2 & E3 & E4).
  pose proof ctrl_ok_statics as H. unfold ctrl_ok in *.
  rewrite E1, E2, E3, E4. exact H.
Qed.

Lemma keep_dispatch W pk cmd : preserves ctrl_ok (dispatch W pk cmd).
Proof.
  unfold dispatch.
  repeat match goal with
         | |- preserves _ (if ?b then _ else _) => destruct b
         end.
  all: try (apply preserves_bind;
            [first [apply keep_stop | apply keep_start | apply keep_set_target
                   | apply keep_enter]
            | intros _; apply keep_kick]).
  all: first [apply keep_kick | apply preserves_ret].
Qed.

Lemma keep_packet W pk : preserves ctrl_ok (autonav_handle_packet W pk).
Proof.
  unfold autonav_handle_packet. destruct pk as [pk |]; [|apply preserves_ret].
  destruct (negb (port pk =? AUTONAV_CRTP_PORT) || negb (channel pk =? AUTONAV_CRTP_CH));
    [apply preserves_ret|].
  destruct (size pk <? 1); [apply preserves_ret|].
  apply preserves_bind; [apply keep_dispatch | intros _].
  unfold autonavGetState. keep.
Qed.

Lemma keep_call W c : preserves ctrl_ok (do_call W c).
Proof.
  destruct c; cbn [do_call].
  - intros m _. apply keep_init.
  - apply keep_update.
  - apply keep_start.
  - apply keep_stop.
  - apply keep_kick.
  - apply keep_set_target.
  - apply keep_enter.
  - apply keep_exit.
  - apply keep_packet.
Qed.

Lemma keep_calls W cs : preserves ctrl_ok (do_calls W cs).
Proof.
  induction cs as [| c cs IH]; cbn [do_calls].
  - apply preserves_ret.
  - apply preserves_bind; [apply keep_call | intros _; exact IH].
Qed.

(** X1.  Whatever the engine and the handler have been called with
    since start-up, whatever the sensors and the clock have answered and
    whatever target altitudes were set, a control step leaves the integral
    accumulator between -400 and 400 and computes a hold thrust between
    20000 and 65000; so it does in particular on a valid down-sensor
    reading. *)
Theorem controller_clamps_invariant (W : world) (cs : list call) (tick : Z) :
  let m := exec (do_calls W cs) boot in
  let m' := exec (autonavUpdate W tick) m in
  F32.leb (F32.opp (F32.of_Z 400)) (z_i (eng m')) = true
  /\ F32.leb (z_i (eng m')) (F32.of_Z 400) = true
  /\ 20000 <= hold_thrust W m <= 65000.
Proof.
  intros m m'.
  assert (H : ctrl_ok (eng m)).
  { subst m. apply keep_calls. exact ctrl_ok_statics. }
  pose proof (keep_update W tick m H) as H'. fold m' in H'.
  destruct H' as (_ & _ & _ & L1 & L2 & _).
  split; [exact L1|]. split; [exact L2|].
  unfold hold_thrust. apply zHoldThrustCmd_ok. apply keep_safety_check. exact H.
Qed.

(** * Further properties of the code *)

(** ** What the entry points leave alone *)

(** [c] leaves the component [f] of the machine as it was. *)
Definition leaves {X} (f : machine -> X) {A} (c : M A) : Prop :=
  forall m, f (exec c m) = f m.

Lemma leaves_bind {X} (f : machine -> X) {A B} (c : M A) (k : A -> M B) :
  leaves f c -> (forall a, leaves f (k a)) -> leaves f (bind c k).
Proof. intros Hc Hk m. rewrite exec_bind, Hk. apply Hc. Qed.

Ltac leave :=
  repeat lazymatch goal with
    | |- leaves _ (bind _ _) => apply leaves_bind; [| intros ?]
    | |- leaves _ (if ?b then _ else _) => destruct b
    | |- leaves _ (let (_, _) := ?p in _) => destruct p
    | |- leaves _ (match ?o with Some _ => _ | None => _ end) => destruct o
    | |- leaves _ (state_case _ ?st _ _ _) => unfold state_case; destruct st
    | |- leaves _ autonav_crtp_start =>
        intros ?; unfold exec, autonav_crtp_start;
        destruct (crtp_started _); reflexivity
    | |- leaves _ (autonavKickSafety _) => unfold autonavKickSafety
    | |- leaves _ autonavStop => unfold autonavStop
    | |- leaves _ (autonavStartShape _ _) => unfold autonavStartShape
    | |- leaves _ (autonavSetTargetAltMm _) => unfold autonavSetTargetAltMm
    | |- leaves _ autonavEnterOverride => unfold autonavEnterOverride
    | |- leaves _ (autonavExitOverride _) => unfold autonavExitOverride
    | |- leaves _ autonavGetState => unfold autonavGetState
    | |- leaves _ (autonavInit _) => unfold autonavInit
    | |- leaves _ (msSince _ _) => unfold msSince
    | |- leaves _ (safety_check _) => unfold safety_check
    | |- leaves _ (zHoldThrustCmd _) => unfold zHoldThrustCmd
    | |- leaves _ commandLand => unfold commandLand
    | |- leaves _ (autonavUpdate _ _) => unfold autonavUpdate
    | |- leaves _ (dispatch _ _ _) => unfold dispatch
    | |- leaves _ (autonav_handle_packet _ _) => unfold autonav_handle_packet
    | |- leaves _ _ => intros ?; reflexivity
    end.

(** Only [autonavUpdate] hands setpoints to the commander. *)
Lemma call_leaves_commanded W c :
  (forall tick, c <> CallUpdate tick) -> leaves commanded (do_call W c).
Proof.
  intros H. destruct c; cbn [do_call]; try (leave; fail).
  exfalso. apply (H tickMs). reflexivity.
Qed.

(** Only the handler sends packets. *)
Lemma update_leaves_sent W tick : leaves crtp_sent (autonavUpdate W tick).
Proof. leave. Qed.

(** A trajectory writes the two horizontal velocities and nothing else. *)
Lemma shape_velocity_rest W shapeId tMs sp :
  velocity_z (shape_velocity W shapeId tMs sp) = velocity_z sp
  /\ velocity_body (shape_velocity W shapeId tMs sp) = velocity_body sp
  /\ velocity_valid (shape_velocity W shapeId tMs sp) = velocity_valid sp.
Proof.
  unfold shape_velocity.
  repeat match goal with
         | |- context [match ?x with _ => _ end] =>
             lazymatch x with
             | context [match _ with _ => _ end] => fail
             | _ => destruct x
             end
         end; repeat split; reflexivity.
Qed.

(** The setpoint of a control step: none, or one that carries the tick,
    whose thrust is 0 or the hold thrust and in which nothing but the
    thrust and the horizontal velocity has been written. *)
Lemma update_commanded W tick m :
  let m' := exec (autonavUpdate W tick) m in
  let st := s_state (eng (exec (safety_check W) m)) in
  (st = AUTONAV_OVERRIDE -> commanded m' = commanded m)
  /\ (st <> AUTONAV_OVERRIDE ->
      exists sp,
        commanded m' = (sp, u32 tick) :: commanded m
        /\ (thrust sp = 0 \/ thrust sp = hold_thrust W m)
        /\ velocity_z sp = F32.zero
        /\ velocity_body sp = false
        /\ velocity_valid sp = false).
Proof.
  intros m' st. subst m' st. rewrite safety_check_state.
  unfold hold_thrust. run_update. cbn. rewrite elapsed_at_entry_eq.
  destruct (safety_expired (elapsed_at_entry W m) (s_state (eng m))) eqn:Ex.
  all: destruct (s_state (eng m)) eqn:Est.
  all: split; [intros Ho; try discriminate | intros Hn; try congruence].
  all: crunch.
  all: try reflexivity.
  all: try (eexists; split; [reflexivity|]; cbn; auto; fail).
  all: eexists; split; [reflexivity|].
  all: rewrite shape_velocity_thrust.
  all: match goal with
       | |- context [shape_velocity ?W ?i ?t ?sp] =>
           destruct (shape_velocity_rest W i t sp) as (R1 & R2 & R3);
           rewrite R1, R2, R3
       end.
  all: cbn; auto.
Qed.

(** The hold thrust of a control step is within the clamp as long as the
    controller's statics are. *)
Lemma hold_thrust_clamped W m :
  ctrl_ok (eng m) -> 20000 <= hold_thrust W m <= 65000.
Proof.
  intros H. unfold hold_thrust. apply zHoldThrustCmd_ok.
  apply keep_safety_check. exact H.
Qed.

(** What the engine may hand to the commander: a thrust that is 0 or
    within the clamp, and nothing written besides the thrust and the two
    horizontal velocities. *)
Definition engine_setpoint (c : setpoint_t * Z) : Prop :=
  (thrust (fst c) = 0 \/ 20000 <= thrust (fst c) <= 65000)
  /\ velocity_z (fst c) = F32.zero
  /\ velocity_body (fst c) = false
  /\ velocity_valid (fst c) = false.

Lemma call_keeps_setpoints W c m :
  ctrl_ok (eng m) -> Forall engine_setpoint (commanded m) ->
  Forall engine_setpoint (commanded (exec (do_call W c) m)).
Proof.
  intros Hc Hf.
  assert (D : (exists tick, c = CallUpdate tick) \/ forall tick, c <> CallUpdate tick).
  { destruct c; try (right; intros; discriminate). left. eexists. reflexivity. }
  destruct D as [(tick & ->) | D].
  - cbn [do_call].
    destruct (update_commanded W tick m) as (U1 & U2).
    destruct (s_state (eng (exec (safety_check W) m))) eqn:Est.
    all: try (rewrite U1 by reflexivity; exact Hf).
    all: destruct U2 as (sp & E & Ht & Hz & Hb & Hv); [discriminate|].
    all: rewrite E; constructor; [|exact Hf].
    all: unfold engine_setpoint; cbn [fst].
    all: pose proof (hold_thrust_clamped W m Hc).
    all: repeat split; try assumption.
    all: destruct Ht as [Ht | Ht]; rewrite Ht; auto.
  - rewrite (call_leaves_commanded W c D). exact Hf.
Qed.

Lemma calls_keep_setpoints W cs m :
  ctrl_ok (eng m) -> Forall engine_setpoint (commanded m) ->
  Forall engine_setpoint (commanded (exec (do_calls W cs) m)).
Proof.
  revert m. induction cs as [| c cs IH]; intros m Hc Hf; cbn [do_calls].
  - exact Hf.
  - rewrite exec_bind. apply IH.
    + apply keep_call. exact Hc.
    + apply call_keeps_setpoints; assumption.
Qed.

(** X2.  Whatever the engine and the handler are called with from
    start-up on, every setpoint that reaches the commander has a thrust of
    0 or one between 20000 and 65000, a zero vertical velocity, and the
    flags [velocity_body] and [velocity_valid] cleared. *)
Theorem commanded_setpoints_are_clamped (W : world) (cs : list call) :
  Forall engine_setpoint (commanded (exec (do_calls W cs) boot)).
Proof.
  apply calls_keep_setpoints; [exact ctrl_ok_statics | constructor].
Qed.

(** X3.  A control step reads the down-facing sensor once and the
    forward sensor once in every state, the clock once or twice, hands the
    commander at most one setpoint and sends no packet. *)
Theorem update_polls_each_sensor_once (W : world) (tick : Z) (m : machine) :
  let m' := exec (autonavUpdate W tick) m in
  n_down m' = S (n_down m)
  /\ n_front m' = S (n_front m)
  /\ (n_clock m' = S (n_clock m) \/ n_clock m' = S (S (n_clock m)))
  /\ (length (commanded m') <= S (length (commanded m)))%nat
  /\ crtp_sent m' = crtp_sent m.
Proof.
  intros m'. subst m'. run_update. cbn.
  destruct (safety_expired _ _).
  all: destruct (s_state (eng m)) eqn:Est.
  all: crunch.
  all: repeat split; auto.
Qed.

(** X4.  A control step whose safety check leaves the state at OVERRIDE
    hands nothing to the commander; every other step hands it exactly one
    setpoint, stamped with the tick it was called with, whose thrust is 0
    or the hold thrust of the step. *)
Theorem update_emits_unless_override (W : world) (tick : Z) (m : machine) :
  let m' := exec (autonavUpdate W tick) m in
  let st := s_state (eng (exec (safety_check W) m)) in
  (st = AUTONAV_OVERRIDE -> commanded m' = commanded m)
  /\ (st <> AUTONAV_OVERRIDE ->
      exists sp,
        commanded m' = (sp, u32 tick) :: commanded m
        /\ (thrust sp = 0 \/ thrust sp = hold_thrust W m)).
Proof.
  intros m' st. destruct (update_commanded W tick m) as (U1 & U2).
  split; [exact U1|]. intros H.
  destruct (U2 H) as (sp & E & Ht & _). exists sp. split; assumption.
Qed.

(** X5.  The control step that detects the obstacle hands the commander
    an all-zero setpoint: in RUNNING with the safety timer alive and a
    valid forward reading below 800 mm, the thrust sent is 0, not the hold
    thrust that the step has computed, and the state becomes
    HOLD_OBSTACLE. *)
Theorem obstacle_entry_cuts_thrust (W : world) (tick : Z) (m : machine) :
  elapsed_at_entry W m <= SAFETY_TIMEOUT_MS ->
  s_state (eng m) = AUTONAV_RUNNING ->
  front_blocked W m = true ->
  let m' := exec (autonavUpdate W tick) m in
  commanded m' = (setpoint_zero, u32 tick) :: commanded m
  /\ s_state (eng m') = AUTONAV_HOLD_OBSTACLE.
Proof.
  intros H Est Hb m'. subst m'.
  unfold front_blocked in Hb.
  destruct (tof_result 65535 (front_tof W (n_front m))) as [ok fm] eqn:Ef.
  run_update. cbn. rewrite elapsed_at_entry_eq.
  rewrite (safety_expired_false _ _ H).
  crunch_by ltac:(first [rewrite Ef | rewrite Hb]).
  all: split; reflexivity.
Qed.

Lemma obstacle_entry_cuts_thrust_witness :
  let W := constant_world 1000000 (TofValid 1200) (TofValid 500) in
  commanded (exec (autonavUpdate W 10) (with_state AUTONAV_RUNNING boot))
  = [(setpoint_zero, 10)].
Proof.
  intros W.
  refine (proj1 (obstacle_entry_cuts_thrust W 10
                   (with_state AUTONAV_RUNNING boot) _ eq_refl eq_refl)).
  vm_compute. discriminate.
Defined.

(** One control step in LANDED. *)
Lemma update_landed_step W tick m :
  s_state (eng m) = AUTONAV_LANDED ->
  let m' := exec (autonavUpdate W tick) m in
  s_state (eng m') = AUTONAV_LANDED
  /\ commanded m' = (setpoint_zero, u32 tick) :: commanded m
  /\ s_lastCmdUs (eng m') = s_lastCmdUs (eng m).
Proof.
  intros Est m'. subst m'. run_update. cbn. unfold safety_expired. rewrite Est.
  rewrite andb_false_r.
  crunch; repeat split; congruence.
Qed.

(** X6.  LANDED is final for the control step: however many steps
    follow and whatever the clock and the sensors say, the state stays
    LANDED, every step hands the commander an all-zero setpoint, and the
    safety timer is left alone. *)
Theorem landed_is_absorbing (W : world) (ticks : list Z) (m : machine) :
  s_state (eng m) = AUTONAV_LANDED ->
  let m' := exec (autonavUpdates W ticks) m in
  s_state (eng m') = AUTONAV_LANDED
  /\ commanded m' = rev (map (fun t => (setpoint_zero, u32 t)) ticks) ++ commanded m
  /\ s_lastCmdUs (eng m') = s_lastCmdUs (eng m).
Proof.
  revert m. induction ticks as [| t ticks IH]; intros m Est m'; subst m'.
  - cbn. auto.
  - rewrite updates_cons.
    destruct (update_landed_step W t m Est) as (E1 & E2 & E3).
    destruct (IH _ E1) as (I1 & I2 & I3).
    split; [exact I1|]. split; [|congruence].
    rewrite I2, E2. cbn [map rev]. rewrite <- app_assoc. reflexivity.
Qed.

Lemma landed_is_absorbing_witness :
  let m' := exec (autonavUpdates slow_world [0; 20000; 40000])
                 (with_state AUTONAV_LANDED boot) in
  s_state (eng m') = AUTONAV_LANDED
  /\ commanded m' = [(setpoint_zero, 40000); (setpoint_zero, 20000); (setpoint_zero, 0)].
Proof.
  cbv zeta.
  destruct (landed_is_absorbing slow_world [0; 20000; 40000]
              (with_state AUTONAV_LANDED boot) eq_refl) as (H1 & H2 & _).
  split; [exact H1 | exact H2].
Defined.

(** X7.  The altitude controller runs in every state: a control step
    that gets a valid down-sensor reading advances the filtered altitude,
    the integral and the previous error by one filter and PID step, also
    in IDLE, LANDED and OVERRIDE, where the thrust it computes is not
    sent. *)
Theorem controller_runs_in_every_state (W : world) (tick mm : Z) (m : machine) :
  down_tof W (n_down m) = TofValid mm ->
  let m' := exec (autonavUpdate W tick) m in
  let a' := fst (z_hold_step (u16 mm) (eng m)) in
  altFilt (eng m') = altFilt a'
  /\ z_i (eng m') = z_i a'
  /\ z_prevErr (eng m') = z_prevErr a'.
Proof.
  intros Hd m' a'. subst m' a'. run_update. cbn.
  destruct (safety_expired _ _).
  all: cbn; rewrite Hd.
  all: destruct (s_state (eng m)) eqn:Est.
  all: crunch.
  all: repeat split; reflexivity.
Qed.

Lemma controller_runs_in_every_state_witness :
  let W := constant_world 1000000 (TofValid 1000) (TofValid 2000) in
  let m' := exec (autonavUpdate W 0) boot in
  s_state (eng m') = AUTONAV_IDLE
  /\ z_prevErr (eng m') = z_prevErr (fst (z_hold_step (u16 1000) (eng boot)))
  /\ z_prevErr (eng m') <> z_prevErr (eng boot).
Proof.
  intros W m'.
  destruct (controller_runs_in_every_state W 0 1000 boot eq_refl) as (_ & _ & H).
  split; [vm_compute; reflexivity|]. split; [exact H|].
  vm_compute. discriminate.
Defined.

(** X8.  [autonavStartShape] starts a flight from any state, LANDED and
    OVERRIDE included: if the control step that follows comes within the
    safety timeout and finds the path free, it stays in RUNNING and hands
    the commander the hold thrust with the velocity of shape
    [shapeId mod 256] at the time elapsed since the first of the two clock
    readings that [autonavStartShape] took. *)
Theorem start_shape_then_update (W : world) (shapeId tick : Z) (m : machine) :
  let k := n_clock m in
  let m1 := exec (autonavStartShape W shapeId) m in
  let m2 := exec (autonavUpdate W tick) m1 in
  ms_between (clock_at W (S (S k))) (clock_at W (S k)) <= SAFETY_TIMEOUT_MS ->
  front_blocked W m = false ->
  s_state (eng m1) = AUTONAV_RUNNING
  /\ s_state (eng m2) = AUTONAV_RUNNING
  /\ exists sp,
       commanded m2 = (sp, u32 tick) :: commanded m
       /\ thrust sp = hold_thrust W m1
       /\ (velocity_x sp, velocity_y sp)
          = emitted_velocity W (u8 shapeId)
              (ms_between (clock_at W (S (S (S k)))) (clock_at W k)).
Proof.
  intros k m1 m2 Hal Hfree. subst k.
  assert (E1 : s_state (eng m1) = AUTONAV_RUNNING) by reflexivity.
  split; [exact E1|].
  assert (Hal' : elapsed_at_entry W m1 <= SAFETY_TIMEOUT_MS) by exact Hal.
  assert (Hf' : front_blocked W m1 = false) by exact Hfree.
  destruct (update_running_clear W tick m1 Hal' E1 Hf') as (R1 & sp & R2 & R3 & R4).
  split; [exact R1|]. exists sp. split; [exact R2|]. split; [exact R3|]. exact R4.
Qed.

Lemma start_shape_then_update_witness :
  let W := constant_world 1000000 (TofValid 1200) (TofValid 2000) in
  let m := with_state AUTONAV_LANDED boot in
  s_state (eng (exec (autonavUpdate W 0) (exec (autonavStartShape W 1) m)))
  = AUTONAV_RUNNING.
Proof.
  intros W m.
  refine (proj1 (proj2 (start_shape_then_update W 1 0 m _ eq_refl))).
  vm_compute. discriminate.
Defined.

(** ** The handler, command by command *)

(** The dispatch touches neither the sensors, nor the commander, nor the
    link. *)
Lemma dispatch_leaves W pk cmd :
  leaves n_down (dispatch W pk cmd)
  /\ leaves commanded (dispatch W pk cmd)
  /\ leaves crtp_sent (dispatch W pk cmd).
Proof. repeat split; leave. Qed.

(** An accepted packet: the dispatch, then one reading of the down-facing
    sensor and one status reply. *)
Lemma handle_after_dispatch W pk m :
  addressed pk ->
  let md := exec (dispatch W pk (data_at pk 0)) m in
  let m' := exec (autonav_handle_packet W (Some pk)) m in
  eng m' = eng md
  /\ n_clock m' = n_clock md
  /\ n_down m' = S (n_down m)
  /\ commanded m' = commanded m
  /\ crtp_sent m' = status_reply W (exec (modify (fun _ => eng md)) m) :: crtp_sent m.
Proof.
  intros Ha md m'.
  destruct (dispatch_leaves W pk (data_at pk 0)) as (L1 & L2 & L3).
  assert (E : m' = exec (st <- autonavGetState ;;
                         r <- sensorsGetDownTofMm W 0 ;;
                         crtpSendPacketBlock
                           {| port := AUTONAV_CRTP_PORT; channel := AUTONAV_CRTP_CH;
                              size := 3; data := status_bytes st (snd r) |}) md).
  { subst m' md. unfold exec at 1. rewrite (handle_addressed W pk m Ha).
    fold (exec (dispatch W pk (data_at pk 0) ;;
                st <- autonavGetState ;;
                r <- sensorsGetDownTofMm W 0 ;;
                crtpSendPacketBlock
                  {| port := AUTONAV_CRTP_PORT; channel := AUTONAV_CRTP_CH;
                     size := 3; data := status_bytes st (snd r) |}) m).
    rewrite exec_bind. reflexivity. }
  rewrite E. unfold status_reply. cbn.
  rewrite <- (L1 m), <- (L2 m), <- (L3 m). fold md.
  repeat split; reflexivity.
Qed.

(** The two altitude bytes of a status reply read back as the altitude. *)
Lemma status_altitude_bytes alt :
  0 <= alt < 65536 -> u16le (u8 alt) (u8 (Z.shiftr alt 8)) = alt.
Proof.
  intros H. rewrite Z.shiftr_div_pow2 by lia. change (2 ^ 8) with 256.
  assert (H1 : 0 <= alt / 256 < 256).
  { split; [apply Z.div_pos; lia | apply Z.div_lt_upper_bound; lia]. }
  rewrite (u8_small (alt / 256)) by exact H1.
  unfold u8 at 1. change (2 ^ 8) with 256.
  rewrite u16le_value; [| apply Z.mod_pos_bound; lia | exact H1].
  pose proof (Z.div_mod alt 256 ltac:(lia)). lia.
Qed.

Lemma tof_result_range init r : 0 <= init < 65536 -> 0 <= snd (tof_result init r) < 65536.
Proof.
  intros H. destruct r as [mm | [mm |]]; cbn [tof_result snd];
    first [apply u16_range | exact H].
Qed.

Lemma state_code_byte st : u8 (state_code st) = state_code st.
Proof. destruct st; reflexivity. Qed.

(** X9.  Every accepted packet, whatever its command, is answered by
    exactly one status packet on port 13, channel 0, of three bytes: the
    code of the state after the command, then the low and the high byte of
    what the down-facing driver left in the altitude, which decode
    little-endian to that value (0 when the driver stored nothing).  The
    handler reads that sensor once and hands nothing to the commander. *)
Theorem accepted_packet_gets_one_reply (W : world) (pk : CRTPPacket) (m : machine) :
  addressed pk ->
  let m' := exec (autonav_handle_packet W (Some pk)) m in
  let alt := snd (tof_result 0 (down_tof W (n_down m))) in
  exists lo hi,
    crtp_sent m' =
      {| port := 13; channel := 0; size := 3;
         data := [state_code (s_state (eng m')); lo; hi] |} :: crtp_sent m
    /\ 0 <= lo < 256 /\ 0 <= hi < 256
    /\ u16le lo hi = alt
    /\ n_down m' = S (n_down m)
    /\ commanded m' = commanded m.
Proof.
  intros Ha m' alt.
  destruct (handle_after_dispatch W pk m Ha) as (E1 & _ & E3 & E4 & E5).
  exists (u8 alt), (u8 (Z.shiftr alt 8)).
  split.
  - fold m' in E5. rewrite E5. fold m' in E1. rewrite E1.
    unfold status_reply, status_bytes. cbn [eng exec modify snd n_down].
    rewrite state_code_byte. reflexivity.
  - split; [apply u8_range|]. split; [apply u8_range|].
    split; [|split; assumption].
    apply status_altitude_bytes. apply tof_result_range. lia.
Qed.

Lemma accepted_packet_gets_one_reply_witness :
  let W := constant_world 0 (TofValid 1234) (TofValid 2000) in
  let pk := {| port := 13; channel := 0; size := 1; data := [1] |} in
  exists lo hi,
    crtp_sent (exec (autonav_handle_packet W (Some pk)) boot)
    = [{| port := 13; channel := 0; size := 3; data := [1; lo; hi] |}]
    /\ u16le lo hi = 1234.
Proof.
  intros W pk.
  assert (Ha : addressed pk) by (cbv; repeat split; discriminate).
  destruct (accepted_packet_gets_one_reply W pk boot Ha)
    as (lo & hi & H1 & _ & _ & H2 & _).
  exists lo, hi. split; [exact H1 | exact H2].
Defined.

(** X10.  A SET_ALTITUDE_MM packet that is too short for its argument
    (fewer than three bytes) changes nothing in the engine and, unlike
    every other known command, does not refresh the safety timer; the
    status reply is sent all the same. *)
Theorem short_set_altitude_is_ignored (W : world) (pk : CRTPPacket) (m : machine) :
  addressed pk ->
  data_at pk 0 = AUTONAV_CMD_SET_ALT_MM ->
  size pk < 3 ->
  let m' := exec (autonav_handle_packet W (Some pk)) m in
  eng m' = eng m
  /\ n_clock m' = n_clock m
  /\ crtp_sent m' = status_reply W m :: crtp_sent m.
Proof.
  intros Ha Hc Hs m'.
  destruct (handle_after_dispatch W pk m Ha) as (E1 & E2 & _ & _ & E5).
  assert (D : exec (dispatch W pk (data_at pk 0)) m = m).
  { unfold dispatch. rewrite Hc. cbn [AUTONAV_CMD_SET_ALT_MM Z.eqb AUTONAV_CMD_STOP
      AUTONAV_CMD_SQUARE AUTONAV_CMD_RECT AUTONAV_CMD_OVAL AUTONAV_CMD_TRI Pos.eqb].
    destruct (3 <=? size pk) eqn:E; [apply Z.leb_le in E; lia | reflexivity]. }
  fold m' in E1, E2, E5. rewrite D in E1, E2, E5.
  split; [exact E1|]. split; [exact E2|]. rewrite E5. reflexivity.
Qed.

Lemma short_set_altitude_is_ignored_witness :
  let W := constant_world 7000000 (TofValid 1200) (TofValid 2000) in
  let pk := {| port := 13; channel := 0; size := 2; data := [5; 176] |} in
  eng (exec (autonav_handle_packet W (Some pk)) boot) = eng boot.
Proof.
  intros W pk.
  refine (proj1 (short_set_altitude_is_ignored W pk boot _ eq_refl _)).
  - cbv. repeat split; discriminate.
  - cbn. lia.
Defined.

(** ** Trajectories of the other shapes *)

Lemma u32_small z : 0 <= z < 2 ^ 32 -> u32 z = z.
Proof. intros H. unfold u32. apply Z.mod_small. exact H. Qed.

Lemma segment_small t : 0 <= t < 2 ^ 32 -> u32 (t / 3000) = t / 3000.
Proof.
  intros H. apply u32_small. split.
  - apply Z.div_pos; lia.
  - apply Z.div_lt_upper_bound; lia.
Qed.

Lemma rectangle_segment W t :
  0 <= t < 2 ^ 32 ->
  emitted_velocity W 2 t =
  let seg := (t / 3000) mod 4 in
  if seg =? 0 then (SHAPE_SPEED, F32.zero)
  else if seg =? 1 then (F32.zero, F32.div SHAPE_SPEED (F32.of_Z 2))
  else if seg =? 2 then (F32.opp SHAPE_SPEED, F32.zero)
  else (F32.zero, F32.div (F32.opp SHAPE_SPEED) (F32.of_Z 2)).
Proof.
  intros Ht. unfold emitted_velocity, shape_velocity, SEGMENT_TIME_MS.
  rewrite (u32_small t Ht), (segment_small t Ht). cbv zeta.
  assert (Hs : 0 <= (t / 3000) mod 4 < 4) by (apply Z.mod_pos_bound; lia).
  assert (Hc : (t / 3000) mod 4 = 0 \/ (t / 3000) mod 4 = 1
               \/ (t / 3000) mod 4 = 2 \/ (t / 3000) mod 4 = 3) by lia.
  destruct Hc as [E | [E | [E | E]]]; rewrite E; reflexivity.
Qed.

Lemma triangle_segment W t :
  0 <= t < 2 ^ 32 ->
  emitted_velocity W 3 t =
  let seg := (t / 3000) mod 3 in
  if seg =? 0 then (SHAPE_SPEED, F32.zero)
  else if seg =? 1 then
    (F32.div (F32.opp SHAPE_SPEED) (F32.of_Z 2),
     F32.mul SHAPE_SPEED (F32.lit 87 100))
  else
    (F32.div (F32.opp SHAPE_SPEED) (F32.of_Z 2),
     F32.mul (F32.opp SHAPE_SPEED) (F32.lit 87 100)).
Proof.
  intros Ht. unfold emitted_velocity, shape_velocity, SEGMENT_TIME_MS.
  rewrite (u32_small t Ht), (segment_small t Ht). cbv zeta.
  assert (Hs : 0 <= (t / 3000) mod 3 < 3) by (apply Z.mod_pos_bound; lia).
  assert (Hc : (t / 3000) mod 3 = 0 \/ (t / 3000) mod 3 = 1
               \/ (t / 3000) mod 3 = 2) by lia.
  destruct Hc as [E | [E | E]]; rewrite E; reflexivity.
Qed.

Lemma segment_shift x n :
  0 <= n -> (x + n * 3000) / 3000 = x / 3000 + n.
Proof. intros H. rewrite Z.div_add by lia. reflexivity. Qed.

(** X11.  As long as the elapsed time fits the 32-bit [tMs], the
    rectangle repeats every 12000 ms and the triangle every 9000 ms, each
    velocity being held for a 3000 ms segment: the rectangle's short sides
    run at half the speed of its long ones, and the triangle's second and
    third legs at (-0.1, +0.174) and (-0.1, -0.174). *)
Theorem rectangle_and_triangle_periodic (W : world) (x : Z) :
  0 <= x ->
  (x + 12000 < 2 ^ 32 ->
     emitted_velocity W 2 (x + 12000) = emitted_velocity W 2 x)
  /\ (x + 9000 < 2 ^ 32 ->
     emitted_velocity W 3 (x + 9000) = emitted_velocity W 3 x)
  /\ (x < 2 ^ 32 ->
     emitted_velocity W 2 x = emitted_velocity W 2 (3000 * (x / 3000))
     /\ emitted_velocity W 3 x = emitted_velocity W 3 (3000 * (x / 3000)))
  /\ emitted_velocity W 2 3000 = (F32.zero, S754_finite false 13421773 (-27))
  /\ emitted_velocity W 2 9000 = (F32.zero, S754_finite true 13421773 (-27))
  /\ emitted_velocity W 3 3000
     = (S754_finite true 13421773 (-27), S754_finite false 11676943 (-26))
  /\ emitted_velocity W 3 6000
     = (S754_finite true 13421773 (-27), S754_finite true 11676943 (-26)).
Proof.
  intros Hx.
  split; [intros Hb | split; [intros Hb | split; [intros Hb |]]].
  - rewrite !rectangle_segment by lia. cbv zeta.
    replace (x + 12000) with (x + 4 * 3000) by lia.
    rewrite segment_shift by lia.
    replace (x / 3000 + 4) with (x / 3000 + 1 * 4) by lia.
    rewrite Z.mod_add by lia. reflexivity.
  - rewrite !triangle_segment by lia. cbv zeta.
    replace (x + 9000) with (x + 3 * 3000) by lia.
    rewrite segment_shift by lia.
    replace (x / 3000 + 3) with (x / 3000 + 1 * 3) by lia.
    rewrite Z.mod_add by lia. reflexivity.
  - assert (Hq : 0 <= 3000 * (x / 3000) <= x).
    { pose proof (Z.mul_div_le x 3000 ltac:(lia)).
      pose proof (Z.div_pos x 3000 Hx ltac:(lia)). lia. }
    assert (Hd : 3000 * (x / 3000) / 3000 = x / 3000).
    { rewrite Z.mul_comm. apply Z.div_mul. lia. }
    rewrite !rectangle_segment, !triangle_segment by lia. cbv zeta.
    rewrite Hd. split; reflexivity.
  - repeat split; vm_compute; reflexivity.
Qed.

Lemma rectangle_and_triangle_periodic_witness :
  let W := constant_world 0 (TofValid 1200) (TofValid 2000) in
  emitted_velocity W 2 (3500 + 12000) = emitted_velocity W 2 3500
  /\ emitted_velocity W 3 (3500 + 9000) = emitted_velocity W 3 3500.
Proof.
  intros W.
  destruct (rectangle_and_triangle_periodic W 3500 ltac:(lia)) as (H1 & H2 & _).
  split; [apply H1; lia | apply H2; lia].
Defined.

(** The sum of the velocities of [n] consecutive segments of a shape,
    the first of which contains the time [t]. *)
Fixpoint segment_sum (W : world) (shapeId t : Z) (n : nat) : F32.t * F32.t :=
  match n with
  | O => (F32.zero, F32.zero)
  | S n' =>
      let v := emitted_velocity W shapeId t in
      let s := segment_sum W shapeId (t + 3000) n' in
      (F32.add (fst v) (fst s), F32.add (snd v) (snd s))
  end.

(** X12.  Each polygon is closed as long as the elapsed time fits the
    32-bit [tMs]: for every time [t] with [t + 12000 < 2^32], the
    velocities of the four segments of the square and of the rectangle,
    and of the three segments of the triangle, that start with the one
    containing [t] add up to exactly zero in [float] arithmetic, so that
    equal segment times bring the vehicle back to where it was. *)
Theorem polygons_are_closed (W : world) (t : Z) :
  0 <= t -> t + 12000 < 2 ^ 32 ->
  segment_sum W 1 t 4 = (F32.zero, F32.zero)
  /\ segment_sum W 2 t 4 = (F32.zero, F32.zero)
  /\ segment_sum W 3 t 3 = (F32.zero, F32.zero).
Proof.
  intros H0 H1. cbn [segment_sum].
  replace (t + 3000 + 3000 + 3000) with (t + 3 * 3000) by lia.
  replace (t + 3000 + 3000) with (t + 2 * 3000) by lia.
  replace (t + 3000) with (t + 1 * 3000) by lia.
  rewrite !square_segment, !rectangle_segment, !triangle_segment by lia.
  cbv zeta. rewrite !segment_shift by lia.
  assert (Hq : 0 <= t / 3000) by (apply Z.div_pos; lia).
  assert (H4 : 0 <= (t / 3000) mod 4 < 4) by (apply Z.mod_pos_bound; lia).
  assert (H3 : 0 <= (t / 3000) mod 3 < 3) by (apply Z.mod_pos_bound; lia).
  assert (A4 : forall n, (t / 3000 + n) mod 4 = ((t / 3000) mod 4 + n) mod 4).
  { intros n. rewrite Z.add_mod_idemp_l by lia. reflexivity. }
  assert (A3 : forall n, (t / 3000 + n) mod 3 = ((t / 3000) mod 3 + n) mod 3).
  { intros n. rewrite Z.add_mod_idemp_l by lia. reflexivity. }
  rewrite !A4, !A3.
  assert (M4 : (t / 3000) mod 4 = 0 \/ (t / 3000) mod 4 = 1
               \/ (t / 3000) mod 4 = 2 \/ (t / 3000) mod 4 = 3) by lia.
  assert (M3 : (t / 3000) mod 3 = 0 \/ (t / 3000) mod 3 = 1
               \/ (t / 3000) mod 3 = 2) by lia.
  split; [|split].
  - destruct M4 as [E | [E | [E | E]]]; rewrite E; vm_compute; reflexivity.
  - destruct M4 as [E | [E | [E | E]]]; rewrite E; vm_compute; reflexivity.
  - destruct M3 as [E | [E | E]]; rewrite E; vm_compute; reflexivity.
Qed.

Lemma polygons_are_closed_witness :
  segment_sum (constant_world 0 (TofValid 1200) (TofValid 2000)) 3 4000 3
  = (F32.zero, F32.zero).
Proof.
  refine (proj2 (proj2 (polygons_are_closed _ 4000 _ _))); lia.
Defined.

(** ** Shapes over the wire *)

(** X13.  The shape commands SQUARE, RECT, OVAL and TRI (codes 1 to 4)
    start the shape whose number is the command code, from any state:
    the engine is RUNNING afterwards, the shape time starts at the first
    clock reading and the safety timer at the third.  So the OVAL command
    (code 3) selects the shape that the engine flies as the three-legged
    triangle, and the TRI command (code 4) the one that it flies as the
    oval, with [cosf] and [sinf] of the elapsed seconds. *)
Theorem shape_commands_select_by_code (W : world) (pk : CRTPPacket) (m : machine) :
  addressed pk ->
  In (data_at pk 0) [AUTONAV_CMD_SQUARE; AUTONAV_CMD_RECT; AUTONAV_CMD_OVAL;
                     AUTONAV_CMD_TRI] ->
  let m' := exec (autonav_handle_packet W (Some pk)) m in
  let k := n_clock m in
  (s_state (eng m') = AUTONAV_RUNNING
   /\ s_shapeId (eng m') = data_at pk 0
   /\ shapeStartUs (eng m') = clock_at W k
   /\ s_lastCmdUs (eng m') = clock_at W (S (S k))
   /\ n_clock m' = S (S (S k)))
  /\ (data_at pk 0 = AUTONAV_CMD_OVAL ->
      forall t, 0 <= t < 2 ^ 32 ->
        emitted_velocity W (s_shapeId (eng m')) t =
        let seg := (t / 3000) mod 3 in
        if seg =? 0 then (SHAPE_SPEED, F32.zero)
        else if seg =? 1 then
          (F32.div (F32.opp SHAPE_SPEED) (F32.of_Z 2),
           F32.mul SHAPE_SPEED (F32.lit 87 100))
        else
          (F32.div (F32.opp SHAPE_SPEED) (F32.of_Z 2),
           F32.mul (F32.opp SHAPE_SPEED) (F32.lit 87 100)))
  /\ (data_at pk 0 = AUTONAV_CMD_TRI ->
      forall t,
        let ts := F32.div (F32.of_Z (u32 t)) (F32.of_Z 1000) in
        emitted_velocity W (s_shapeId (eng m')) t =
        (F32.mul SHAPE_SPEED (cosf W ts),
         F32.mul (F32.div SHAPE_SPEED (F32.of_Z 2)) (sinf W ts))).
Proof.
  intros Ha Hc m' k.
  destruct (handle_after_dispatch W pk m Ha) as (E1 & E2 & _).
  fold m' in E1, E2.
  assert (D : s_state (eng m') = AUTONAV_RUNNING
              /\ s_shapeId (eng m') = data_at pk 0
              /\ shapeStartUs (eng m') = clock_at W k
              /\ s_lastCmdUs (eng m') = clock_at W (S (S k))
              /\ n_clock m' = S (S (S k))).
  { rewrite E1, E2. unfold dispatch.
    destruct Hc as [Hc | [Hc | [Hc | [Hc | []]]]]; rewrite <- Hc;
      repeat split; reflexivity. }
  split; [exact D|]. destruct D as (_ & Hs & _). rewrite Hs.
  split; intros Hcmd; rewrite Hcmd.
  - intros t Ht. apply triangle_segment. exact Ht.
  - intros t ts. reflexivity.
Qed.

Lemma shape_commands_select_by_code_witness :
  let W := constant_world 0 (TofValid 1200) (TofValid 2000) in
  let pk := {| port := 13; channel := 0; size := 1; data := [3] |} in
  let m' := exec (autonav_handle_packet W (Some pk)) boot in
  s_shapeId (eng m') = 3
  /\ emitted_velocity W (s_shapeId (eng m')) 6000
     = (F32.div (F32.opp SHAPE_SPEED) (F32.of_Z 2),
        F32.mul (F32.opp SHAPE_SPEED) (F32.lit 87 100)).
Proof.
  intros W pk m'.
  assert (Ha : addressed pk) by (cbv; repeat split; discriminate).
  assert (Hc : In (data_at pk 0) [AUTONAV_CMD_SQUARE; AUTONAV_CMD_RECT;
                                  AUTONAV_CMD_OVAL; AUTONAV_CMD_TRI])
    by (right; right; left; reflexivity).
  destruct (shape_commands_select_by_code W pk boot Ha Hc) as ((_ & H1 & _) & H2 & _).
  split; [exact H1|].
  apply (H2 eq_refl 6000). lia.
Defined.

(** One control step in IDLE with the safety timer alive. *)
Lemma update_idle W tick m :
  s_state (eng m) = AUTONAV_IDLE ->
  elapsed_at_entry W m <= SAFETY_TIMEOUT_MS ->
  let m' := exec (autonavUpdate W tick) m in
  s_state (eng m') = AUTONAV_IDLE
  /\ commanded m' = (setpoint_zero, u32 tick) :: commanded m.
Proof.
  intros Est H m'. subst m'. run_update. cbn. rewrite elapsed_at_entry_eq.
  rewrite (safety_expired_false _ _ H).
  crunch; repeat split; congruence.
Qed.

(** X14.  STOP does not land the vehicle, it idles the engine: after an
    accepted STOP packet the state is IDLE with no shape selected and the
    safety timer refreshed, whatever the state was, and the control step
    that follows within the safety timeout hands the commander an
    all-zero setpoint, thrust 0 included. *)
Theorem stop_command_cuts_thrust (W : world) (pk : CRTPPacket) (tick : Z) (m : machine) :
  addressed pk ->
  data_at pk 0 = AUTONAV_CMD_STOP ->
  let m1 := exec (autonav_handle_packet W (Some pk)) m in
  let m2 := exec (autonavUpdate W tick) m1 in
  ms_between (clock_at W (S (n_clock m))) (clock_at W (n_clock m))
    <= SAFETY_TIMEOUT_MS ->
  s_state (eng m1) = AUTONAV_IDLE
  /\ s_shapeId (eng m1) = 0
  /\ s_lastCmdUs (eng m1) = clock_at W (n_clock m)
  /\ s_state (eng m2) = AUTONAV_IDLE
  /\ commanded m2 = (setpoint_zero, u32 tick) :: commanded m.
Proof.
  intros Ha Hc m1 m2 Hal.
  destruct (handle_after_dispatch W pk m Ha) as (E1 & E2 & _ & E4 & _).
  fold m1 in E1, E2, E4. rewrite Hc in E1, E2.
  assert (S1 : s_state (eng m1) = AUTONAV_IDLE) by (rewrite E1; reflexivity).
  assert (S2 : s_lastCmdUs (eng m1) = clock_at W (n_clock m))
    by (rewrite E1; reflexivity).
  assert (S3 : n_clock m1 = S (n_clock m)) by (rewrite E2; reflexivity).
  assert (Hal' : elapsed_at_entry W m1 <= SAFETY_TIMEOUT_MS).
  { unfold elapsed_at_entry. rewrite S2, S3. exact Hal. }
  destruct (update_idle W tick m1 S1 Hal') as (U1 & U2).
  split; [exact S1|]. split; [rewrite E1; reflexivity|]. split; [exact S2|].
  split; [exact U1|]. fold m2 in U2. rewrite U2, E4. reflexivity.
Qed.

Lemma stop_command_cuts_thrust_witness :
  let W := constant_world 1000000 (TofValid 1200) (TofValid 2000) in
  let pk := {| port := 13; channel := 0; size := 1; data := [0] |} in
  let m := with_state AUTONAV_RUNNING boot in
  commanded (exec (autonavUpdate W 5) (exec (autonav_handle_packet W (Some pk)) m))
  = [(setpoint_zero, 5)].
Proof.
  intros W pk m.
  assert (Ha : addressed pk) by (cbv; repeat split; discriminate).
  refine (proj2 (proj2 (proj2 (proj2
            (stop_command_cuts_thrust W pk 5 m Ha eq_refl _))))).
  vm_compute. discriminate.
Defined.

(** ** The listener task *)

Definition is_init (c : call) : bool :=
  match c with CallInit => true | _ => false end.

Lemma call_listener W c m :
  let m' := exec (do_call W c) m in
  crtp_started m' = crtp_started m || is_init c
  /\ crtp_tasks m' =
     if is_init c && negb (crtp_started m) then S (crtp_tasks m) else crtp_tasks m.
Proof.
  intros m'. subst m'. destruct c; cbn [do_call is_init].
  2-9: rewrite orb_false_r; cbn [andb]; split.
  2-17: match goal with
        | |- ?f (exec ?c ?m) = _ =>
            let L := fresh in assert (L : leaves f c) by leave; apply L
        end.
  unfold autonavInit. rewrite exec_bind.
  match goal with
  | |- context [exec ?c (exec autonav_crtp_start m)] =>
      assert (L1 : leaves crtp_started c) by leave;
      assert (L2 : leaves crtp_tasks c) by leave
  end.
  rewrite L1, L2. unfold exec, autonav_crtp_start.
  destruct (crtp_started m) eqn:E; cbn [snd crtp_started crtp_tasks];
    rewrite ?E; split; reflexivity.
Qed.

(** X15.  The listener task is created by the first [autonavInit] and
    never again: whatever is called from start-up on, there is one
    listener task if [autonavInit] was among the calls, and none
    otherwise. *)
Theorem listener_task_created_once (W : world) (cs : list call) :
  let m := exec (do_calls W cs) boot in
  crtp_started m = existsb is_init cs
  /\ crtp_tasks m = (if existsb is_init cs then 1 else 0)%nat.
Proof.
  assert (G : forall cs m,
    crtp_tasks m = (if crtp_started m then 1 else 0)%nat ->
    crtp_started (exec (do_calls W cs) m) = crtp_started m || existsb is_init cs
    /\ crtp_tasks (exec (do_calls W cs) m)
       = (if crtp_started m || existsb is_init cs then 1 else 0)%nat).
  { clear cs. induction cs as [| c cs IH]; intros m Hm; cbn [do_calls existsb].
    - rewrite orb_false_r. split; [reflexivity | exact Hm].
    - rewrite exec_bind.
      destruct (call_listener W c m) as (C1 & C2).
      assert (Hm' : crtp_tasks (exec (do_call W c) m)
                    = (if crtp_started (exec (do_call W c) m) then 1 else 0)%nat).
      { rewrite C1, C2, Hm. destruct (crtp_started m), (is_init c); reflexivity. }
      destruct (IH _ Hm') as (I1 & I2).
      rewrite I1, I2, C1, orb_assoc. split; reflexivity. }
  intros m. destruct (G cs boot eq_refl) as (G1 & G2). split; assumption.
Qed.

(** ** Override, from entry to exit *)

(** What a control step in OVERRIDE with the timer alive leaves alone. *)
Lemma update_override_frame W tick m :
  s_state (eng m) = AUTONAV_OVERRIDE ->
  elapsed_at_entry W m <= SAFETY_TIMEOUT_MS ->
  let m' := exec (autonavUpdate W tick) m in
  s_shapeId (eng m') = s_shapeId (eng m)
  /\ shapeStartUs (eng m') = shapeStartUs (eng m)
  /\ s_targetAltMm (eng m') = s_targetAltMm (eng m).
Proof.
  intros Est H m'. subst m'. run_update. cbn. rewrite elapsed_at_entry_eq.
  rewrite (safety_expired_false _ _ H).
  crunch; repeat split; congruence.
Qed.

Lemma override_updates W ticks m :
  s_state (eng m) = AUTONAV_OVERRIDE ->
  kept_alive W (n_clock m) (s_lastCmdUs (eng m)) (length ticks) ->
  let m' := exec (autonavUpdates W ticks) m in
  s_state (eng m') = AUTONAV_OVERRIDE
  /\ commanded m' = commanded m
  /\ n_clock m' = (n_clock m + 2 * length ticks)%nat
  /\ s_shapeId (eng m') = s_shapeId (eng m)
  /\ shapeStartUs (eng m') = shapeStartUs (eng m)
  /\ s_targetAltMm (eng m') = s_targetAltMm (eng m).
Proof.
  revert m. induction ticks as [| t ticks IH]; intros m Est Hk m'; subst m'.
  - cbn. repeat split; try assumption; lia.
  - rewrite updates_cons. cbn [length kept_alive] in Hk. destruct Hk as (H0 & Hk).
    destruct (update_override_alive W t m Est H0) as (E1 & E2 & E3 & E4).
    destruct (update_override_frame W t m Est H0) as (F1 & F2 & F3).
    assert (Hk' : kept_alive W (n_clock (exec (autonavUpdate W t) m))
                    (s_lastCmdUs (eng (exec (autonavUpdate W t) m)))
                    (length ticks)) by (rewrite E3, E4; exact Hk).
    destruct (IH _ E1 Hk') as (I1 & I2 & I3 & I4 & I5 & I6).
    split; [exact I1|]. split; [congruence|].
    split; [rewrite I3, E4; cbn [length]; lia|].
    repeat split; congruence.
Qed.

(** X16.  Override does not remember where it came from and does not
    stop the shape clock: [autonavEnterOverride], any number of control
    steps that keep the safety timer alive, then [autonavExitOverride]
    leave the engine in RUNNING whatever its state was before (IDLE and
    LANDED included), with the shape selector, the shape start time and
    the target altitude untouched, nothing handed to the commander, and
    the safety timer at the clock reading taken on exit. *)
Theorem override_round_trip (W : world) (ticks : list Z) (m : machine) :
  let m1 := exec autonavEnterOverride m in
  let m2 := exec (autonavUpdates W ticks) m1 in
  let m3 := exec (autonavExitOverride W) m2 in
  kept_alive W (n_clock m) (s_lastCmdUs (eng m)) (length ticks) ->
  s_state (eng m2) = AUTONAV_OVERRIDE
  /\ s_state (eng m3) = AUTONAV_RUNNING
  /\ commanded m3 = commanded m
  /\ s_shapeId (eng m3) = s_shapeId (eng m)
  /\ shapeStartUs (eng m3) = shapeStartUs (eng m)
  /\ s_targetAltMm (eng m3) = s_targetAltMm (eng m)
  /\ s_lastCmdUs (eng m3) = clock_at W (n_clock m + 2 * length ticks).
Proof.
  intros m1 m2 m3 Hk.
  assert (Est : s_state (eng m1) = AUTONAV_OVERRIDE) by reflexivity.
  assert (Hk' : kept_alive W (n_clock m1) (s_lastCmdUs (eng m1)) (length ticks))
    by exact Hk.
  destruct (override_updates W ticks m1 Est Hk') as (I1 & I2 & I3 & I4 & I5 & I6).
  fold m2 in I1, I2, I3, I4, I5, I6.
  split; [exact I1|]. split; [reflexivity|].
  split; [exact I2|]. split; [exact I4|]. split; [exact I5|]. split; [exact I6|].
  change (s_lastCmdUs (eng m3)) with (clock_at W (n_clock m2)).
  rewrite I3. reflexivity.
Qed.

Lemma override_round_trip_witness :
  let m := with_state AUTONAV_LANDED boot in
  let m3 := exec (autonavExitOverride slow_world)
              (exec (autonavUpdates slow_world [0; 20000])
                 (exec autonavEnterOverride m)) in
  s_state (eng m3) = AUTONAV_RUNNING /\ commanded m3 = [].
Proof.
  intros m m3.
  destruct (override_round_trip slow_world [0; 20000] m) as (_ & H1 & H2 & _).
  - cbn [length kept_alive]. repeat split; apply Z.leb_le; vm_compute; reflexivity.
  - split; [exact H1 | exact H2].
Defined.

(** ** The safety timeout, to the microsecond *)

(** X17.  The safety check compares whole milliseconds of the unsigned
    64-bit difference [now - last]: on an engine that is neither landing
    nor landed and with the clock at or after the last kick, it forces
    LANDING exactly when at least 30001000 microseconds have passed
    (30000999 are not enough).  A clock reading before the last kick wraps
    around in the subtraction: it forces LANDING when it lies at most
    [2^64 - 30001000] microseconds before the kick, and leaves the state
    alone when it lies further back than that, the wrapped difference
    being below 30001000 then. *)
Theorem safety_timeout_boundary (W : world) (m : machine) :
  let now := clock_at W (n_clock m) in
  let last := s_lastCmdUs (eng m) in
  let st' := s_state (eng (exec (safety_check W) m)) in
  s_state (eng m) <> AUTONAV_LANDING ->
  s_state (eng m) <> AUTONAV_LANDED ->
  0 <= last < 2 ^ 64 ->
  (last <= now -> 30001000 <= now - last -> st' = AUTONAV_LANDING)
  /\ (last <= now -> now - last < 30001000 -> st' = s_state (eng m))
  /\ (now < last -> last - now <= 2 ^ 64 - 30001000 -> st' = AUTONAV_LANDING)
  /\ (now < last -> 2 ^ 64 - 30001000 < last - now -> st' = s_state (eng m)).
Proof.
  intros now last st' H1 H2 Hl. subst st'.
  assert (Hn : 0 <= now < 2 ^ 64).
  { unfold now, clock_at, u64. apply Z.mod_pos_bound. reflexivity. }
  rewrite safety_check_state.
  assert (E : elapsed_at_entry W m = u64 (now - last) / 1000) by reflexivity.
  rewrite E. unfold SAFETY_TIMEOUT_MS in *.
  split; [|split; [|split]].
  - intros Ho Hd. rewrite safety_expired_true; auto.
    unfold u64. rewrite Z.mod_small by lia. unfold SAFETY_TIMEOUT_MS.
    assert (30001000 / 1000 <= (now - last) / 1000) by (apply Z.div_le_mono; lia).
    change (30001000 / 1000) with 30001 in *. lia.
  - intros Ho Hd. rewrite safety_expired_false; auto.
    unfold u64. rewrite Z.mod_small by lia. unfold SAFETY_TIMEOUT_MS.
    assert ((now - last) / 1000 < 30001) by (apply Z.div_lt_upper_bound; lia).
    lia.
  - intros Ho Hd. rewrite safety_expired_true; auto.
    unfold u64.
    replace (now - last) with (2 ^ 64 - (last - now) + (-1) * 2 ^ 64) by lia.
    rewrite Z.mod_add by lia. rewrite Z.mod_small by lia.
    unfold SAFETY_TIMEOUT_MS.
    assert (30001000 / 1000 <= (2 ^ 64 - (last - now)) / 1000)
      by (apply Z.div_le_mono; lia).
    change (30001000 / 1000) with 30001 in *. lia.
  - intros Ho Hd. rewrite safety_expired_false; auto.
    unfold u64.
    replace (now - last) with (2 ^ 64 - (last - now) + (-1) * 2 ^ 64) by lia.
    rewrite Z.mod_add by lia. rewrite Z.mod_small by lia.
    unfold SAFETY_TIMEOUT_MS.
    assert ((2 ^ 64 - (last - now)) / 1000 < 30001)
      by (apply Z.div_lt_upper_bound; lia).
    lia.
Qed.

Lemma safety_timeout_boundary_witness :
  s_state (eng (exec (safety_check (constant_world 30000999 (TofValid 1200)
                                      (TofValid 2000))) boot)) = AUTONAV_IDLE
  /\ s_state (eng (exec (safety_check (constant_world 30001000 (TofValid 1200)
                                         (TofValid 2000))) boot)) = AUTONAV_LANDING.
Proof.
  split.
  - refine (proj1 (proj2 (safety_timeout_boundary
              (constant_world 30000999 (TofValid 1200) (TofValid 2000)) boot
              _ _ _)) _ _); try (cbn; lia); try discriminate.
    all: vm_compute; try reflexivity; try discriminate.
  - refine (proj1 (safety_timeout_boundary
              (constant_world 30001000 (TofValid 1200) (TofValid 2000)) boot
              _ _ _) _ _); try (cbn; lia); try discriminate.
    all: vm_compute; try reflexivity; try discriminate.
Defined.

(** ** A forward sensor that fails *)

(** X18.  A forward reading that the driver reports as invalid counts
    as a free path, whatever the driver stored: with the safety timer
    alive, a step in HOLD_OBSTACLE returns to RUNNING, and a step in
    RUNNING keeps flying the shape. *)
Theorem front_sensor_failure_counts_as_clear
    (W : world) (tick : Z) (m : machine) (stored : option Z) :
  elapsed_at_entry W m <= SAFETY_TIMEOUT_MS ->
  front_tof W (n_front m) = TofInvalid stored ->
  let m' := exec (autonavUpdate W tick) m in
  (s_state (eng m) = AUTONAV_HOLD_OBSTACLE ->
     s_state (eng m') = AUTONAV_RUNNING
     /\ commanded m' = (set_thrust (hold_thrust W m) setpoint_zero, u32 tick)
                       :: commanded m)
  /\ (s_state (eng m) = AUTONAV_RUNNING ->
     s_state (eng m') = AUTONAV_RUNNING
     /\ exists sp,
          commanded m' = (sp, u32 tick) :: commanded m
          /\ thrust sp = hold_thrust W m
          /\ (velocity_x sp, velocity_y sp)
             = emitted_velocity W (s_shapeId (eng m))
                 (ms_between (clock_at W (S (n_clock m))) (shapeStartUs (eng m)))).
Proof.
  intros H Hf m'.
  assert (Hb : front_blocked W m = false).
  { unfold front_blocked. rewrite Hf. destruct stored; reflexivity. }
  split; intros Est.
  - subst m'. unfold hold_thrust. run_update. cbn. rewrite elapsed_at_entry_eq.
    rewrite (safety_expired_false _ _ H).
    crunch_front Hf; split; reflexivity.
  - exact (update_running_clear W tick m H Est Hb).
Qed.

Lemma front_sensor_failure_counts_as_clear_witness :
  let W := constant_world 1000000 (TofValid 1200) (TofInvalid (Some 100)) in
  s_state (eng (exec (autonavUpdate W 0) (with_state AUTONAV_HOLD_OBSTACLE boot)))
  = AUTONAV_RUNNING.
Proof.
  intros W.
  refine (proj1 (proj1 (front_sensor_failure_counts_as_clear W 0
                          (with_state AUTONAV_HOLD_OBSTACLE boot) (Some 100) _ eq_refl)
                   eq_refl)).
  vm_compute. discriminate.
Defined.

(** ** RUNNING without a shape *)

Lemma no_shape_velocity W shapeId t :
  ~ In shapeId [1; 2; 3; 4] ->
  emitted_velocity W shapeId t = (F32.zero, F32.zero).
Proof.
  intros H. unfold emitted_velocity, shape_velocity.
  destruct shapeId as [| p | p]; try reflexivity.
  repeat (match goal with p : positive |- _ => destruct p end; try reflexivity).
  all: exfalso; apply H; cbn; tauto.
Qed.

(** X19.  RUNNING with a shape selector other than 1, 2, 3 or 4 hovers:
    with the safety timer alive and the path free, the control step hands
    the commander the hold thrust with both horizontal velocities zero.
    That is the case after [autonavExitOverride] on an engine that never
    had a shape started, whose selector is 0. *)
Theorem running_without_shape_hovers (W : world) (tick : Z) (m : machine) :
  elapsed_at_entry W m <= SAFETY_TIMEOUT_MS ->
  s_state (eng m) = AUTONAV_RUNNING ->
  ~ In (s_shapeId (eng m)) [1; 2; 3; 4] ->
  front_blocked W m = false ->
  let m' := exec (autonavUpdate W tick) m in
  s_state (eng m') = AUTONAV_RUNNING
  /\ exists sp,
       commanded m' = (sp, u32 tick) :: commanded m
       /\ thrust sp = hold_thrust W m
       /\ velocity_x sp = F32.zero /\ velocity_y sp = F32.zero.
Proof.
  intros H Est Hs Hb m'.
  destruct (update_running_clear W tick m H Est Hb) as (R1 & sp & R2 & R3 & R4).
  split; [exact R1|]. exists sp. split; [exact R2|]. split; [exact R3|].
  rewrite no_shape_velocity in R4 by exact Hs.
  inversion R4. split; reflexivity.
Qed.

Lemma running_without_shape_hovers_witness :
  let W := constant_world 1000000 (TofValid 1200) (TofValid 2000) in
  let m := exec (autonavExitOverride W) boot in
  s_state (eng (exec (autonavUpdate W 0) m)) = AUTONAV_RUNNING.
Proof.
  intros W m.
  refine (proj1 (running_without_shape_hovers W 0 m _ eq_refl _ eq_refl)).
  - vm_compute. discriminate.
  - cbn. intros [H | [H | [H | [H | []]]]]; discriminate.
Defined.

(** ** Initialisation *)

Lemma eng_modify f m : eng (exec (modify f) m) = f (eng m).
Proof. reflexivity. Qed.

Lemma eng_nowUs W m : eng (exec (nowUs W) m) = eng m.
Proof. reflexivity. Qed.

Lemma eng_crtp_start m : eng (exec autonav_crtp_start m) = eng m.
Proof. unfold exec, autonav_crtp_start. destruct (crtp_started m); reflexivity. Qed.

Lemma exec_gets {A} (f : autonav -> A) m : exec (gets f) m = m.
Proof. reflexivity. Qed.

Lemma eval_gets {A} (f : autonav -> A) m : eval (gets f) m = f (eng m).
Proof. reflexivity. Qed.

(** X20.  [autonavInit] brings the engine back to its start-up values
    from any state, LANDED included: state IDLE, no shape, target altitude
    and filtered altitude 1200 mm, integral and previous error zero,
    obstacle timestamp 0.  The safety timer starts at the one clock reading
    it takes; the shape start time is the one static it does not reset. *)
Theorem init_restores_defaults (W : world) (m : machine) :
  let m' := exec (autonavInit W) m in
  eng m' = set_s_lastCmdUs (clock_at W (n_clock m))
             (set_shapeStartUs (shapeStartUs (eng m)) autonav_statics)
  /\ n_clock m' = S (n_clock m)
  /\ commanded m' = commanded m
  /\ crtp_sent m' = crtp_sent m.
Proof.
  intros m'. subst m'.
  assert (L1 : leaves commanded (autonavInit W)) by leave.
  assert (L2 : leaves crtp_sent (autonavInit W)) by leave.
  split; [|split; [|split; [apply L1 | apply L2]]].
  - unfold autonavInit. rewrite !exec_bind. rewrite exec_gets, eval_gets.
    rewrite !eng_modify, eng_nowUs, !eng_modify, eng_crtp_start.
    assert (C : eval (nowUs W)
                  (exec (modify (set_s_shapeId 0))
                     (exec (modify (set_s_targetAltMm AUTONAV_DEFAULT_ALT_MM))
                        (exec (modify (set_s_state AUTONAV_IDLE))
                           (exec autonav_crtp_start m))))
                = clock_at W (n_clock m)).
    { unfold eval, exec, autonav_crtp_start. destruct (crtp_started m); reflexivity. }
    rewrite C. reflexivity.
  - unfold autonavInit. rewrite exec_bind.
    match goal with
    | |- n_clock (exec ?c ?m0) = _ =>
        assert (N : forall m1, n_clock (exec c m1) = S (n_clock m1))
    end.
    { intros m1. rewrite !exec_bind. reflexivity. }
    rewrite N. unfold exec, autonav_crtp_start.
    destruct (crtp_started m); reflexivity.
Qed.

(** ** No overflow in the controller *)

(** X21.  The controller's floating-point statics never overflow and
    never become NaN: whatever the engine and the handler are called with
    from start-up on, and whatever the sensors answer, the filtered
    altitude, the previous error and the integral are finite [float]s, of
    magnitude at most 65600, 131137 and 400. *)
Theorem controller_state_stays_finite (W : world) (cs : list call) :
  let a := eng (exec (do_calls W cs) boot) in
  F32.is_finite (altFilt a) = true
  /\ F32.is_finite (z_prevErr a) = true
  /\ F32.is_finite (z_i a) = true
  /\ (Rabs (V (altFilt a)) <= 65600)%R
  /\ (Rabs (V (z_prevErr a)) <= 131137)%R
  /\ (Rabs (V (z_i a)) <= 400)%R.
Proof.
  intros a.
  assert (H : ctrl_ok a) by (apply keep_calls; exact ctrl_ok_statics).
  destruct H as (((F1 & _) & B1) & ((F2 & _) & B2) & ((F3 & _) & B3) & _).
  repeat split; assumption.
Qed.

(** ** The bench simulation *)

(** The first simulator [main]: its sensor stubs, for a given clock.  The
    down-facing stub always reports 1200 mm; the forward stub reports 2000
    mm for its first 49 calls and 500 mm from the 50th on. *)
Definition bench_world (clock : nat -> Z) (cosf sinf : F32.t -> F32.t) : world :=
  {| esp_timer_get_time := clock;
     down_tof := fun _ => TofValid 1200;
     front_tof := fun k => if (k <? 49)%nat then TofValid 2000 else TofValid 500;
     cosf := cosf;
     sinf := sinf |}.

(** [n] turns of the loop [for (t = ...; ...; t += 100)], entered at [t]. *)
Fixpoint bench_loop (W : world) (n : nat) (t : Z) : M unit :=
  match n with
  | O => ret tt
  | S n' =>
      autonavUpdate W t ;;
      (if t <? 20000 then autonavKickSafety W else ret tt) ;;
      bench_loop W n' (t + 100)
  end.

(** What [main] does before the loop. *)
Definition bench_start (W : world) : M unit :=
  autonavInit W ;; autonavStartShape W 1.

(** A clock that does not run backwards and that advances by less than
    the safety timeout over the whole run. *)
Definition short_run (clock : nat -> Z) : Prop :=
  forall i j, (i <= j)%nat ->
    0 <= clock i <= clock j /\ clock j < 2 ^ 64 /\ clock j - clock i <= 30000999.

Lemma short_run_elapsed clock c s i j :
  short_run clock -> (i <= j)%nat ->
  ms_between (clock_at (bench_world clock c s) j)
             (clock_at (bench_world clock c s) i) <= 30000.
Proof.
  intros H Hij. destruct (H i j Hij) as (H1 & H2 & H3).
  unfold ms_between, clock_at, u64. cbn [esp_timer_get_time bench_world].
  rewrite (Z.mod_small (clock j)) by lia.
  rewrite (Z.mod_small (clock i)) by lia.
  rewrite Z.mod_small by lia.
  assert ((clock j - clock i) / 1000 < 30001) by (apply Z.div_lt_upper_bound; lia).
  lia.
Qed.

(** The state of the bench after [k] turns of the loop. *)
Definition bench_inv (W : world) (k : nat) (m : machine) : Prop :=
  n_front m = k
  /\ (exists i, (i < n_clock m)%nat /\ s_lastCmdUs (eng m) = clock_at W i)
  /\ ((k <= 49)%nat -> s_state (eng m) = AUTONAV_RUNNING)
  /\ ((50 <= k)%nat ->
      s_state (eng m) = AUTONAV_HOLD_OBSTACLE
      /\ exists j, (j < n_clock m)%nat /\ s_obstEnterUs (eng m) = clock_at W j).

(** One control step of the bench: what it does to the statics that the
    state machine reads. *)
Lemma bench_update W tick m :
  elapsed_at_entry W m <= SAFETY_TIMEOUT_MS ->
  s_state (eng m) <> AUTONAV_OVERRIDE ->
  let m' := exec (autonavUpdate W tick) m in
  n_front m' = S (n_front m)
  /\ s_lastCmdUs (eng m') = s_lastCmdUs (eng m)
  /\ (n_clock m < n_clock m')%nat
  /\ (s_state (eng m) = AUTONAV_RUNNING ->
      (front_blocked W m = false ->
         s_state (eng m') = AUTONAV_RUNNING)
      /\ (front_blocked W m = true ->
         s_state (eng m') = AUTONAV_HOLD_OBSTACLE
         /\ s_obstEnterUs (eng m') = clock_at W (S (n_clock m))
         /\ n_clock m' = S (S (n_clock m))))
  /\ (s_state (eng m) = AUTONAV_HOLD_OBSTACLE ->
      front_blocked W m = true ->
      ms_between (clock_at W (S (n_clock m))) (s_obstEnterUs (eng m))
        <= OBSTACLE_MAX_WAIT_MS ->
      s_state (eng m') = AUTONAV_HOLD_OBSTACLE
      /\ s_obstEnterUs (eng m') = s_obstEnterUs (eng m)).
Proof.
  intros H Hno m'. subst m'. unfold front_blocked, clock_at.
  destruct (tof_result 65535 (front_tof W (n_front m))) as [ok fm] eqn:Ef.
  run_update. cbn. rewrite elapsed_at_entry_eq.
  rewrite (safety_expired_false _ _ H).
  destruct (s_state (eng m)) eqn:Est; [| | | | | congruence].
  all: crunch_by ltac:(rewrite Ef).
  all: repeat split; try lia; try congruence; intros; try congruence.
  all: try (exfalso; close_cmp; congruence).
  all: try (close_cmp; exfalso; lia).
Qed.

Lemma bench_turn clock c s k t m :
  let W := bench_world clock c s in
  short_run clock ->
  bench_inv W k m ->
  bench_inv W (S k)
    (exec (autonavUpdate W t ;;
           (if t <? 20000 then autonavKickSafety W else ret tt)) m).
Proof.
  intros W Hs (I1 & (i & Hi & Il) & I3 & I4).
  assert (Hal : elapsed_at_entry W m <= SAFETY_TIMEOUT_MS).
  { unfold elapsed_at_entry. rewrite Il.
    apply short_run_elapsed; [exact Hs | lia]. }
  assert (Hno : s_state (eng m) <> AUTONAV_OVERRIDE).
  { destruct (Nat.le_gt_cases k 49) as [Hk | Hk].
    - rewrite (I3 Hk). discriminate.
    - rewrite (proj1 (I4 Hk)). discriminate. }
  destruct (bench_update W t m Hal Hno) as (U1 & U2 & U3 & U4 & U5).
  set (m1 := exec (autonavUpdate W t) m) in *.
  assert (Hb : front_blocked W m = negb (k <? 49)%nat).
  { unfold front_blocked. cbn [front_tof W bench_world]. rewrite I1.
    destruct (k <? 49)%nat; reflexivity. }
  assert (B : n_front m1 = S k
              /\ (exists i, (i < n_clock m1)%nat /\ s_lastCmdUs (eng m1) = clock_at W i)
              /\ ((S k <= 49)%nat -> s_state (eng m1) = AUTONAV_RUNNING)
              /\ ((50 <= S k)%nat ->
                  s_state (eng m1) = AUTONAV_HOLD_OBSTACLE
                  /\ exists j, (j < n_clock m1)%nat
                               /\ s_obstEnterUs (eng m1) = clock_at W j)).
  { split; [rewrite U1, I1; reflexivity|].
    split; [exists i; split; [lia | rewrite U2; exact Il]|].
    split.
    - intros Hk. destruct (U4 (I3 ltac:(lia))) as (R & _). apply R.
      rewrite Hb. replace (k <? 49)%nat with true; [reflexivity|].
      symmetry. apply Nat.ltb_lt. lia.
    - intros Hk.
      assert (Hbt : front_blocked W m = true).
      { rewrite Hb. replace (k <? 49)%nat with false; [reflexivity|].
        symmetry. apply Nat.ltb_ge. lia. }
      destruct (Nat.eq_dec k 49) as [E | E].
      + destruct (U4 (I3 ltac:(lia))) as (_ & R). destruct (R Hbt) as (R1 & R2 & R3).
        split; [exact R1|]. exists (S (n_clock m)). split; [lia | exact R2].
      + destruct (I4 ltac:(lia)) as (Est & j & Hj & Ej).
        destruct (U5 Est Hbt) as (R1 & R2).
        { rewrite Ej. apply short_run_elapsed; [exact Hs | lia]. }
        split; [exact R1|]. exists j. split; [lia | rewrite R2; exact Ej]. }
  rewrite exec_bind. fold m1.
  destruct (t <? 20000); [|exact B].
  destruct B as (B1 & _ & B3 & B4).
  split; [exact B1|].
  split; [exists (n_clock m1); split; [cbn; lia | reflexivity]|].
  split; [exact B3|].
  intros Hk. destruct (B4 Hk) as (Est & j & Hj & Ej).
  split; [exact Est|]. exists j. split; [cbn; lia | exact Ej].
Qed.

Lemma bench_loop_inv clock c s n k t m :
  let W := bench_world clock c s in
  short_run clock ->
  bench_inv W k m ->
  bench_inv W (k + n) (exec (bench_loop W n t) m).
Proof.
  intros W Hs. revert k t m. induction n as [| n IH]; intros k t m Hi.
  - rewrite Nat.add_0_r. exact Hi.
  - cbn [bench_loop].
    assert (E : exec (autonavUpdate W t ;;
                      (if t <? 20000 then autonavKickSafety W else ret tt) ;;
                      bench_loop W n (t + 100)) m
                = exec (bench_loop W n (t + 100))
                    (exec (autonavUpdate W t ;;
                           (if t <? 20000 then autonavKickSafety W else ret tt)) m)).
    { rewrite !exec_bind. reflexivity. }
    rewrite E. replace (k + S n)%nat with (S k + n)%nat by lia.
    apply IH. apply bench_turn; assumption.
Qed.

(** X22.  The bench simulation never shows a landing when it runs in
    less than 30 s of real time: the engine's timers follow
    [esp_timer_get_time], not the simulated tick.  After [autonavInit] and
    [autonavStartShape(1)], the engine is RUNNING for the first 49 turns
    of the loop, enters HOLD_OBSTACLE at the 50th, when the forward stub
    starts to report 500 mm, and is still there after any later turn, the
    700th included, whether or not the loop has stopped kicking the safety
    timer. *)
Theorem bench_run_ends_in_hold (clock : nat -> Z) (c s : F32.t -> F32.t) (n : nat) :
  let W := bench_world clock c s in
  let m := exec (bench_loop W n 0) (exec (bench_start W) boot) in
  short_run clock ->
  ((n <= 49)%nat -> s_state (eng m) = AUTONAV_RUNNING)
  /\ ((50 <= n)%nat -> s_state (eng m) = AUTONAV_HOLD_OBSTACLE).
Proof.
  intros W m Hs.
  assert (I0 : bench_inv W 0 (exec (bench_start W) boot)).
  { split; [reflexivity|].
    split; [exists 2%nat; split; [cbn; lia | reflexivity]|].
    split; [intros _; reflexivity | intros H; lia]. }
  pose proof (bench_loop_inv clock c s n 0 0 _ Hs I0) as (_ & _ & I3 & I4).
  fold W in I3, I4. fold m in I3, I4. cbn [Nat.add] in I3, I4.
  split; [exact I3 | intros H; exact (proj1 (I4 H))].
Qed.

Lemma bench_run_ends_in_hold_witness :
  let W := bench_world (fun k => 10000 * Z.of_nat (Nat.min k 2500))
             (fun x => x) (fun x => x) in
  s_state (eng (exec (bench_loop W 700 0) (exec (bench_start W) boot)))
  = AUTONAV_HOLD_OBSTACLE.
Proof.
  intros W.
  refine (proj2 (bench_run_ends_in_hold
                   (fun k => 10000 * Z.of_nat (Nat.min k 2500))
                   (fun x => x) (fun x => x) 700 _) _).
  - intros i j Hij. lia.
  - lia.
Defined.

(** ** The placeholder engine of the simulator's [sim_sensors.h] *)

(** The header carries a second, minimal [autonav]: a timeout on the
    tick passed to the control step, an obstacle flag set from outside,
    and shapes that are still to be written.  Its statics are
    [lastCommandTime] ([uint32_t]), [currentShape] ([uint8_t]) and
    [obstacleDetected]; it calls [commanderLand], [commanderHover] and the
    logger, which are recorded here as events, the latest first. *)
Module Placeholder.

Definition AUTONAV_TIMEOUT_MS : Z := 30000.

Record statics := {
  lastCommandTime : Z;
  currentShape : Z;
  obstacleDetected : bool
}.

Inductive event :=
| CommanderLand
| CommanderHover
| LogStartingShape (shapeId : Z)
| LogNoCommand
| LogObstacle.

(** The answers of [xTaskGetTickCount], call by call, and the constant
    [portTICK_PERIOD_MS]. *)
Record ticker := {
  xTaskGetTickCount : nat -> Z;
  portTICK_PERIOD_MS : Z
}.

Record sim := {
  vars : statics;
  events : list event;
  n_ticks : nat
}.

Definition start : sim :=
  {| vars := {| lastCommandTime := 0; currentShape := 0; obstacleDetected := false |};
     events := []; n_ticks := 0 |}.

Definition autonavInit (s : sim) : sim :=
  {| vars := {| lastCommandTime := 0; currentShape := 0; obstacleDetected := false |};
     events := events s; n_ticks := n_ticks s |}.

Definition autonavKickSafety (T : ticker) (s : sim) : sim :=
  {| vars := {| lastCommandTime :=
                  u32 (u32 (xTaskGetTickCount T (n_ticks s)) * portTICK_PERIOD_MS T);
                currentShape := currentShape (vars s);
                obstacleDetected := obstacleDetected (vars s) |};
     events := events s; n_ticks := S (n_ticks s) |}.

Definition autonavSetObstacle (detected : bool) (s : sim) : sim :=
  {| vars := {| lastCommandTime := lastCommandTime (vars s);
                currentShape := currentShape (vars s);
                obstacleDetected := detected |};
     events := events s; n_ticks := n_ticks s |}.

Definition autonavStartShape (T : ticker) (shapeId : Z) (s : sim) : sim :=
  let s1 :=
    {| vars := {| lastCommandTime := lastCommandTime (vars s);
                  currentShape := u8 shapeId;
                  obstacleDetected := obstacleDetected (vars s) |};
       events := events s; n_ticks := n_ticks s |} in
  let s2 := autonavKickSafety T s1 in
  {| vars := vars s2; events := LogStartingShape (u8 shapeId) :: events s2;
     n_ticks := n_ticks s2 |}.

(** The timeout test: [lastCommandTime > 0 && (tickMs - lastCommandTime) >
    AUTONAV_TIMEOUT_MS], the subtraction being the unsigned 32-bit one. *)
Definition timed_out (tickMs : Z) (s : sim) : bool :=
  (0 <? lastCommandTime (vars s))
  && (AUTONAV_TIMEOUT_MS <? u32 (u32 tickMs - lastCommandTime (vars s))).

Definition autonavUpdate (tickMs : Z) (s : sim) : sim :=
  if timed_out tickMs s then
    {| vars := {| lastCommandTime := lastCommandTime (vars s);
                  currentShape := 0;
                  obstacleDetected := obstacleDetected (vars s) |};
       events := CommanderLand :: LogNoCommand :: events s;
       n_ticks := n_ticks s |}
  else if obstacleDetected (vars s) then
    {| vars := vars s;
       events := CommanderHover :: LogObstacle :: events s;
       n_ticks := n_ticks s |}
  else
    (* [switch (currentShape)]: every case is empty. *)
    s.

(** The entry points, as a caller may invoke them one after the other. *)
Inductive call :=
| Init
| KickSafety
| SetObstacle (detected : bool)
| StartShape (shapeId : Z)
| Update (tickMs : Z).

Definition do_call (T : ticker) (c : call) (s : sim) : sim :=
  match c with
  | Init => autonavInit s
  | KickSafety => autonavKickSafety T s
  | SetObstacle detected => autonavSetObstacle detected s
  | StartShape shapeId => autonavStartShape T shapeId s
  | Update tickMs => autonavUpdate tickMs s
  end.

Definition do_calls (T : ticker) (cs : list call) (s : sim) : sim :=
  fold_left (fun s c => do_call T c s) cs s.

(** An event that is a call of [commanderLand]. *)
Definition is_land (e : event) : bool :=
  match e with CommanderLand => true | _ => false end.

(** A call that reads the tick counter. *)
Definition kicks (c : call) : bool :=
  match c with KickSafety | StartShape _ => true | _ => false end.

End Placeholder.

Lemma placeholder_unkicked_step (T : Placeholder.ticker) c s :
  Placeholder.kicks c = false ->
  Placeholder.lastCommandTime (Placeholder.vars s) = 0 ->
  let s' := Placeholder.do_call T c s in
  Placeholder.lastCommandTime (Placeholder.vars s') = 0
  /\ existsb Placeholder.is_land (Placeholder.events s')
     = existsb Placeholder.is_land (Placeholder.events s).
Proof.
  intros Hk H0 s'. subst s'. destruct c; try discriminate; cbn.
  - auto.
  - auto.
  - unfold Placeholder.autonavUpdate, Placeholder.timed_out. rewrite H0. cbn.
    destruct (Placeholder.obstacleDetected (Placeholder.vars s)); cbn; auto.
Qed.

(** X23.  The placeholder engine's timeout is armed by the first kick
    only: started or initialised and never kicked (neither by
    [autonavKickSafety] nor by [autonavStartShape]), it never calls
    [commanderLand], whatever ticks its control step is given and however
    the obstacle flag is set. *)
Theorem placeholder_unkicked_never_lands
    (T : Placeholder.ticker) (cs : list Placeholder.call) :
  forallb (fun c => negb (Placeholder.kicks c)) cs = true ->
  existsb Placeholder.is_land
    (Placeholder.events (Placeholder.do_calls T cs Placeholder.start)) = false.
Proof.
  assert (G : forall cs s,
    forallb (fun c => negb (Placeholder.kicks c)) cs = true ->
    Placeholder.lastCommandTime (Placeholder.vars s) = 0 ->
    existsb Placeholder.is_land (Placeholder.events (Placeholder.do_calls T cs s))
    = existsb Placeholder.is_land (Placeholder.events s)).
  { clear cs. induction cs as [| c cs IH]; intros s Hq H0.
    - reflexivity.
    - cbn [forallb] in Hq. apply andb_prop in Hq. destruct Hq as (Hc & Hq).
      apply negb_true_iff in Hc.
      destruct (placeholder_unkicked_step T c s Hc H0) as (S1 & S2).
      unfold Placeholder.do_calls. cbn [fold_left].
      fold (Placeholder.do_calls T cs (Placeholder.do_call T c s)).
      rewrite (IH _ Hq S1). exact S2. }
  intros Hq. rewrite (G cs Placeholder.start Hq eq_refl). reflexivity.
Qed.

Lemma placeholder_unkicked_never_lands_witness :
  existsb Placeholder.is_land
    (Placeholder.events
       (Placeholder.do_calls
          {| Placeholder.xTaskGetTickCount := fun _ => 5;
             Placeholder.portTICK_PERIOD_MS := 1 |}
          [Placeholder.Init; Placeholder.Update 0; Placeholder.Update 4000000]
          Placeholder.start)) = false.
Proof.
  apply placeholder_unkicked_never_lands. reflexivity.
Defined.


